(** * KARMA: quality control of an extracted knowledge graph

    A shallow embedding of the decision logic of the KARMA pipeline:

    - [karma/core/data_structures.py]: the triple and entity records and
      the (de)serialisation of the run record;
    - [karma/agents/evaluator/agent.py]: the quality gate;
    - [karma/agents/conflict_resolution/agent.py]: the conflict resolver;
    - [karma/agents/schema_alignment/agent.py]: the relation normaliser;
    - [karma/agents/entity_extraction/agent.py]: entity deduplication.

    Python floats are IEEE-754 binary64 numbers: they are embedded as
    Rocq's primitive floats, which are the same format with the same
    round-to-nearest-even arithmetic, so every score computed below is the
    bit pattern Python computes.  What holds for all scores (bounds,
    monotonicity) is proved from the specification of these operations
    in [SpecFloat]; real numbers serve there to say what the nearest
    representable number is.  Python objects that the code mutates in
    place live in a store indexed by references. *)

From Stdlib Require Import ZArith Floats Ascii String.
From Stdlib Require Reals Lra.
From stdpp Require Import base gmap list strings.

#[local] Set Warnings "-inexact-float".
#[local] Open Scope string_scope.

(** ** Python strings

    Names and labels are byte strings.  [lower] and [strip] act on the
    ASCII range the way [str.lower] and [str.strip] do; bytes above 127
    are carried along unchanged. *)
Module PyStr.

Definition lower_ascii (c : ascii) : ascii :=
  let n := nat_of_ascii c in
  if (65 <=? n)%nat && (n <=? 90)%nat then ascii_of_nat (n + 32) else c.

Fixpoint lower (s : string) : string :=
  match s with
  | EmptyString => EmptyString
  | String c r => String (lower_ascii c) (lower r)
  end.

(** [str.isspace] on one character: TAB, LF, VT, FF, CR, the four
    separators FS, GS, RS, US, and the space. *)
Definition is_space (c : ascii) : bool :=
  let n := nat_of_ascii c in
  ((9 <=? n)%nat && (n <=? 13)%nat) || ((28 <=? n)%nat && (n <=? 32)%nat).

Fixpoint lstrip (s : string) : string :=
  match s with
  | EmptyString => EmptyString
  | String c r => if is_space c then lstrip r else s
  end.

Fixpoint rstrip (s : string) : string :=
  match s with
  | EmptyString => EmptyString
  | String c r =>
      match rstrip r with
      | EmptyString => if is_space c then EmptyString else String c EmptyString
      | r' => String c r'
      end
  end.

Definition strip (s : string) : string := rstrip (lstrip s).

End PyStr.

(** ** Python list comprehensions and loops that filter *)
Module PyList.

Lemma elem_of_bool_filter {A} (f : A -> bool) (l : list A) (x : A) :
  x ∈ List.filter f l <-> x ∈ l /\ f x = true.
Proof. rewrite !list_elem_of_In. apply filter_In. Qed.

Lemma sublist_bool_filter {A} (f : A -> bool) (l : list A) :
  sublist (List.filter f l) l.
Proof.
  induction l as [|x xs IH]; [constructor|].
  cbn [List.filter]. destruct (f x); by constructor.
Qed.

End PyList.
Export PyList.

(** ** Records of [karma/core/data_structures.py] *)

Record KnowledgeTriple := mkTriple {
  head : string;
  relation : string;
  tail : string;
  confidence : float;
  source : string;
  relevance : float;
  clarity : float
}.

Record KGEntity := mkEntity {
  entity_id : string;
  entity_type : string;
  name : string;
  normalized_id : string;
  aliases : list string
}.

Definition set_confidence (x : float) (t : KnowledgeTriple) : KnowledgeTriple :=
  mkTriple (head t) (relation t) (tail t) x (source t) (relevance t) (clarity t).
Definition set_relevance (x : float) (t : KnowledgeTriple) : KnowledgeTriple :=
  mkTriple (head t) (relation t) (tail t) (confidence t) (source t) x (clarity t).
Definition set_clarity (x : float) (t : KnowledgeTriple) : KnowledgeTriple :=
  mkTriple (head t) (relation t) (tail t) (confidence t) (source t) (relevance t) x.
Definition set_relation (r : string) (t : KnowledgeTriple) : KnowledgeTriple :=
  mkTriple (head t) r (tail t) (confidence t) (source t) (relevance t) (clarity t).

Definition set_entity_type (ty : string) (e : KGEntity) : KGEntity :=
  mkEntity (entity_id e) ty (name e) (normalized_id e) (aliases e).
Definition set_normalized_id (i : string) (e : KGEntity) : KGEntity :=
  mkEntity (entity_id e) (entity_type e) (name e) i (aliases e).
Definition set_aliases (al : list string) (e : KGEntity) : KGEntity :=
  mkEntity (entity_id e) (entity_type e) (name e) (normalized_id e) al.

(** The dataclass defaults: [KnowledgeTriple(head, relation, tail)] and
    [KGEntity(entity_id)]. *)
Definition KnowledgeTriple_new (h r t : string) : KnowledgeTriple :=
  mkTriple h r t 0%float "unknown" 0%float 0%float.
Definition KGEntity_new (i : string) : KGEntity :=
  mkEntity i "Unknown" "" "N/A" [].

#[global] Instance KnowledgeTriple_inhabited : Inhabited KnowledgeTriple :=
  populate (KnowledgeTriple_new "" "" "").
#[global] Instance KGEntity_inhabited : Inhabited KGEntity :=
  populate (KGEntity_new "").

(** References to Python objects. *)
Abbreviation ref := positive.

(** ** Binary64 arithmetic on the unit interval

    The scores are binary64 numbers between 0 and 1.  This module reads
    the operations that [_aggregate_scores] uses off their specification
    ([SpecFloat], tied to the primitive floats by [FloatAxioms]): on
    non-negative arguments that stay small, a product or a sum is a
    representable number nearest to the exact result, hence monotone. *)
Module Binary64.
Import Reals Lra Lia.
#[local] Open Scope Z_scope.

(** *** Powers of two *)

Definition bpow (e : Z) : R := powerRZ 2 e.

Lemma bpow_pos e : (0 < bpow e)%R.
Proof. apply powerRZ_lt. lra. Qed.

Lemma bpow_add a b : bpow (a + b) = (bpow a * bpow b)%R.
Proof. apply powerRZ_add. lra. Qed.

Lemma bpow_succ a : bpow (a + 1) = (2 * bpow a)%R.
Proof. rewrite bpow_add. unfold bpow at 2. simpl. lra. Qed.

Lemma bpow_0 : bpow 0 = 1%R.
Proof. reflexivity. Qed.

Lemma bpow_le a b : a <= b -> (bpow a <= bpow b)%R.
Proof.
  intros Hab. replace b with (a + (b - a)) by lia.
  assert (Hn : 0 <= b - a) by lia. revert Hn. generalize (b - a).
  intros n Hn. pattern n. apply natlike_ind; [| |exact Hn].
  - rewrite Z.add_0_r. lra.
  - intros x Hx IH. replace (a + Z.succ x) with ((a + x) + 1) by lia.
    rewrite bpow_succ. pose proof (bpow_pos (a + x)). lra.
Qed.

Lemma bpow_lt a b : a < b -> (bpow a < bpow b)%R.
Proof.
  intros Hab. assert (H : (bpow (a + 1) <= bpow b)%R) by (apply bpow_le; lia).
  rewrite bpow_succ in H. pose proof (bpow_pos a). lra.
Qed.

Lemma bpow_lt_inv a b : (bpow a < bpow b)%R -> a < b.
Proof.
  intros H. destruct (Z_lt_le_dec a b) as [|Hle]; [assumption|].
  apply bpow_le in Hle. lra.
Qed.

Lemma bpow_IZR n : 0 <= n -> bpow n = IZR (2 ^ n).
Proof.
  intros Hn. pattern n. apply natlike_ind; [| |exact Hn].
  - reflexivity.
  - intros x Hx IH. rewrite Z.pow_succ_r by assumption.
    rewrite mult_IZR, <- IH. unfold Z.succ. rewrite bpow_succ. reflexivity.
Qed.

(** The number [m * 2^e]. *)
Definition F2R (m e : Z) : R := (IZR m * bpow e)%R.

Lemma F2R_shift m e k : 0 <= k -> F2R (m * 2 ^ k) e = F2R m (e + k).
Proof.
  intros Hk. unfold F2R. rewrite mult_IZR, <- bpow_IZR by assumption.
  rewrite bpow_add. lra.
Qed.

Lemma F2R_le m1 m2 e : m1 <= m2 -> (F2R m1 e <= F2R m2 e)%R.
Proof.
  intros H. unfold F2R. apply Rmult_le_compat_r; [apply Rlt_le, bpow_pos|].
  now apply IZR_le.
Qed.

Lemma F2R_lt m1 m2 e : m1 < m2 -> (F2R m1 e < F2R m2 e)%R.
Proof.
  intros H. unfold F2R. apply Rmult_lt_compat_r; [apply bpow_pos|].
  now apply IZR_lt.
Qed.

Lemma F2R_lt_inv m1 m2 e : (F2R m1 e < F2R m2 e)%R -> m1 < m2.
Proof.
  intros H. destruct (Z_lt_le_dec m1 m2) as [|Hle]; [assumption|].
  apply (F2R_le _ _ e) in Hle. lra.
Qed.

(** *** Binary digits *)

Lemma digits2_bounds (p : positive) :
  2 ^ (Zpos (digits2_pos p) - 1) <= Zpos p < 2 ^ Zpos (digits2_pos p).
Proof.
  induction p as [p IH|p IH|]; cbn [digits2_pos].
  - rewrite Pos2Z.inj_succ. replace (Z.succ (Zpos (digits2_pos p)) - 1) with
      (Z.succ (Zpos (digits2_pos p) - 1)) by lia.
    rewrite !Z.pow_succ_r by lia. lia.
  - rewrite Pos2Z.inj_succ. replace (Z.succ (Zpos (digits2_pos p)) - 1) with
      (Z.succ (Zpos (digits2_pos p) - 1)) by lia.
    rewrite !Z.pow_succ_r by lia. lia.
  - cbn. lia.
Qed.

(** A positive mantissa with [d] digits at exponent [e] lies in
    [[2^(d+e-1), 2^(d+e))]. *)
Lemma bpow_F2R e k : 0 <= k -> bpow (e + k) = F2R (2 ^ k) e.
Proof.
  intros Hk. replace (2 ^ k) with (1 * 2 ^ k) by lia.
  rewrite F2R_shift by assumption. unfold F2R. lra.
Qed.

Lemma F2R_digits (p : positive) (e : Z) :
  (bpow (Zpos (digits2_pos p) + e - 1) <= F2R (Zpos p) e < bpow (Zpos (digits2_pos p) + e))%R.
Proof.
  pose proof (digits2_bounds p) as [Hlo Hhi].
  split.
  - replace (Zpos (digits2_pos p) + e - 1) with (e + (Zpos (digits2_pos p) - 1)) by lia.
    rewrite bpow_F2R by lia. apply F2R_le. apply Hlo.
  - replace (Zpos (digits2_pos p) + e) with (e + Zpos (digits2_pos p)) by lia.
    rewrite bpow_F2R by lia. apply F2R_lt. apply Hhi.
Qed.

(** *** The right shift with sticky bits, and rounding to nearest even *)

Lemma iter_pos_nat {A} (f : A -> A) (p : positive) (x : A) :
  SpecFloat.iter_pos f p x = Nat.iter (Pos.to_nat p) f x.
Proof.
  revert x. induction p as [p IH|p IH|]; intros x; cbn [SpecFloat.iter_pos].
  - rewrite !IH, Pos2Nat.inj_xI. cbn [Nat.mul]. rewrite Nat.add_0_r.
    rewrite Nat.iter_succ_r, Nat.iter_add. reflexivity.
  - rewrite !IH, Pos2Nat.inj_xO. cbn [Nat.mul]. rewrite Nat.add_0_r.
    rewrite Nat.iter_add. reflexivity.
  - reflexivity.
Qed.

Lemma shr_1_spec (m : Z) (r s : bool) :
  0 <= m ->
  shr_1 (Build_shr_record m r s) = Build_shr_record (m / 2) (Z.odd m) (r || s).
Proof.
  intros Hm. rewrite <- Z.div2_div.
  destruct m as [|[p|p|]|p]; try reflexivity. lia.
Qed.

Lemma odd_mod2 (a : Z) : a mod 2 = if Z.odd a then 1 else 0.
Proof. rewrite Zmod_odd. reflexivity. Qed.

Lemma shr_iter (m : Z) (n : nat) :
  0 <= m ->
  Nat.iter (S n) shr_1 (Build_shr_record m false false) =
  Build_shr_record (m / 2 ^ Z.of_nat (S n))
                   (Z.odd (m / 2 ^ Z.of_nat n))
                   (negb (m mod 2 ^ Z.of_nat n =? 0)).
Proof.
  intros Hm. induction n as [|n IH].
  - cbn [Nat.iter nat_rect]. rewrite shr_1_spec by assumption.
    cbn [Z.of_nat Pos.of_succ_nat]. rewrite Z.pow_0_r, Z.pow_1_r, Z.div_1_r, Z.mod_1_r.
    reflexivity.
  - cbn [Nat.iter nat_rect] in *. rewrite IH.
    assert (Hp : 0 < 2 ^ Z.of_nat n) by (apply Z.pow_pos_nonneg; lia).
    assert (Hp1 : 0 < 2 ^ Z.of_nat (S n)) by (apply Z.pow_pos_nonneg; lia).
    rewrite shr_1_spec by (apply Z.div_pos; lia).
    f_equal.
    + rewrite Z.div_div by lia. f_equal.
      rewrite (Nat2Z.inj_succ (S n)), Z.pow_succ_r by lia. lia.
    + assert (Hs : 2 ^ Z.of_nat (S n) = 2 ^ Z.of_nat n * 2)
        by (rewrite Nat2Z.inj_succ, Z.pow_succ_r by lia; lia).
      rewrite Hs, Z.rem_mul_r by lia.
      pose proof (Z.mod_pos_bound m (2 ^ Z.of_nat n) Hp) as Hb.
      rewrite odd_mod2.
      destruct (Z.odd (m / 2 ^ Z.of_nat n)); cbn [orb].
      * symmetry. apply negb_true_iff, Z.eqb_neq. lia.
      * rewrite Z.mul_0_r, Z.add_0_r. reflexivity.
Qed.

(** The mantissa a right shift by [k > 0] leaves, and the two bits that
    drive the rounding. *)
Lemma shr_pos (m : Z) (k : positive) (e : Z) :
  0 <= m ->
  shr (Build_shr_record m false false) e (Zpos k) =
  (Build_shr_record (m / 2 ^ Zpos k)
                    (Z.odd (m / 2 ^ (Zpos k - 1)))
                    (negb (m mod 2 ^ (Zpos k - 1) =? 0)),
   e + Zpos k).
Proof.
  intros Hm. cbn [shr]. rewrite iter_pos_nat.
  destruct (Pos2Nat.is_succ k) as [n Hn]. rewrite Hn, shr_iter by assumption.
  assert (Hk : Zpos k = Z.of_nat (S n)) by (rewrite <- Hn; symmetry; apply positive_nat_Z).
  rewrite Hk. replace (Z.of_nat (S n) - 1) with (Z.of_nat n) by lia. reflexivity.
Qed.

(** Rounding to nearest even moves the shifted mantissa by at most half
    a unit of the new last place. *)
Lemma round_nearest_even_half (m k : Z) :
  0 <= m -> 0 < k ->
  let q := m / 2 ^ k in
  let rb := Z.odd (m / 2 ^ (k - 1)) in
  let sb := negb (m mod 2 ^ (k - 1) =? 0) in
  let m1 := round_nearest_even q (loc_of_shr_record (Build_shr_record q rb sb)) in
  (m1 = q \/ m1 = q + 1) /\
  q * 2 ^ k <= m < (q + 1) * 2 ^ k /\
  - 2 ^ k <= 2 * (m1 * 2 ^ k - m) <= 2 ^ k.
Proof.
  intros Hm Hk q rb sb m1.
  set (half := 2 ^ (k - 1)).
  assert (Hhalf : 0 < half) by (apply Z.pow_pos_nonneg; lia).
  assert (Hpow : 2 ^ k = half * 2).
  { replace k with (Z.succ (k - 1)) at 1 by lia. rewrite Z.pow_succ_r by lia. subst half. lia. }
  pose proof (Z.div_mod m half ltac:(lia)) as Hdm.
  pose proof (Z.mod_pos_bound m half Hhalf) as Hb.
  set (a := m / half) in *. set (b := m mod half) in *.
  assert (Hq : q = a / 2).
  { subst q a. rewrite Hpow, Z.div_div by lia. reflexivity. }
  pose proof (Z.div_mod a 2 ltac:(lia)) as Ha. rewrite odd_mod2 in Ha.
  rewrite <- Hq in Ha.
  assert (Ha0 : 0 <= a) by (apply Z.div_pos; lia).
  subst m1 rb sb. fold half. fold a. fold b. rewrite Hpow.
  destruct (Z.odd a) eqn:Hodd; destruct (Z.eqb_spec b 0) as [Hb0|Hb0];
    cbn [negb loc_of_shr_record round_nearest_even].
  - destruct (Z.even q); nia.
  - nia.
  - nia.
  - nia.
Qed.

(** *** Representable numbers *)

Definition SF2R (x : spec_float) : R :=
  match x with
  | S754_finite s m e => F2R (cond_Zopp s (Zpos m)) e
  | _ => 0%R
  end.

Definition nonneg_finite (x : spec_float) : Prop :=
  match x with
  | S754_zero _ => True
  | S754_finite false _ _ => True
  | _ => False
  end.

(** Valid binary64 numbers that are finite and not negative. *)
Definition repr (x : spec_float) : Prop :=
  SpecFloat.valid_binary prec emax x = true /\ nonneg_finite x.

(** [r] is a finite non-negative number, and no representable number is
    closer to [v]. *)
Definition nearest (v : R) (r : spec_float) : Prop :=
  nonneg_finite r /\
  forall f, repr f -> (Rabs (SF2R r - v) <= Rabs (SF2R f - v))%R.

Lemma fexp_eq (d : Z) : fexp prec emax d = Z.max (d - 53) (-1074).
Proof. reflexivity. Qed.

Lemma SF2R_nonneg (x : spec_float) : nonneg_finite x -> (0 <= SF2R x)%R.
Proof.
  destruct x as [s|s| |[|] m e]; cbn; try tauto; try lra.
  intros _. unfold F2R. apply Rmult_le_pos; [apply IZR_le; lia|apply Rlt_le, bpow_pos].
Qed.

Lemma canonical_exponent (m : positive) (e : Z) :
  SpecFloat.valid_binary prec emax (S754_finite false m e) = true ->
  e = Z.max (Zpos (digits2_pos m) + e - 53) (-1074) /\ e <= 971.
Proof.
  cbn [SpecFloat.valid_binary]. unfold SpecFloat.bounded, SpecFloat.canonical_mantissa.
  rewrite fexp_eq. intros [H1 H2]%andb_prop.
  apply Z.eqb_eq in H1. apply Z.leb_le in H2. change (emax - prec) with 971 in H2.
  split; [symmetry; exact H1|exact H2].
Qed.

(** Between two neighbours on the grid of step [2^e1] that rounding
    uses around a number with [d] digits, there is no representable
    number. *)
Lemma repr_grid (f : spec_float) (q e1 d : Z) :
  repr f -> 0 <= q -> e1 = Z.max (d - 53) (-1074) ->
  (1 <= q -> (bpow (d - 1) <= F2R q e1)%R) ->
  (q = 0 -> e1 = -1074) ->
  (SF2R f <= F2R q e1 \/ F2R (q + 1) e1 <= SF2R f)%R.
Proof.
  intros [Hv Hnn] Hq He1 Hbig Hzero.
  destruct f as [s|s| |[|] mf ef]; cbn in Hnn; try tauto;
    try (left; cbn; change 0%R with (F2R 0 e1) at 1 || idtac;
         unfold F2R; apply Rmult_le_pos; [apply IZR_le; lia|apply Rlt_le, bpow_pos]).
  cbn [SF2R cond_Zopp].
  destruct (Rle_lt_dec (F2R (Zpos mf) ef) (F2R q e1)) as [Hle|Hlt]; [left; exact Hle|right].
  apply canonical_exponent in Hv as [Hef _].
  assert (Hee : e1 <= ef).
  { destruct (Z.eq_dec q 0) as [Hq0|Hq0]; [rewrite (Hzero Hq0); lia|].
    assert (Hd : d <= Zpos (digits2_pos mf) + ef).
    { pose proof (F2R_digits mf ef) as [_ Hhi].
      apply Z.lt_pred_le. unfold Z.pred.
      apply bpow_lt_inv. replace (d + -1) with (d - 1) by lia.
      specialize (Hbig ltac:(lia)). lra. }
    lia. }
  replace ef with (e1 + (ef - e1)) in Hlt |- * by lia.
  rewrite <- F2R_shift in Hlt |- * by lia.
  apply F2R_le. apply F2R_lt_inv in Hlt. lia.
Qed.

(** *** Rounding an exact result *)

Lemma F2R_minus a b e : F2R (a - b) e = (F2R a e - F2R b e)%R.
Proof. unfold F2R. rewrite minus_IZR. lra. Qed.

Lemma F2R_double a e : F2R (2 * a) e = (2 * F2R a e)%R.
Proof. unfold F2R. rewrite mult_IZR. lra. Qed.

Lemma F2R_opp a e : F2R (- a) e = (- F2R a e)%R.
Proof. unfold F2R. rewrite opp_IZR. lra. Qed.

(** No shift is needed: the mantissa is kept as it is. *)
Lemma shr_fexp_exact (m e : Z) :
  Z.max (Zdigits2 m + e - 53) (-1074) <= e ->
  shr_fexp prec emax m e loc_Exact = (Build_shr_record m false false, e).
Proof.
  intros H. unfold shr_fexp. rewrite fexp_eq. cbn [shr_record_of_loc].
  destruct (Z.max (Zdigits2 m + e - 53) (-1074) - e) eqn:Hn; [reflexivity|lia|reflexivity].
Qed.

(** The second normalisation of [binary_round_aux]: the rounded
    mantissa fits, or is exactly [2^53] and is halved. *)
Lemma round_aux_second (m1 e1 : Z) :
  0 <= m1 <= 9007199254740992 -> -1074 <= e1 <= 970 ->
  exists r,
    (let '(mrs, e2) := shr_fexp prec emax m1 e1 loc_Exact in
     match shr_m mrs with
     | Z0 => S754_zero false
     | Zpos m => if e2 <=? emax - prec then S754_finite false m e2 else S754_infinity false
     | Zneg _ => S754_nan
     end) = r /\
    nonneg_finite r /\ SF2R r = F2R m1 e1.
Proof.
  intros Hm He.
  destruct (Z.eq_dec m1 9007199254740992) as [->|Hne].
  - exists (S754_finite false 4503599627370496 (e1 + 1)).
    unfold shr_fexp. rewrite fexp_eq. change (Zdigits2 9007199254740992) with 54.
    cbn [shr_record_of_loc].
    replace (Z.max (54 + e1 - 53) (-1074) - e1) with 1 by lia.
    cbn [shr SpecFloat.iter_pos shr_1 shr_m orb].
    change (emax - prec) with 971.
    rewrite Zle_imp_le_bool by lia. split; [reflexivity|]. split; [exact I|].
    cbn [SF2R cond_Zopp]. rewrite <- (F2R_shift _ e1 1) by lia. reflexivity.
  - destruct m1 as [|pm|pm]; [| |lia].
    + exists (S754_zero false). rewrite shr_fexp_exact by (cbn [Zdigits2]; lia).
      cbn. split; [reflexivity|]. split; [exact I|]. unfold F2R. lra.
    + exists (S754_finite false pm e1).
      assert (Hd : Zpos (digits2_pos pm) <= 53).
      { pose proof (digits2_bounds pm) as [Hlo _].
        apply Z.lt_succ_r. apply (Z.pow_lt_mono_r_iff 2); [lia|lia|].
        change (2 ^ Z.succ 53) with 18014398509481984.
        replace (Zpos (digits2_pos pm)) with (Z.succ (Zpos (digits2_pos pm) - 1)) by lia.
        rewrite Z.pow_succ_r by lia. lia. }
      rewrite shr_fexp_exact by (cbn [Zdigits2]; lia).
      cbn [shr_m]. change (emax - prec) with 971.
      rewrite Zle_imp_le_bool by lia. split; [reflexivity|]. split; [exact I|].
      reflexivity.
Qed.

Lemma Rabs_nearest (v lo hi r f : R) :
  (lo <= v <= hi)%R -> (r = lo \/ r = hi)%R ->
  (- (hi - lo) <= 2 * (r - v) <= hi - lo)%R ->
  (f <= lo \/ hi <= f)%R ->
  (Rabs (r - v) <= Rabs (f - v))%R.
Proof.
  intros Hv Hr Hhalf Hf. unfold Rabs.
  destruct (Rcase_abs (r - v)), (Rcase_abs (f - v)); destruct Hr, Hf; lra.
Qed.

(** [binary_round_aux] on an exact positive number that is at most 4:
    the result is finite and nearest. *)
Lemma binary_round_aux_nearest (p : positive) (e : Z) :
  (F2R (Zpos p) e <= 4)%R ->
  nearest (F2R (Zpos p) e) (binary_round_aux prec emax false (Zpos p) e loc_Exact).
Proof.
  intros Hsmall.
  set (dp := Zpos (digits2_pos p)).
  set (d := dp + e).
  pose proof (digits2_bounds p) as [Hplo Hphi]. fold dp in Hplo, Hphi.
  pose proof (F2R_digits p e) as [Hvlo Hvhi]. fold dp in Hvlo, Hvhi. fold d in Hvhi.
  assert (Hd3 : d <= 3).
  { destruct (Z_le_gt_dec d 3) as [|Hgt]; [assumption|].
    assert (H8 : (bpow 3 <= bpow (dp + e - 1))%R) by (apply bpow_le; subst d; lia).
    replace (bpow 3) with 8%R in H8 by (unfold bpow; simpl; lra). lra. }
  set (e1 := Z.max (d - 53) (-1074)).
  unfold binary_round_aux.
  destruct (Z_le_gt_dec e1 e) as [Hnoshift|Hshift].
  - (* the number is representable as it stands *)
    rewrite shr_fexp_exact by (cbn [Zdigits2]; subst e1 d dp; lia).
    cbn [shr_m loc_of_shr_record round_nearest_even].
    rewrite shr_fexp_exact by (cbn [Zdigits2]; subst e1 d dp; lia).
    cbn [shr_m]. change (emax - prec) with 971.
    assert (He : e <= 971).
    { assert (Hb : (bpow e <= F2R (Zpos p) e)%R).
      { replace (bpow e) with (F2R 1 e) by (unfold F2R; lra). apply F2R_le. lia. }
      destruct (Z_le_gt_dec e 971) as [|Hgt]; [assumption|].
      assert (bpow 3 <= bpow e)%R by (apply bpow_le; lia).
      replace (bpow 3) with 8%R in * by (unfold bpow; simpl; lra). lra. }
    rewrite Zle_imp_le_bool by assumption.
    split; [exact I|]. intros f _. cbn [SF2R cond_Zopp].
    rewrite Rminus_diag, Rabs_R0. apply Rabs_pos.
  - (* [k] low bits are shifted out and rounded *)
    set (k := e1 - e). assert (Hk : 0 < k) by (subst k; lia).
    unfold shr_fexp at 1. rewrite fexp_eq. cbn [Zdigits2 shr_record_of_loc].
    fold dp. fold d. fold e1. fold k.
    destruct k as [|kp|kp] eqn:Hkp; [lia| |lia]. rewrite <- Hkp in *.
    assert (Hkeq : k = Zpos kp) by (subst k; assumption).
    rewrite Hkeq at 1. rewrite shr_pos by lia. rewrite <- Hkeq.
    cbn [shr_m].
    pose proof (round_nearest_even_half (Zpos p) k ltac:(lia) Hk) as Hrne.
    cbv zeta in Hrne.
    set (q := Zpos p / 2 ^ k) in *.
    set (m1 := round_nearest_even q _) in *.
    destruct Hrne as (Hm1 & Hq & Hhalf).
    assert (H2k : 0 < 2 ^ k) by (apply Z.pow_pos_nonneg; lia).
    assert (Hq0 : 0 <= q) by (subst q; apply Z.div_pos; lia).
    assert (He1 : e + k = e1) by (subst k; lia).
    (* the quotient has at most 53 digits *)
    assert (Hq53 : q < 9007199254740992).
    { apply F2R_lt_inv with (e := e1).
      assert (Hlo : (F2R q e1 <= F2R (Zpos p) e)%R).
      { rewrite <- He1, <- F2R_shift by lia. apply F2R_le. lia. }
      destruct (Z_le_gt_dec e1 d) as [Hde|Hde].
      - assert (Hb : (bpow d <= F2R 9007199254740992 e1)%R).
        { change 9007199254740992 with (2 ^ 53). rewrite <- bpow_F2R by lia.
          apply bpow_le. subst e1. lia. }
        lra.
      - assert (Hb : (bpow d < bpow e1)%R) by (apply bpow_lt; lia).
        assert (Hc : (bpow e1 <= F2R 9007199254740992 e1)%R).
        { replace (bpow e1) with (F2R 1 e1) by (unfold F2R; lra). apply F2R_le. lia. }
        lra. }
    destruct (round_aux_second m1 (e + k)) as (r & -> & Hrnn & Hrv); [lia|subst e1; lia|].
    split; [exact Hrnn|]. intros f Hf. rewrite Hrv, He1.
    apply (Rabs_nearest _ (F2R q e1) (F2R (q + 1) e1)).
    + rewrite <- He1, <- !F2R_shift by lia. split; apply F2R_le; lia.
    + destruct Hm1 as [->| ->]; [left|right]; reflexivity.
    + replace (F2R (q + 1) e1 - F2R q e1)%R with (F2R (2 ^ k) e).
      2:{ rewrite <- F2R_minus. replace (q + 1 - q) with 1 by lia.
          rewrite <- He1. rewrite <- bpow_F2R by lia. unfold F2R. lra. }
      rewrite <- He1, <- F2R_shift by lia.
      rewrite <- F2R_minus, <- F2R_double, <- F2R_opp. split; apply F2R_le; lia.
    + apply (repr_grid f q e1 d Hf Hq0 eq_refl).
      * intros Hq1.
        assert (Hkd : k <= dp - 1).
        { apply Z.lt_succ_r. apply (Z.pow_lt_mono_r_iff 2); [lia|lia|].
          replace (Z.succ (dp - 1)) with dp by lia. nia. }
        replace (d - 1) with (e1 + (dp - 1 - k)) by (subst d; lia).
        rewrite bpow_F2R by lia. apply F2R_le. subst q.
        apply Z.div_le_lower_bound; [lia|].
        rewrite <- Z.pow_add_r by lia. replace (k + (dp - 1 - k)) with (dp - 1) by lia.
        exact Hplo.
      * intros Hqz.
        assert (Hpk : Zpos p < 2 ^ k) by nia.
        assert (Hdk : dp - 1 < k).
        { apply (Z.pow_lt_mono_r_iff 2); [lia|lia|]. lia. }
        subst e1 d. lia.
Qed.

(** *** Order *)

Lemma F2R_pos (p : positive) (e : Z) : (0 < F2R (Zpos p) e)%R.
Proof.
  unfold F2R. apply Rmult_lt_0_compat; [apply IZR_lt; lia|apply bpow_pos].
Qed.

(** Among valid numbers, the one with the smaller exponent is the
    smaller number. *)
Lemma canonical_lt (m1 m2 : positive) (e1 e2 : Z) :
  SpecFloat.valid_binary prec emax (S754_finite false m1 e1) = true ->
  SpecFloat.valid_binary prec emax (S754_finite false m2 e2) = true ->
  e1 < e2 -> (F2R (Zpos m1) e1 < F2R (Zpos m2) e2)%R.
Proof.
  intros [H1 _]%canonical_exponent [H2 _]%canonical_exponent Hlt.
  pose proof (F2R_digits m1 e1) as [_ Hhi].
  pose proof (F2R_digits m2 e2) as [Hlo _].
  assert (Hb : (bpow (Zpos (digits2_pos m1) + e1) <= bpow (Zpos (digits2_pos m2) + e2 - 1))%R)
    by (apply bpow_le; lia).
  lra.
Qed.

Lemma SFleb_repr (x y : spec_float) :
  repr x -> repr y -> (SFleb x y = true <-> (SF2R x <= SF2R y)%R).
Proof.
  intros [Hvx Hx] [Hvy Hy].
  destruct x as [sx|sx| |[|] mx ex]; cbn in Hx; try tauto;
    destruct y as [sy|sy| |[|] my ey]; cbn in Hy; try tauto;
    unfold SFleb; cbn [SFcompare SF2R cond_Zopp].
  - split; [lra|reflexivity].
  - pose proof (F2R_pos my ey). split; [lra|reflexivity].
  - pose proof (F2R_pos mx ex). split; [discriminate|lra].
  - destruct (Z.compare_spec ex ey) as [Heq|Hlt|Hgt].
    + subst ey. rewrite Pos.compare_cont_spec. cbn [Pos.switch_Eq].
      destruct (Pos.compare_spec mx my) as [Hm|Hm|Hm].
      * subst. split; [lra|reflexivity].
      * split; [|reflexivity]. intros _. apply F2R_le. lia.
      * split; [discriminate|]. intros Hle. exfalso.
        assert (Hlt : (F2R (Zpos my) ex < F2R (Zpos mx) ex)%R) by (apply F2R_lt; lia).
        lra.
    + pose proof (canonical_lt mx my ex ey Hvx Hvy Hlt). split; [lra|reflexivity].
    + pose proof (canonical_lt my mx ey ex Hvy Hvx ltac:(lia)). split; [discriminate|lra].
Qed.

(** Representable numbers with the same value are the same number, or
    are two zeros. *)
Lemma repr_value_inj (x y : spec_float) :
  repr x -> repr y -> SF2R x = SF2R y ->
  x = y \/ (exists sx sy, x = S754_zero sx /\ y = S754_zero sy).
Proof.
  intros [Hvx Hx] [Hvy Hy] Heq.
  destruct x as [sx|sx| |[|] mx ex]; cbn in Hx; try tauto;
    destruct y as [sy|sy| |[|] my ey]; cbn in Hy; try tauto;
    cbn [SF2R cond_Zopp] in Heq.
  - right. eauto.
  - pose proof (F2R_pos my ey). lra.
  - pose proof (F2R_pos mx ex). lra.
  - left. destruct (Z.lt_total ex ey) as [Hlt|[Hee|Hgt]].
    + pose proof (canonical_lt mx my ex ey Hvx Hvy Hlt). lra.
    + subst ey. f_equal.
      destruct (Pos.lt_total mx my) as [Hm|[Hm|Hm]]; [|assumption|].
      * assert ((F2R (Zpos mx) ex < F2R (Zpos my) ex)%R) by (apply F2R_lt; lia). lra.
      * assert ((F2R (Zpos my) ex < F2R (Zpos mx) ex)%R) by (apply F2R_lt; lia). lra.
    + pose proof (canonical_lt my mx ey ex Hvy Hvx Hgt). lra.
Qed.

(** Rounding to nearest is monotone. *)
Lemma nearest_mono (v v' : R) (r r' : spec_float) :
  (v < v')%R -> repr r -> repr r' -> nearest v r -> nearest v' r' ->
  (SF2R r <= SF2R r')%R.
Proof.
  intros Hlt Hr Hr' [_ Hn] [_ Hn'].
  specialize (Hn r' Hr'). specialize (Hn' r Hr). revert Hn Hn'. unfold Rabs.
  destruct (Rcase_abs (SF2R r - v)), (Rcase_abs (SF2R r' - v)),
    (Rcase_abs (SF2R r' - v')), (Rcase_abs (SF2R r - v')); lra.
Qed.

(** The rounded result does not pass a representable number that the
    exact result does not pass. *)
Lemma nearest_le (v : R) (r f : spec_float) :
  nearest v r -> repr f -> (v <= SF2R f)%R -> (SF2R r <= SF2R f)%R.
Proof.
  intros [_ Hn] Hf Hle. specialize (Hn f Hf). revert Hn. unfold Rabs.
  destruct (Rcase_abs (SF2R r - v)), (Rcase_abs (SF2R f - v)); lra.
Qed.

Lemma nearest_exact (v : R) (r f : spec_float) :
  nearest v r -> repr f -> SF2R f = v -> SF2R r = v.
Proof.
  intros [_ Hn] Hf Heq. specialize (Hn f Hf). revert Hn. unfold Rabs.
  destruct (Rcase_abs (SF2R r - v)), (Rcase_abs (SF2R f - v)); lra.
Qed.

(** *** Products and sums of non-negative numbers *)

Lemma nearest_refl (r : spec_float) : nonneg_finite r -> nearest (SF2R r) r.
Proof.
  intros Hr. split; [exact Hr|]. intros f _.
  rewrite Rminus_diag, Rabs_R0. apply Rabs_pos.
Qed.

Lemma pos_iter_xO (m d : positive) : Zpos (Pos.iter xO m d) = Zpos m * 2 ^ Zpos d.
Proof.
  apply (Pos.iter_ind _ xO m (fun p a => Zpos a = Zpos m * 2 ^ Zpos p)).
  - rewrite Z.pow_1_r. lia.
  - intros p a IH. rewrite Pos2Z.inj_succ, Z.pow_succ_r by lia.
    rewrite Pos2Z.inj_xO, IH. lia.
Qed.

(** [shl_align] rewrites a number at a smaller exponent. *)
Lemma shl_align_value (m : positive) (e e' : Z) :
  F2R (Zpos (fst (shl_align m e e'))) (snd (shl_align m e e')) = F2R (Zpos m) e.
Proof.
  unfold shl_align. destruct (e' - e) as [|d|d] eqn:Hd; cbn [fst snd]; try reflexivity.
  rewrite pos_iter_xO, F2R_shift by lia. f_equal. lia.
Qed.

Lemma shl_align_fst (m : positive) (e ez : Z) :
  ez <= e -> Zpos (fst (shl_align m e ez)) = Zpos m * 2 ^ (e - ez).
Proof.
  intros Hle. unfold shl_align. destruct (ez - e) as [|d|d] eqn:Hd; cbn [fst]; [|lia|].
  - replace (e - ez) with 0 by lia. lia.
  - rewrite pos_iter_xO. f_equal. f_equal. lia.
Qed.

Lemma nearest_value (r : spec_float) (v : R) :
  nonneg_finite r -> SF2R r = v -> nearest v r.
Proof. intros Hr <-. now apply nearest_refl. Qed.

Lemma SFmul_nearest (x y : spec_float) :
  nonneg_finite x -> nonneg_finite y -> (SF2R x * SF2R y <= 4)%R ->
  nearest (SF2R x * SF2R y) (SFmul prec emax x y).
Proof.
  intros Hx Hy Hsmall.
  destruct x as [sx|sx| |[|] mx ex]; cbn in Hx; try tauto;
    destruct y as [sy|sy| |[|] my ey]; cbn in Hy; try tauto;
    cbn [SFmul SF2R cond_Zopp] in *.
  - apply nearest_value; [exact I|cbn; lra].
  - apply nearest_value; [exact I|cbn; lra].
  - apply nearest_value; [exact I|cbn; lra].
  - assert (Hv : (F2R (Zpos mx) ex * F2R (Zpos my) ey)%R = F2R (Zpos (mx * my)) (ex + ey)).
    { unfold F2R. rewrite Pos2Z.inj_mul, mult_IZR, bpow_add. lra. }
    rewrite Hv in *. cbn [xorb]. now apply binary_round_aux_nearest.
Qed.

Lemma SFadd_nearest (x y : spec_float) :
  nonneg_finite x -> nonneg_finite y -> (SF2R x + SF2R y <= 4)%R ->
  nearest (SF2R x + SF2R y) (SFadd prec emax x y).
Proof.
  intros Hx Hy Hsmall.
  destruct x as [sx|sx| |[|] mx ex]; cbn in Hx; try tauto;
    destruct y as [sy|sy| |[|] my ey]; cbn in Hy; try tauto;
    cbn [SFadd SF2R cond_Zopp] in *.
  - apply nearest_value; [destruct sx, sy; exact I|destruct sx, sy; cbn; lra].
  - apply nearest_value; [exact I|cbn; lra].
  - apply nearest_value; [exact I|cbn; lra].
  - set (ez := Z.min ex ey).
    rewrite (shl_align_fst mx ex ez), (shl_align_fst my ey ez) by (subst ez; lia).
    assert (Hpx : 0 < 2 ^ (ex - ez)) by (apply Z.pow_pos_nonneg; subst ez; lia).
    assert (Hpy : 0 < 2 ^ (ey - ez)) by (apply Z.pow_pos_nonneg; subst ez; lia).
    destruct (Zpos mx * 2 ^ (ex - ez) + Zpos my * 2 ^ (ey - ez)) as [|ms|ms] eqn:Hs;
      [lia| |lia].
    cbn [binary_normalize]. unfold binary_round.
    destruct (shl_align ms ez _) as [mz ez'] eqn:Hal.
    assert (Hv : (F2R (Zpos mx) ex + F2R (Zpos my) ey)%R = F2R (Zpos mz) ez').
    { pose proof (shl_align_value ms ez
                    (fexp prec emax (Zpos (digits2_pos ms) + ez))) as Hsv.
      rewrite Hal in Hsv. cbn [fst snd] in Hsv. rewrite Hsv, <- Hs.
      unfold F2R. rewrite plus_IZR.
      replace ex with (ez + (ex - ez)) at 1 by lia.
      replace ey with (ez + (ey - ez)) at 1 by lia.
      rewrite !bpow_add, !mult_IZR.
      rewrite (bpow_IZR (ex - ez)), (bpow_IZR (ey - ez)) by (subst ez; lia). ring. }
    rewrite Hv in *. now apply binary_round_aux_nearest.
Qed.

(** *** The primitive floats *)

Definition fval (x : float) : R := SF2R (Prim2SF x).

(** A float that is finite and not negative ([-0.0] included). *)
Definition fnonneg (x : float) : Prop := nonneg_finite (Prim2SF x).

Lemma fnonneg_repr (x : float) : fnonneg x -> repr (Prim2SF x).
Proof. intros Hx. split; [apply Prim2SF_valid|exact Hx]. Qed.

Lemma fval_nonneg (x : float) : fnonneg x -> (0 <= fval x)%R.
Proof. apply SF2R_nonneg. Qed.

Lemma fmul_nearest (x y : float) :
  fnonneg x -> fnonneg y -> (fval x * fval y <= 4)%R ->
  nearest (fval x * fval y) (Prim2SF (x * y)).
Proof. intros Hx Hy Hs. rewrite mul_spec. now apply SFmul_nearest. Qed.

Lemma fadd_nearest (x y : float) :
  fnonneg x -> fnonneg y -> (fval x + fval y <= 4)%R ->
  nearest (fval x + fval y) (Prim2SF (x + y)).
Proof. intros Hx Hy Hs. rewrite add_spec. now apply SFadd_nearest. Qed.

Lemma fleb_le (x y : float) :
  fnonneg x -> fnonneg y -> ((x <=? y)%float = true <-> (fval x <= fval y)%R).
Proof.
  intros Hx Hy. rewrite leb_spec. apply SFleb_repr; now apply fnonneg_repr.
Qed.

(** Floats of equal value are equal, or are the two zeros. *)
Lemma fval_inj (x y : float) :
  fnonneg x -> fnonneg y -> fval x = fval y ->
  x = y \/ (exists sx sy, Prim2SF x = S754_zero sx /\ Prim2SF y = S754_zero sy).
Proof.
  intros Hx Hy Heq.
  destruct (repr_value_inj _ _ (fnonneg_repr x Hx) (fnonneg_repr y Hy) Heq) as [H|H].
  - left. now apply Prim2SF_inj.
  - right. exact H.
Qed.

(** The value of a product or of a sum depends on the values of the
    operands only. *)
Lemma fmul_value (k x x' : float) :
  fnonneg k -> fnonneg x -> fnonneg x' -> fval x = fval x' ->
  fval (k * x) = fval (k * x').
Proof.
  intros Hk Hx Hx' Heq.
  destruct (fval_inj x x' Hx Hx' Heq) as [->|(sx & sx' & H1 & H2)]; [reflexivity|].
  unfold fval. rewrite !mul_spec, H1, H2.
  unfold fnonneg in Hk. destruct (Prim2SF k) as [s|s| |[|] m e]; cbn in Hk; try tauto;
    reflexivity.
Qed.

Lemma fadd_value (x x' y y' : float) :
  fnonneg x -> fnonneg x' -> fnonneg y -> fnonneg y' ->
  fval x = fval x' -> fval y = fval y' ->
  fval (x + y) = fval (x' + y').
Proof.
  intros Hx Hx' Hy Hy' Hex Hey.
  destruct (fval_inj x x' Hx Hx' Hex) as [->|(sx & sx' & H1 & H2)];
    destruct (fval_inj y y' Hy Hy' Hey) as [->|(sy & sy' & H3 & H4)]; try reflexivity;
    unfold fval; rewrite !add_spec, ?H1, ?H2, ?H3, ?H4.
  - unfold fnonneg in Hx'.
    destruct (Prim2SF x') as [s|s| |[|] m e]; cbn in Hx'; try tauto;
      destruct sy, sy'; try destruct s; reflexivity.
  - unfold fnonneg in Hy'.
    destruct (Prim2SF y') as [s|s| |[|] m e]; cbn in Hy'; try tauto;
      destruct sx, sx'; try destruct s; reflexivity.
  - destruct sx, sx', sy, sy'; reflexivity.
Qed.

(** Multiplication by a non-negative float, and addition, are monotone
    as long as the exact results stay below 4. *)
Lemma fmul_mono (k x x' : float) :
  fnonneg k -> fnonneg x -> fnonneg x' ->
  (fval k * fval x' <= 4)%R -> (fval x <= fval x')%R ->
  (fval (k * x) <= fval (k * x'))%R.
Proof.
  intros Hk Hx Hx' Hs Hle.
  pose proof (fval_nonneg k Hk) as Hk0.
  assert (Hp : (fval k * fval x <= fval k * fval x')%R) by (apply Rmult_le_compat_l; assumption).
  pose proof (fmul_nearest k x Hk Hx ltac:(lra)) as Hn.
  pose proof (fmul_nearest k x' Hk Hx' Hs) as Hn'.
  assert (Hr : repr (Prim2SF (k * x))) by (split; [apply Prim2SF_valid|apply Hn]).
  assert (Hr' : repr (Prim2SF (k * x'))) by (split; [apply Prim2SF_valid|apply Hn']).
  destruct (Rle_lt_or_eq_dec _ _ Hp) as [Hlt|Heq].
  - exact (nearest_mono _ _ _ _ Hlt Hr Hr' Hn Hn').
  - destruct (Req_dec (fval x) (fval x')) as [Hxx|Hxx].
    + rewrite (fmul_value k x x' Hk Hx Hx' Hxx). lra.
    + assert (Hkz : fval k = 0%R).
      { destruct (Req_dec (fval k) 0) as [|Hnz]; [assumption|].
        exfalso. apply Hxx. apply (Rmult_eq_reg_l (fval k)); assumption. }
      assert (H1 : fval (k * x) = (fval k * fval x)%R).
      { apply (nearest_exact _ _ (Prim2SF k) Hn (fnonneg_repr k Hk)).
        fold (fval k). rewrite Hkz. lra. }
      assert (H2 : fval (k * x') = (fval k * fval x')%R).
      { apply (nearest_exact _ _ (Prim2SF k) Hn' (fnonneg_repr k Hk)).
        fold (fval k). rewrite Hkz. lra. }
      lra.
Qed.

Lemma fadd_mono (x x' y y' : float) :
  fnonneg x -> fnonneg x' -> fnonneg y -> fnonneg y' ->
  (fval x' + fval y' <= 4)%R -> (fval x <= fval x')%R -> (fval y <= fval y')%R ->
  (fval (x + y) <= fval (x' + y'))%R.
Proof.
  intros Hx Hx' Hy Hy' Hs Hlx Hly.
  pose proof (fadd_nearest x y Hx Hy ltac:(lra)) as Hn.
  pose proof (fadd_nearest x' y' Hx' Hy' Hs) as Hn'.
  assert (Hr : repr (Prim2SF (x + y))) by (split; [apply Prim2SF_valid|apply Hn]).
  assert (Hr' : repr (Prim2SF (x' + y'))) by (split; [apply Prim2SF_valid|apply Hn']).
  destruct (Rle_lt_dec (fval x' + fval y') (fval x + fval y)) as [Hge|Hlt].
  - assert (Hex : fval x = fval x') by lra. assert (Hey : fval y = fval y') by lra.
    rewrite (fadd_value x x' y y' Hx Hx' Hy Hy' Hex Hey). lra.
  - exact (nearest_mono _ _ _ _ Hlt Hr Hr' Hn Hn').
Qed.

(** The constants of the weighted score, and the unit interval. *)
Lemma fval_0 : fval 0 = 0%R.
Proof. reflexivity. Qed.

Lemma fval_1 : fval 1 = 1%R.
Proof.
  change (fval 1) with (F2R (1 * 2 ^ 52) (-52)).
  rewrite F2R_shift by lia. unfold F2R, bpow. simpl. lra.
Qed.

Lemma fval_half : fval 0.5 = (/ 2)%R.
Proof.
  change (fval 0.5) with (F2R (1 * 2 ^ 52) (-53)).
  rewrite F2R_shift by lia. unfold F2R, bpow. simpl. lra.
Qed.

Lemma fval_quarter : fval 0.25 = (/ 4)%R.
Proof.
  change (fval 0.25) with (F2R (1 * 2 ^ 52) (-54)).
  rewrite F2R_shift by lia. unfold F2R, bpow. simpl. lra.
Qed.

Lemma fval_three_quarters : fval 0.75 = (3 / 4)%R.
Proof.
  change (fval 0.75) with (F2R (3 * 2 ^ 51) (-53)).
  rewrite F2R_shift by lia. unfold F2R, bpow. simpl. lra.
Qed.

(** [0 <= x <= 1], as the float comparisons decide it. *)
Definition unit_interval (x : float) : bool := ((0 <=? x) && (x <=? 1))%float.

Lemma unit_interval_spec (x : float) :
  unit_interval x = true <-> fnonneg x /\ (fval x <= 1)%R.
Proof.
  unfold unit_interval. rewrite andb_true_iff. split.
  - intros [H0 H1]. rewrite leb_spec in H0, H1.
    assert (Hx : fnonneg x).
    { unfold fnonneg. change (Prim2SF 0) with (S754_zero false) in H0.
      change (Prim2SF 1) with (S754_finite false 4503599627370496 (-52)) in H1.
      destruct (Prim2SF x) as [s|[|]| |[|] m e].
      - exact I.
      - discriminate H0.
      - discriminate H1.
      - discriminate H0.
      - discriminate H0.
      - exact I. }
    split; [exact Hx|]. rewrite <- fval_1. apply fleb_le; [exact Hx|exact I|].
    now rewrite leb_spec.
  - intros [Hx H1]. split.
    + apply fleb_le; [exact I|exact Hx|]. rewrite fval_0. now apply fval_nonneg.
    + apply fleb_le; [exact Hx|exact I|]. now rewrite fval_1.
Qed.

(** *** The weighted sum [0.5*c + 0.25*cl + 0.25*r] on the unit interval *)

Lemma fnonneg_half : fnonneg 0.5.
Proof. exact I. Qed.

Lemma fnonneg_quarter : fnonneg 0.25.
Proof. exact I. Qed.

(** A weight [k] times a score: the product is a score below [k]. *)
Lemma weight_bound (k x : float) :
  fnonneg k -> (fval k <= 1)%R -> fnonneg x -> (fval x <= 1)%R ->
  fnonneg (k * x) /\ (fval (k * x) <= fval k)%R.
Proof.
  intros Hk Hk1 Hx Hx1.
  pose proof (fval_nonneg k Hk) as Hk0. pose proof (fval_nonneg x Hx) as Hx0.
  assert (Hp : (fval k * fval x <= fval k)%R).
  { rewrite <- (Rmult_1_r (fval k)) at 2. apply Rmult_le_compat_l; assumption. }
  pose proof (fmul_nearest k x Hk Hx ltac:(lra)) as Hn.
  split; [apply Hn|].
  exact (nearest_le _ _ _ Hn (fnonneg_repr k Hk) Hp).
Qed.

(** A sum of two small numbers stays below a representable bound of
    the exact sum. *)
Lemma sum_bound (x y b : float) :
  fnonneg x -> fnonneg y -> fnonneg b -> (fval x + fval y <= fval b)%R -> (fval b <= 4)%R ->
  fnonneg (x + y) /\ (fval (x + y) <= fval b)%R.
Proof.
  intros Hx Hy Hb Hs Hb4.
  pose proof (fadd_nearest x y Hx Hy ltac:(lra)) as Hn.
  split; [apply Hn|].
  exact (nearest_le _ _ _ Hn (fnonneg_repr b Hb) Hs).
Qed.

Lemma weighted_sum_unit_mono (c cl r c' cl' r' : float) :
  unit_interval c = true -> unit_interval cl = true -> unit_interval r = true ->
  unit_interval c' = true -> unit_interval cl' = true -> unit_interval r' = true ->
  (c <=? c')%float = true -> (cl <=? cl')%float = true -> (r <=? r')%float = true ->
  unit_interval (0.5 * c + 0.25 * cl + 0.25 * r)%float = true /\
  (0.5 * c + 0.25 * cl + 0.25 * r <=? 0.5 * c' + 0.25 * cl' + 0.25 * r')%float = true.
Proof.
  intros [Hc Hc1]%unit_interval_spec [Hcl Hcl1]%unit_interval_spec
         [Hr Hr1]%unit_interval_spec [Hc' Hc1']%unit_interval_spec
         [Hcl' Hcl1']%unit_interval_spec [Hr' Hr1']%unit_interval_spec Hlc Hlcl Hlr.
  apply fleb_le in Hlc; [|assumption..]. apply fleb_le in Hlcl; [|assumption..].
  apply fleb_le in Hlr; [|assumption..].
  pose proof fval_half as Hh. pose proof fval_quarter as Hq.
  pose proof fval_three_quarters as Htq. pose proof fval_1 as H1.
  (* the three weighted terms *)
  destruct (weight_bound 0.5 c fnonneg_half ltac:(lra) Hc Hc1) as [Ha Ha1].
  destruct (weight_bound 0.25 cl fnonneg_quarter ltac:(lra) Hcl Hcl1) as [Hb Hb1].
  destruct (weight_bound 0.25 r fnonneg_quarter ltac:(lra) Hr Hr1) as [Hg Hg1].
  destruct (weight_bound 0.5 c' fnonneg_half ltac:(lra) Hc' Hc1') as [Ha' Ha1'].
  destruct (weight_bound 0.25 cl' fnonneg_quarter ltac:(lra) Hcl' Hcl1') as [Hb' Hb1'].
  destruct (weight_bound 0.25 r' fnonneg_quarter ltac:(lra) Hr' Hr1') as [Hg' Hg1'].
  pose proof (fmul_mono 0.5 c c' fnonneg_half Hc Hc' ltac:(rewrite Hh; lra) Hlc) as Hma.
  pose proof (fmul_mono 0.25 cl cl' fnonneg_quarter Hcl Hcl' ltac:(rewrite Hq; lra) Hlcl)
    as Hmb.
  pose proof (fmul_mono 0.25 r r' fnonneg_quarter Hr Hr' ltac:(rewrite Hq; lra) Hlr) as Hmg.
  (* the first sum is below 0.75, the second below 1 *)
  destruct (sum_bound (0.5 * c) (0.25 * cl) 0.75 Ha Hb I ltac:(lra) ltac:(lra)) as [Hab Hab1].
  destruct (sum_bound (0.5 * c') (0.25 * cl') 0.75 Ha' Hb' I ltac:(lra) ltac:(lra))
    as [Hab' Hab1'].
  destruct (sum_bound (0.5 * c + 0.25 * cl) (0.25 * r) 1 Hab Hg I ltac:(lra) ltac:(lra))
    as [Hs Hs1].
  destruct (sum_bound (0.5 * c' + 0.25 * cl') (0.25 * r') 1 Hab' Hg' I ltac:(lra) ltac:(lra))
    as [Hs' Hs1'].
  pose proof (fadd_mono _ _ _ _ Ha Ha' Hb Hb' ltac:(lra) Hma Hmb) as Hmab.
  pose proof (fadd_mono _ _ _ _ Hab Hab' Hg Hg' ltac:(lra) Hmab Hmg) as Hms.
  split.
  - apply unit_interval_spec. split; [exact Hs|lra].
  - apply fleb_le; assumption.
Qed.

Lemma unit_interval_refl (x : float) : unit_interval x = true -> (x <=? x)%float = true.
Proof.
  intros [Hx _]%unit_interval_spec. apply fleb_le; [assumption..|]. lra.
Qed.

End Binary64.

(** ** The quality gate, [karma/agents/evaluator/agent.py] *)
Module Evaluator.

(** [_aggregate_scores]: the weighted average, in binary64. *)
Definition _aggregate_scores (t : KnowledgeTriple) : float :=
  (0.5 * confidence t + 0.25 * clarity t + 0.25 * relevance t)%float.

(** The three guarded assignments at the top of the loop body of
    [finalize_triples], on the object behind [l]. *)
Definition ensure_metrics (l : ref) (h : gmap ref KnowledgeTriple) : gmap ref KnowledgeTriple :=
  let h := if (confidence (h !!! l) <=? 0)%float then alter (set_confidence 0.5) l h else h in
  let h := if (clarity (h !!! l) <=? 0)%float then alter (set_clarity 0.5) l h else h in
  let h := if (relevance (h !!! l) <=? 0)%float then alter (set_relevance 0.5) l h else h in
  h.

(** One iteration of the loop: the state is the store and the list
    [integrated_triples] built so far. *)
Definition finalize_step (integrate_threshold : float)
    (st : gmap ref KnowledgeTriple * list ref) (l : ref) : gmap ref KnowledgeTriple * list ref :=
  let h := ensure_metrics l st.1 in
  let integration_score := _aggregate_scores (h !!! l) in
  if (integrate_threshold <=? integration_score)%float
  then (h, (st.2 ++ [l])%list)
  else (h, st.2).

(** [finalize_triples]: the final store, and the returned tuple
    [(integrated_triples, 0, 0, 0.0)]. *)
Definition finalize_triples (integrate_threshold : float)
    (h : gmap ref KnowledgeTriple) (candidate_triples : list ref)
    : gmap ref KnowledgeTriple * (list ref * Z * Z * float) :=
  let st := fold_left (finalize_step integrate_threshold) candidate_triples (h, []) in
  (st.1, (st.2, 0%Z, 0%Z, 0%float)).

(** [process] returns the first component of that tuple. *)
Definition process (integrate_threshold : float)
    (h : gmap ref KnowledgeTriple) (triples : list ref)
    : gmap ref KnowledgeTriple * list ref :=
  let r := finalize_triples integrate_threshold h triples in
  (r.1, r.2.1.1.1).

(** What the three guarded assignments do to one triple value. *)
Definition normalized (t : KnowledgeTriple) : KnowledgeTriple :=
  let t := if (confidence t <=? 0)%float then set_confidence 0.5 t else t in
  let t := if (clarity t <=? 0)%float then set_clarity 0.5 t else t in
  let t := if (relevance t <=? 0)%float then set_relevance 0.5 t else t in
  t.

End Evaluator.

(** *** Facts about the quality gate *)
Module EvaluatorFacts.
Import Evaluator.

Lemma half_not_le_zero : (0.5 <=? 0)%float = false.
Proof. reflexivity. Qed.

Lemma normalized_idem (t : KnowledgeTriple) : normalized (normalized t) = normalized t.
Proof.
  destruct t as [h r tl c s rl cl]. unfold normalized; simpl.
  destruct (c <=? 0)%float eqn:Hc; cbn;
    destruct (cl <=? 0)%float eqn:Hcl; cbn;
    destruct (rl <=? 0)%float eqn:Hrl; cbn;
    repeat (rewrite ?half_not_le_zero, ?Hc, ?Hcl, ?Hrl; cbn); reflexivity.
Qed.

(** A guarded assignment [if b(o): o.f = v] is one update of the object. *)
Lemma guarded_alter (b : KnowledgeTriple -> bool) (f : KnowledgeTriple -> KnowledgeTriple)
    (l : ref) (h : gmap ref KnowledgeTriple) :
  (if b (h !!! l) then alter f l h else h) = alter (fun t => if b t then f t else t) l h.
Proof.
  apply map_eq; intros j. destruct (decide (l = j)) as [Heq|Hne].
  - subst j. rewrite lookup_alter_eq, lookup_total_alt.
    destruct (h !! l) as [t|] eqn:Hl; cbn [default from_option id fmap option_fmap option_map].
    + destruct (b t); [rewrite lookup_alter_eq, Hl|rewrite Hl]; reflexivity.
    + destruct (b inhabitant); [rewrite lookup_alter_eq, Hl|rewrite Hl]; reflexivity.
  - rewrite lookup_alter_ne by done.
    destruct (b (h !!! l)); [rewrite lookup_alter_ne by done|]; reflexivity.
Qed.

(** The three guarded assignments amount to one update of the object. *)
Lemma ensure_metrics_alter (l : ref) (h : gmap ref KnowledgeTriple) :
  ensure_metrics l h = alter normalized l h.
Proof.
  unfold ensure_metrics.
  rewrite (guarded_alter (fun t => (confidence t <=? 0)%float) (set_confidence 0.5) l h).
  rewrite (guarded_alter (fun t => (clarity t <=? 0)%float) (set_clarity 0.5) l).
  rewrite (guarded_alter (fun t => (relevance t <=? 0)%float) (set_relevance 0.5) l).
  rewrite !alter_alter_eq. reflexivity.
Qed.

Lemma ensure_metrics_lookup (l : ref) (h : gmap ref KnowledgeTriple) :
  ensure_metrics l h !! l = normalized <$> h !! l.
Proof. rewrite ensure_metrics_alter. apply lookup_alter_eq. Qed.

Lemma ensure_metrics_lookup_ne (l j : ref) (h : gmap ref KnowledgeTriple) :
  l <> j -> ensure_metrics l h !! j = h !! j.
Proof. intros Hne. rewrite ensure_metrics_alter. by apply lookup_alter_ne. Qed.

(** The store after the loop. *)
Definition gate_store (cands : list ref) (h : gmap ref KnowledgeTriple) : gmap ref KnowledgeTriple :=
  fold_left (fun h l => ensure_metrics l h) cands h.

Lemma finalize_fold_store thr cands h acc :
  (fold_left (finalize_step thr) cands (h, acc)).1 = gate_store cands h.
Proof.
  revert h acc. induction cands as [|l cs IH]; intros h acc; [reflexivity|].
  cbn [fold_left gate_store]. unfold finalize_step at 2; cbn [fst snd].
  destruct (thr <=? _)%float; apply IH.
Qed.

Lemma gate_store_notin cands h j :
  j ∉ cands -> gate_store cands h !! j = h !! j.
Proof.
  revert h. induction cands as [|l cs IH]; intros h Hj; [reflexivity|].
  apply not_elem_of_cons in Hj as [Hne Hj]. cbn [gate_store fold_left].
  unfold gate_store in IH. rewrite IH by done. by apply ensure_metrics_lookup_ne.
Qed.

(** An object that already carries its defaults is left alone. *)
Lemma gate_store_fixed cands h j :
  normalized <$> h !! j = h !! j -> gate_store cands h !! j = h !! j.
Proof.
  revert h. induction cands as [|l cs IH]; intros h Hfix; [reflexivity|].
  cbn [gate_store fold_left]. unfold gate_store in IH.
  destruct (decide (l = j)) as [->|Hne].
  - rewrite IH; rewrite ensure_metrics_lookup; [done|].
    rewrite Hfix. done.
  - rewrite IH; rewrite ensure_metrics_lookup_ne by done; done.
Qed.

Lemma normalized_fmap_idem (o : option KnowledgeTriple) :
  normalized <$> (normalized <$> o) = normalized <$> o.
Proof. destruct o; cbn; [by rewrite normalized_idem|done]. Qed.

Lemma gate_store_in cands h j :
  j ∈ cands -> gate_store cands h !! j = normalized <$> h !! j.
Proof.
  revert h. induction cands as [|l cs IH]; intros h Hj; [by apply elem_of_nil in Hj|].
  cbn [gate_store fold_left]. unfold gate_store in IH.
  destruct (decide (l = j)) as [->|Hne].
  - pose proof (gate_store_fixed cs (ensure_metrics j h) j) as Hf. unfold gate_store in Hf.
    rewrite Hf; rewrite ensure_metrics_lookup; [done|]. apply normalized_fmap_idem.
  - apply elem_of_cons in Hj as [Hj|Hj]; [congruence|].
    rewrite IH by done. by rewrite ensure_metrics_lookup_ne.
Qed.

(** The returned list: the references whose object, as the loop leaves
    it, scores at least the threshold, in input order. *)
Lemma finalize_fold_list thr cands h acc :
  (fold_left (finalize_step thr) cands (h, acc)).2 =
  (acc ++ List.filter
            (fun l => (thr <=? _aggregate_scores (gate_store cands h !!! l))%float) cands)%list.
Proof.
  revert h acc. induction cands as [|l cs IH]; intros h acc.
  - cbn. by rewrite app_nil_r.
  - cbn [fold_left List.filter gate_store].
    assert (Hsame : fold_left (fun h l => ensure_metrics l h) cs (ensure_metrics l h) !!! l
                    = ensure_metrics l h !!! l).
    { rewrite !lookup_total_alt. f_equal.
      apply (gate_store_fixed cs (ensure_metrics l h) l).
      rewrite ensure_metrics_lookup. apply normalized_fmap_idem. }
    unfold finalize_step at 2; cbn [fst snd]. rewrite Hsame.
    destruct (thr <=? _)%float.
    + rewrite IH. rewrite <- app_assoc. reflexivity.
    + rewrite IH. reflexivity.
Qed.

End EvaluatorFacts.

(** *** The quality gate: admission and in-place defaults *)
Module EvaluatorSpec.
Import Evaluator EvaluatorFacts.

(** The sub-scores after the guarded assignments, field by field. *)
Lemma normalized_fields (t : KnowledgeTriple) :
  confidence (normalized t) = (if (confidence t <=? 0)%float then 0.5%float else confidence t) /\
  clarity (normalized t) = (if (clarity t <=? 0)%float then 0.5%float else clarity t) /\
  relevance (normalized t) = (if (relevance t <=? 0)%float then 0.5%float else relevance t) /\
  head (normalized t) = head t /\ relation (normalized t) = relation t /\
  tail (normalized t) = tail t /\ source (normalized t) = source t.
Proof.
  destruct t as [hd r tl c s rl cl]. unfold normalized; cbn.
  destruct (c <=? 0)%float; cbn; destruct (cl <=? 0)%float; cbn;
    destruct (rl <=? 0)%float; cbn; repeat split; reflexivity.
Qed.

Lemma normalized_positive (t : KnowledgeTriple) :
  (confidence t <=? 0)%float = false -> (clarity t <=? 0)%float = false ->
  (relevance t <=? 0)%float = false -> normalized t = t.
Proof.
  destruct t as [hd r tl c s rl cl]. unfold normalized; cbn.
  intros -> Hcl Hrl; cbn. rewrite Hcl; cbn. rewrite Hrl. reflexivity.
Qed.

Lemma finalize_store thr h cands :
  (finalize_triples thr h cands).1 = gate_store cands h.
Proof. unfold finalize_triples; cbn [fst]. apply finalize_fold_store. Qed.

Lemma finalize_list thr h cands :
  (finalize_triples thr h cands).2.1.1.1 =
  List.filter (fun l => (thr <=? _aggregate_scores (gate_store cands h !!! l))%float) cands.
Proof. unfold finalize_triples; cbn [fst snd]. apply finalize_fold_list. Qed.

(** C10: the defaults are written into the caller's objects.  After
    [finalize_triples], the object behind every input reference, admitted
    or not, has each sub-score that was <= 0 set to 0.5 and everything
    else (head, relation, tail, source, the other sub-scores) as before;
    the returned list is made of input references, in input order, so an
    admitted triple is the very object the caller passed in. *)
Theorem finalize_triples_mutates_in_place
    (thr : float) (h : gmap ref KnowledgeTriple) (cands : list ref)
    (l : ref) (t : KnowledgeTriple) :
  l ∈ cands -> h !! l = Some t ->
  let r := finalize_triples thr h cands in
  (exists t', r.1 !! l = Some t' /\
     confidence t' = (if (confidence t <=? 0)%float then 0.5%float else confidence t) /\
     clarity t' = (if (clarity t <=? 0)%float then 0.5%float else clarity t) /\
     relevance t' = (if (relevance t <=? 0)%float then 0.5%float else relevance t) /\
     head t' = head t /\ relation t' = relation t /\
     tail t' = tail t /\ source t' = source t) /\
  sublist r.2.1.1.1 cands /\
  (forall l', l' ∈ r.2.1.1.1 -> l' ∈ cands) /\
  (forall l', l' ∉ cands -> r.1 !! l' = h !! l').
Proof.
  intros Hin Hl r. subst r. rewrite finalize_store, finalize_list.
  split; [|split; [|split]].
  - exists (normalized t). rewrite (gate_store_in cands h l Hin), Hl.
    split; [reflexivity|]. apply normalized_fields.
  - apply sublist_bool_filter.
  - intros l' Hl'. by apply elem_of_bool_filter in Hl' as [? _].
  - intros l' Hl'. by apply gate_store_notin.
Qed.

(** A store with one triple whose clarity was never set, and the gate
    run on it with the default threshold. *)
Definition unset_clarity_triple : KnowledgeTriple :=
  mkTriple "aspirin" "treats" "headache" 0.9 "unknown" 0.8 0.

Lemma finalize_triples_mutates_in_place_witness :
  let h : gmap ref KnowledgeTriple := {[ 1%positive := unset_clarity_triple ]} in
  let r := finalize_triples 0.6 h [1%positive] in
  (exists t', r.1 !! 1%positive = Some t' /\
     confidence t' = 0.9%float /\ clarity t' = 0.5%float /\ relevance t' = 0.8%float /\
     head t' = "aspirin" /\ relation t' = "treats" /\
     tail t' = "headache" /\ source t' = "unknown") /\
  sublist r.2.1.1.1 [1%positive] /\
  (forall l', l' ∈ r.2.1.1.1 -> l' ∈ [1%positive]) /\
  (forall l', l' ∉ [1%positive] -> r.1 !! l' = h !! l').
Proof.
  apply (finalize_triples_mutates_in_place 0.6
           {[ 1%positive := unset_clarity_triple ]} [1%positive] 1%positive
           unset_clarity_triple).
  - apply list_elem_of_here.
  - apply lookup_singleton_eq.
Defined.

(** C2, as the code has it: the gate writes 0.5 over every sub-score
    that is <= 0 (and over nothing else), in the object itself, and then
    admits a candidate iff the weighted score of the object so completed
    reaches the threshold.  The only scores it changes are the ones it
    defaults: a candidate whose three sub-scores are not <= 0 comes out
    as it went in.  The returned list is the input list filtered by that
    test, in input order. *)
Theorem finalize_triples_gate
    (thr : float) (h : gmap ref KnowledgeTriple) (cands : list ref)
    (l : ref) (t : KnowledgeTriple) :
  l ∈ cands -> h !! l = Some t ->
  let r := finalize_triples thr h cands in
  let c' := if (confidence t <=? 0)%float then 0.5%float else confidence t in
  let cl' := if (clarity t <=? 0)%float then 0.5%float else clarity t in
  let rl' := if (relevance t <=? 0)%float then 0.5%float else relevance t in
  r.1 !! l = Some (mkTriple (head t) (relation t) (tail t) c' (source t) rl' cl') /\
  (l ∈ r.2.1.1.1 <-> (thr <=? 0.5 * c' + 0.25 * cl' + 0.25 * rl')%float = true) /\
  ((confidence t <=? 0)%float = false -> (clarity t <=? 0)%float = false ->
   (relevance t <=? 0)%float = false -> r.1 !! l = Some t) /\
  r.2.1.1.1 = List.filter (fun l' => (thr <=? _aggregate_scores (r.1 !!! l'))%float) cands /\
  r.2.1.2 = 0%Z /\ r.2.1.1.2 = 0%Z.
Proof.
  intros Hin Hl r c' cl' rl'.
  assert (Hst : r.1 !! l = Some (normalized t)).
  { subst r. rewrite finalize_store, (gate_store_in cands h l Hin), Hl. reflexivity. }
  assert (Hn : normalized t = mkTriple (head t) (relation t) (tail t) c' (source t) rl' cl').
  { destruct (normalized_fields t) as (Hc & Hcl & Hrl & Hh & Hr & Htl & Hs).
    subst c' cl' rl'. rewrite <- Hc, <- Hcl, <- Hrl, <- Hh, <- Hr, <- Htl, <- Hs.
    by destruct (normalized t). }
  assert (Hlist : r.2.1.1.1 =
                  List.filter (fun l' => (thr <=? _aggregate_scores (r.1 !!! l'))%float) cands).
  { subst r. rewrite finalize_list, finalize_store. reflexivity. }
  split; [by rewrite Hst, Hn|]. split; [|split; [|split; [exact Hlist|split; reflexivity]]].
  - rewrite Hlist, elem_of_bool_filter.
    rewrite (lookup_total_correct _ _ _ Hst), Hn. unfold _aggregate_scores; cbn.
    tauto.
  - intros H1 H2 H3. by rewrite Hst, normalized_positive.
Qed.

Lemma finalize_triples_gate_witness :
  let h : gmap ref KnowledgeTriple := {[ 1%positive := unset_clarity_triple ]} in
  let r := finalize_triples 0.6 h [1%positive] in
  r.1 !! 1%positive = Some (mkTriple "aspirin" "treats" "headache" 0.9 "unknown" 0.8 0.5) /\
  (1%positive ∈ r.2.1.1.1 <-> (0.6 <=? 0.5 * 0.9 + 0.25 * 0.5 + 0.25 * 0.8)%float = true) /\
  ((0.9 <=? 0)%float = false -> (0 <=? 0)%float = false ->
   (0.8 <=? 0)%float = false -> r.1 !! 1%positive = Some unset_clarity_triple) /\
  r.2.1.1.1 = List.filter (fun l' => (0.6 <=? _aggregate_scores (r.1 !!! l'))%float) [1%positive] /\
  r.2.1.2 = 0%Z /\ r.2.1.1.2 = 0%Z.
Proof.
  apply (finalize_triples_gate 0.6
           {[ 1%positive := unset_clarity_triple ]} [1%positive] 1%positive
           unset_clarity_triple).
  - apply list_elem_of_here.
  - apply lookup_singleton_eq.
Defined.

(** C2 as worded fails where a surviving triple had an unset score: the
    triple below is admitted, and the clarity of the admitted object is
    no longer the 0 it came in with. *)
Lemma finalize_triples_changes_survivor_score :
  let h : gmap ref KnowledgeTriple := {[ 1%positive := unset_clarity_triple ]} in
  let r := finalize_triples 0.6 h [1%positive] in
  r.2.1.1.1 = [1%positive] /\
  clarity (h !!! 1%positive) = 0%float /\
  clarity (r.1 !!! 1%positive) = 0.5%float.
Proof. vm_compute. repeat split. Qed.

End EvaluatorSpec.

(** *** The scenario of the threshold 0.6 *)
Module EvaluatorScenario.
Import Evaluator.

Definition triple_07 : KnowledgeTriple :=
  mkTriple "aspirin" "treats" "headache" 0.7 "unknown" 0.5 0.5.
Definition triple_09 : KnowledgeTriple :=
  mkTriple "aspirin" "treats" "headache" 0.9 "unknown" 0.5 0.5.

(** C5, as the code computes it: with threshold 0.6 and clarity =
    relevance = 0.5, confidence 0.7 gives the score 0.6 (the binary64
    number that the literal 0.6 denotes), which meets the threshold, so
    the triple is admitted; confidence 0.9 gives 0.7 and is admitted
    too. *)
Theorem gate_scenario_scores :
  _aggregate_scores triple_07 = 0.6%float /\
  (finalize_triples 0.6 {[ 1%positive := triple_07 ]} [1%positive]).2.1.1.1 = [1%positive] /\
  _aggregate_scores triple_09 = 0.7%float /\
  (finalize_triples 0.6 {[ 1%positive := triple_09 ]} [1%positive]).2.1.1.1 = [1%positive].
Proof. vm_compute. repeat split. Qed.

(** C5 as worded fails on its first half: the score of the 0.7 triple is
    not 0.575 (it is not even below the threshold), and the gate returns
    the triple instead of rejecting it. *)
Lemma gate_scenario_not_rejected :
  (_aggregate_scores triple_07 =? 0.575)%float = false /\
  (_aggregate_scores triple_07 <? 0.6)%float = false /\
  (finalize_triples 0.6 {[ 1%positive := triple_07 ]} [1%positive]).2.1.1.1 = [1%positive] /\
  (_aggregate_scores triple_09 =? 0.675)%float = false.
Proof. vm_compute. repeat split. Qed.

End EvaluatorScenario.

(** *** The weighted score on scores between 0 and 1 *)
Module EvaluatorScore.
Import Evaluator Binary64.

(** C3: [_aggregate_scores] is the binary64 value of
    [0.5*confidence + 0.25*clarity + 0.25*relevance], a function of the
    three fields and of nothing else.  When the three sub-scores lie in
    [[0,1]], so does the result, and raising any one of them within
    [[0,1]] does not lower it. *)
Theorem aggregate_scores_weighted_bounded_monotone (t : KnowledgeTriple) :
  _aggregate_scores t =
    (0.5 * confidence t + 0.25 * clarity t + 0.25 * relevance t)%float /\
  (unit_interval (confidence t) = true -> unit_interval (clarity t) = true ->
   unit_interval (relevance t) = true ->
   unit_interval (_aggregate_scores t) = true /\
   (forall c', unit_interval c' = true -> (confidence t <=? c')%float = true ->
      (_aggregate_scores t <=? _aggregate_scores (set_confidence c' t))%float = true) /\
   (forall cl', unit_interval cl' = true -> (clarity t <=? cl')%float = true ->
      (_aggregate_scores t <=? _aggregate_scores (set_clarity cl' t))%float = true) /\
   (forall r', unit_interval r' = true -> (relevance t <=? r')%float = true ->
      (_aggregate_scores t <=? _aggregate_scores (set_relevance r' t))%float = true)).
Proof.
  split; [reflexivity|]. intros Hc Hcl Hr.
  destruct t as [hd rel tl c s r cl]. unfold _aggregate_scores; cbn in *.
  pose proof (unit_interval_refl c Hc) as Hcc.
  pose proof (unit_interval_refl cl Hcl) as Hclcl.
  pose proof (unit_interval_refl r Hr) as Hrr.
  split; [|split; [|split]].
  - exact (proj1 (weighted_sum_unit_mono c cl r c cl r Hc Hcl Hr Hc Hcl Hr Hcc Hclcl Hrr)).
  - intros c' Hc' Hle.
    exact (proj2 (weighted_sum_unit_mono c cl r c' cl r Hc Hcl Hr Hc' Hcl Hr Hle Hclcl Hrr)).
  - intros cl' Hcl' Hle.
    exact (proj2 (weighted_sum_unit_mono c cl r c cl' r Hc Hcl Hr Hc Hcl' Hr Hcc Hle Hrr)).
  - intros r' Hr' Hle.
    exact (proj2 (weighted_sum_unit_mono c cl r c cl r' Hc Hcl Hr Hc Hcl Hr' Hcc Hclcl Hle)).
Qed.

(** The theorem at a triple with scores in range, its confidence raised
    from 0.7 to 0.9. *)
Definition scored_triple : KnowledgeTriple :=
  mkTriple "aspirin" "treats" "headache" 0.7 "unknown" 0.5 0.5.

Lemma aggregate_scores_weighted_bounded_monotone_witness :
  unit_interval (_aggregate_scores scored_triple) = true /\
  (_aggregate_scores scored_triple <=?
   _aggregate_scores (set_confidence 0.9 scored_triple))%float = true.
Proof.
  destruct (aggregate_scores_weighted_bounded_monotone scored_triple) as [_ Hb].
  destruct (Hb eq_refl eq_refl eq_refl) as (Hunit & Hconf & _).
  split; [exact Hunit|]. apply Hconf; reflexivity.
Defined.

End EvaluatorScore.

(** ** The conflict resolver, [karma/agents/conflict_resolution/agent.py]

    The resolver reads triples and builds a new list; it assigns to no
    attribute, so triples are passed by value here. *)
Module ConflictResolution.
Import PyStr.

Definition contradiction_pairs : gset (string * string) :=
  {[ ("treats", "causes"); ("inhibits", "activates");
     ("increases", "decreases"); ("upregulates", "downregulates") ]}.

(** The test in the loop body of [_find_contradiction]. *)
Definition contradicts (existing new_triple : KnowledgeTriple) : bool :=
  bool_decide (lower (head existing) = lower (head new_triple)) &&
  bool_decide (lower (tail existing) = lower (tail new_triple)) &&
  (let rel_pair := (relation existing, relation new_triple) in
   bool_decide (rel_pair ∈ contradiction_pairs) ||
   bool_decide ((rel_pair.2, rel_pair.1) ∈ contradiction_pairs)).

Fixpoint _find_contradiction (new_triple : KnowledgeTriple)
    (existing_triples : list KnowledgeTriple) : option KnowledgeTriple :=
  match existing_triples with
  | [] => None
  | existing :: rest =>
      if contradicts existing new_triple then Some existing
      else _find_contradiction new_triple rest
  end.

(** One iteration of the loop of [resolve_conflicts]. *)
Definition resolve_step (existing_triples : list KnowledgeTriple)
    (final_triples : list KnowledgeTriple) (new_triple : KnowledgeTriple) : list KnowledgeTriple :=
  match _find_contradiction new_triple existing_triples with
  | Some conflicting_triple =>
      if (confidence conflicting_triple <? confidence new_triple)%float
      then (final_triples ++ [new_triple])%list
      else final_triples
  | None => (final_triples ++ [new_triple])%list
  end.

Definition resolve_conflicts (new_triples existing_triples : list KnowledgeTriple)
    : list KnowledgeTriple * Z * Z * float :=
  (fold_left (resolve_step existing_triples) new_triples [], 0%Z, 0%Z, 0%float).

Definition process (new_triples existing_triples : list KnowledgeTriple) : list KnowledgeTriple :=
  (resolve_conflicts new_triples existing_triples).1.1.1.

(** The decision taken for one new triple. *)
Definition keeps (existing_triples : list KnowledgeTriple) (new_triple : KnowledgeTriple) : bool :=
  match _find_contradiction new_triple existing_triples with
  | Some conflicting_triple => (confidence conflicting_triple <? confidence new_triple)%float
  | None => true
  end.

End ConflictResolution.

Module ConflictResolutionFacts.
Import PyStr ConflictResolution.

Lemma resolve_fold existing news acc :
  fold_left (resolve_step existing) news acc = (acc ++ List.filter (keeps existing) news)%list.
Proof.
  revert acc. induction news as [|n ns IH]; intros acc; cbn [fold_left List.filter].
  - by rewrite app_nil_r.
  - rewrite IH. unfold resolve_step, keeps.
    destruct (_find_contradiction n existing) as [e|].
    + destruct (confidence e <? confidence n)%float; [by rewrite <- app_assoc|done].
    + by rewrite <- app_assoc.
Qed.

Lemma process_filter news existing :
  process news existing = List.filter (keeps existing) news.
Proof. unfold process, resolve_conflicts; cbn [fst]. by rewrite resolve_fold. Qed.

(** [_find_contradiction] returns the first existing triple, in list
    order, that passes the test. *)
Lemma find_contradiction_Some n existing e :
  _find_contradiction n existing = Some e <->
  exists pre post, existing = (pre ++ e :: post)%list /\
                   contradicts e n = true /\
                   forall e', e' ∈ pre -> contradicts e' n = false.
Proof.
  induction existing as [|x xs IH]; cbn [_find_contradiction].
  - split; [discriminate|]. intros (pre & post & Heq & _). by destruct pre.
  - destruct (contradicts x n) eqn:Hx.
    + split.
      * intros [= <-]. exists [], xs. repeat split; [done|]. intros e' He'. by apply elem_of_nil in He'.
      * intros (pre & post & Heq & He & Hpre). destruct pre as [|p pre]; cbn in Heq.
        -- by injection Heq as -> _.
        -- injection Heq as -> _. rewrite Hpre in Hx; [done|]. apply list_elem_of_here.
    + rewrite IH. split.
      * intros (pre & post & -> & He & Hpre). exists (x :: pre), post.
        repeat split; [done|]. intros e' [->|He']%elem_of_cons; auto.
      * intros (pre & post & Heq & He & Hpre). destruct pre as [|p pre]; cbn in Heq.
        -- injection Heq as -> _. congruence.
        -- injection Heq as -> ->. exists pre, post. repeat split; [done|].
           intros e' He'. apply Hpre. by apply list_elem_of_further.
Qed.

Lemma find_contradiction_None n existing :
  _find_contradiction n existing = None <->
  forall e, e ∈ existing -> contradicts e n = false.
Proof.
  induction existing as [|x xs IH]; cbn [_find_contradiction].
  - split; [|done]. intros _ e He. by apply elem_of_nil in He.
  - destruct (contradicts x n) eqn:Hx.
    + split; [discriminate|]. intros H. rewrite H in Hx; [done|]. apply list_elem_of_here.
    + rewrite IH. split.
      * intros H e [->|He]%elem_of_cons; auto.
      * intros H e He. apply H. by apply list_elem_of_further.
Qed.

End ConflictResolutionFacts.

(** *** What the resolver keeps *)
Module ConflictResolutionSpec.
Import PyStr ConflictResolution ConflictResolutionFacts.

Definition accepted_treats : KnowledgeTriple :=
  mkTriple "aspirin" "treats" "headache" 0.9 "unknown" 0.7 0.8.
Definition proposed_causes : KnowledgeTriple :=
  mkTriple "aspirin" "causes" "headache" 0.6 "unknown" 0.5 0.5.

(** C1, as the code has it: a new triple is compared with one existing
    triple only, the first in list order that it contradicts.  It is kept
    iff either no existing triple contradicts it, or its confidence is
    strictly greater than the confidence of that first contradicting
    triple.  Kept triples come out in input order.  With ("aspirin",
    "treats", "headache") accepted at 0.9 and ("aspirin", "causes",
    "headache") proposed at 0.6, nothing new is kept. *)
Theorem resolve_conflicts_first_found :
  (forall (news existing : list KnowledgeTriple) (n : KnowledgeTriple),
     n ∈ (resolve_conflicts news existing).1.1.1 <->
     n ∈ news /\
     ((forall e, e ∈ existing -> contradicts e n = false) \/
      (exists pre e post,
          existing = (pre ++ e :: post)%list /\
          (forall e', e' ∈ pre -> contradicts e' n = false) /\
          contradicts e n = true /\
          (confidence e <? confidence n)%float = true))) /\
  (forall news existing, sublist (resolve_conflicts news existing).1.1.1 news) /\
  resolve_conflicts [proposed_causes] [accepted_treats] = ([], 0%Z, 0%Z, 0%float).
Proof.
  split; [|split].
  - intros news existing n.
    change ((resolve_conflicts news existing).1.1.1) with (process news existing).
    rewrite process_filter, elem_of_bool_filter. unfold keeps.
    split.
    + intros [Hin Hk]. split; [done|].
      destruct (_find_contradiction n existing) as [e|] eqn:Hf.
      * right. apply find_contradiction_Some in Hf as (pre & post & Heq & He & Hpre).
        by exists pre, e, post.
      * left. by apply find_contradiction_None.
    + intros [Hin [Hnone|(pre & e & post & Heq & Hpre & He & Hlt)]]; (split; [done|]).
      * apply find_contradiction_None in Hnone. by rewrite Hnone.
      * assert (Hf : _find_contradiction n existing = Some e)
          by (apply find_contradiction_Some; by exists pre, post).
        by rewrite Hf.
  - intros news existing.
    change ((resolve_conflicts news existing).1.1.1) with (process news existing).
    rewrite process_filter. apply sublist_bool_filter.
  - vm_compute. reflexivity.
Qed.

(** Two accepted triples that the proposed one contradicts, the weaker
    one first. *)
Definition accepted_weak : KnowledgeTriple :=
  mkTriple "aspirin" "treats" "headache" 0.3 "doc1" 0.5 0.5.
Definition accepted_strong : KnowledgeTriple :=
  mkTriple "Aspirin" "treats" "Headache" 0.9 "doc2" 0.5 0.5.

(** C1 as worded fails when several existing triples contradict the new
    one: the proposed triple contradicts [accepted_strong], does not
    exceed its confidence, and is kept all the same, because only
    [accepted_weak] was looked at. *)
Lemma resolve_conflicts_keeps_against_stronger :
  resolve_conflicts [proposed_causes] [accepted_weak; accepted_strong]
    = ([proposed_causes], 0%Z, 0%Z, 0%float) /\
  contradicts accepted_strong proposed_causes = true /\
  (confidence accepted_strong <? confidence proposed_causes)%float = false.
Proof. vm_compute. repeat split. Qed.

(** C4, as the code has it: the output is a sub-list of the new triples,
    so the accepted set cannot grow beyond [len(new) + len(existing)];
    and a new triple is never retained next to the existing triple
    detected for it unless its confidence is strictly the greater one. *)
Theorem resolve_conflicts_bounded (news existing : list KnowledgeTriple) :
  let out := (resolve_conflicts news existing).1.1.1 in
  (length (out ++ existing) <= length news + length existing)%nat /\
  sublist out news /\
  (forall n e, _find_contradiction n existing = Some e -> n ∈ out ->
               e ∈ existing /\ contradicts e n = true /\
               (confidence e <? confidence n)%float = true) /\
  (forall n e, _find_contradiction n existing = Some e ->
               (confidence e <? confidence n)%float = false -> n ∉ out).
Proof.
  intros out.
  assert (Hout : out = List.filter (keeps existing) news).
  { subst out. change ((resolve_conflicts news existing).1.1.1) with (process news existing).
    apply process_filter. }
  assert (Hsub : sublist out news) by (rewrite Hout; apply sublist_bool_filter).
  split; [|split; [done|split]].
  - rewrite length_app. apply sublist_length in Hsub. lia.
  - intros n e Hf Hn. rewrite Hout in Hn.
    apply elem_of_bool_filter in Hn as [_ Hk]. unfold keeps in Hk. rewrite Hf in Hk.
    apply find_contradiction_Some in Hf as (pre & post & -> & He & _).
    repeat split; [|done..]. apply elem_of_app. right. apply list_elem_of_here.
  - intros n e Hf Hlt Hn. rewrite Hout in Hn.
    apply elem_of_bool_filter in Hn as [_ Hk]. unfold keeps in Hk.
    rewrite Hf, Hlt in Hk. discriminate.
Qed.

Definition accepted_low : KnowledgeTriple :=
  mkTriple "aspirin" "treats" "headache" 0.6 "unknown" 0.5 0.5.
Definition proposed_high : KnowledgeTriple :=
  mkTriple "aspirin" "causes" "headache" 0.9 "unknown" 0.5 0.5.

(** C4 as worded fails on its second half: when the new triple wins, it
    is returned and the existing triple it was found to contradict stays
    in the (unmodified) existing list, so both members of the detected
    pair survive. *)
Lemma resolve_conflicts_retains_both :
  _find_contradiction proposed_high [accepted_low] = Some accepted_low /\
  (resolve_conflicts [proposed_high] [accepted_low]).1.1.1 = [proposed_high] /\
  ((resolve_conflicts [proposed_high] [accepted_low]).1.1.1 ++ [accepted_low])%list
    = [proposed_high; accepted_low].
Proof. vm_compute. repeat split. Qed.

End ConflictResolutionSpec.

(** ** The relation normaliser, [karma/agents/schema_alignment/agent.py] *)
Module SchemaAlignment.
Import PyStr.

Definition synonyms : gmap string string :=
  list_to_map
    [ ("inhibit", "inhibits"); ("inhibited", "inhibits");
      ("treat", "treats"); ("treated", "treats");
      ("cause", "causes"); ("caused", "causes");
      ("activate", "activates"); ("activates", "activates");
      ("associated with", "associated_with");
      ("interacts with", "interacts_with") ].

(** [synonyms.get(relation.lower(), relation.lower())] *)
Definition _normalize_relation (relation : string) : string :=
  default (lower relation) (synonyms !! lower relation).

(** The normaliser as the specification words it: lower-case, trim,
    then look the result up. *)
Definition normalize_trimmed (label : string) : string :=
  let key := strip (lower label) in
  default key (synonyms !! key).

End SchemaAlignment.

Module SchemaAlignmentSpec.
Import PyStr SchemaAlignment.

Lemma synonyms_lookup (k : string) :
  synonyms !! k =
    if decide (k = "inhibit") then Some "inhibits"
    else if decide (k = "inhibited") then Some "inhibits"
    else if decide (k = "treat") then Some "treats"
    else if decide (k = "treated") then Some "treats"
    else if decide (k = "cause") then Some "causes"
    else if decide (k = "caused") then Some "causes"
    else if decide (k = "activate") then Some "activates"
    else if decide (k = "activates") then Some "activates"
    else if decide (k = "associated with") then Some "associated_with"
    else if decide (k = "interacts with") then Some "interacts_with"
    else None.
Proof.
  unfold synonyms. cbn [list_to_map foldr fst snd uncurry].
  repeat (rewrite lookup_insert; case_decide; [subst k; reflexivity|];
          rewrite decide_False by congruence).
  apply lookup_empty.
Qed.

(** C9, as the code has it: the label is lower-cased (and not trimmed),
    then replaced by its entry in the synonym table when it has one and
    returned lower-cased otherwise; every label gets a result.  For
    instance "inhibited", in any letter case, becomes "inhibits". *)
Theorem normalize_relation_lowercase_then_table :
  (forall label canonical,
      synonyms !! lower label = Some canonical -> _normalize_relation label = canonical) /\
  (forall label,
      synonyms !! lower label = None -> _normalize_relation label = lower label) /\
  (forall label, exists canonical, _normalize_relation label = canonical /\
      (canonical = lower label \/ synonyms !! lower label = Some canonical)) /\
  (forall label,
      _normalize_relation label =
        let k := lower label in
        if decide (k = "inhibit") then "inhibits"
        else if decide (k = "inhibited") then "inhibits"
        else if decide (k = "treat") then "treats"
        else if decide (k = "treated") then "treats"
        else if decide (k = "cause") then "causes"
        else if decide (k = "caused") then "causes"
        else if decide (k = "activate") then "activates"
        else if decide (k = "activates") then "activates"
        else if decide (k = "associated with") then "associated_with"
        else if decide (k = "interacts with") then "interacts_with"
        else k) /\
  _normalize_relation "inhibited" = "inhibits" /\
  _normalize_relation "INHIBITED" = "inhibits" /\
  _normalize_relation "Binds To" = "binds to" /\
  _normalize_relation "  Binds To " = "  binds to ".
Proof.
  repeat split.
  - intros label canonical H. unfold _normalize_relation. by rewrite H.
  - intros label H. unfold _normalize_relation. by rewrite H.
  - intros label. unfold _normalize_relation.
    destruct (synonyms !! lower label) as [c|] eqn:H; cbn; eauto.
  - intros label. unfold _normalize_relation. rewrite synonyms_lookup. cbn zeta.
    repeat (case_decide; [reflexivity|]). reflexivity.
Qed.

(** C9 as worded fails on the trimming: a label with a blank around it
    is not trimmed, so it misses its table entry and keeps the blanks,
    where lower-casing, trimming and then looking up gives "inhibits". *)
Lemma normalize_relation_does_not_trim :
  _normalize_relation " Inhibited " = " inhibited " /\
  normalize_trimmed " Inhibited " = "inhibits" /\
  _normalize_relation "Binds To " = "binds to " /\
  normalize_trimmed "Binds To " = "binds to".
Proof. vm_compute. repeat split. Qed.

End SchemaAlignmentSpec.

(** ** Entity deduplication, [karma/agents/entity_extraction/agent.py]

    [_deduplicate_entities] keeps the first object seen under each key in
    a dict and updates that object in place when the key comes again, so
    entities live in a store and the lists hold references.  Each entity
    owns its alias list, as the dataclass default and the extraction code
    produce them. *)
Module EntityExtraction.
Import PyStr.

(** [list(set(xs))]: the elements of [xs], each once, in the iteration
    order of the set, which Python leaves unspecified. *)
Class SetOrder := {
  set_to_list : list string -> list string;
  set_to_list_NoDup : forall xs, NoDup (set_to_list xs);
  set_to_list_elem : forall xs x, x ∈ set_to_list xs <-> x ∈ xs
}.

(** Lookup in the insertion-ordered dict [unique_entities]. *)
Fixpoint dict_get (key : string) (d : list (string * ref)) : option ref :=
  match d with
  | [] => None
  | (k, v) :: rest => if decide (k = key) then Some v else dict_get key rest
  end.

Section Dedup.
Context `{SetOrder}.

(** [entity.name.lower().strip()] *)
Definition entity_key (h : gmap ref KGEntity) (entity : ref) : string :=
  strip (lower (name (h !!! entity))).

(** The branch taken when the key is already in the dict is three
    guarded updates of [existing], in this order. *)

(** "Prefer more specific entity types" *)
Definition prefer_specific_type (existing entity : ref) (h : gmap ref KGEntity)
    : gmap ref KGEntity :=
  if bool_decide (entity_type (h !!! entity) <> "Unknown") &&
     bool_decide (entity_type (h !!! existing) = "Unknown")
  then alter (set_entity_type (entity_type (h !!! entity))) existing h
  else h.

(** "Merge aliases": [extend], then [list(set(...))], when the incoming
    alias list is not empty. *)
Definition merge_aliases (existing entity : ref) (h : gmap ref KGEntity)
    : gmap ref KGEntity :=
  match aliases (h !!! entity) with
  | [] => h
  | _ :: _ =>
      alter (set_aliases
               (set_to_list (aliases (h !!! existing) ++ aliases (h !!! entity))%list))
            existing h
  end.

(** "Prefer non-N/A normalized IDs" *)
Definition prefer_normalized_id (existing entity : ref) (h : gmap ref KGEntity)
    : gmap ref KGEntity :=
  if bool_decide (normalized_id (h !!! entity) <> "N/A") &&
     bool_decide (normalized_id (h !!! existing) = "N/A")
  then alter (set_normalized_id (normalized_id (h !!! entity))) existing h
  else h.

Definition merge_into (existing entity : ref) (h : gmap ref KGEntity) : gmap ref KGEntity :=
  prefer_normalized_id existing entity
    (merge_aliases existing entity
       (prefer_specific_type existing entity h)).

(** One iteration of the loop: the state is the store and the dict. *)
Definition dedup_step (st : gmap ref KGEntity * list (string * ref)) (entity : ref)
    : gmap ref KGEntity * list (string * ref) :=
  let key := entity_key st.1 entity in
  match dict_get key st.2 with
  | Some existing => (merge_into existing entity st.1, st.2)
  | None => (st.1, (st.2 ++ [(key, entity)])%list)
  end.

(** [_deduplicate_entities]: the final store and
    [list(unique_entities.values())]. *)
Definition _deduplicate_entities (h : gmap ref KGEntity) (entities : list ref)
    : gmap ref KGEntity * list ref :=
  match entities with
  | [] => (h, [])
  | _ :: _ =>
      let st := fold_left dedup_step entities (h, []) in
      (st.1, st.2.*2)
  end.

End Dedup.

(** One possible iteration order: first occurrences, in list order. *)
#[export] Instance first_seen_order : SetOrder := {|
  set_to_list := remove_dups;
  set_to_list_NoDup := NoDup_remove_dups;
  set_to_list_elem := fun xs x => elem_of_remove_dups xs x
|}.

End EntityExtraction.

Module EntityExtractionFacts.
Import PyStr EntityExtraction.

Section Facts.
Context `{SetOrder}.

(** The three updates as functions of the existing record [e] and the
    incoming record [i]. *)
Definition type_value (e i : KGEntity) : KGEntity :=
  if bool_decide (entity_type i <> "Unknown") && bool_decide (entity_type e = "Unknown")
  then set_entity_type (entity_type i) e else e.

Definition aliases_value (e i : KGEntity) : KGEntity :=
  match aliases i with
  | [] => e
  | _ :: _ => set_aliases (set_to_list (aliases e ++ aliases i)%list) e
  end.

Definition normalized_id_value (e i : KGEntity) : KGEntity :=
  if bool_decide (normalized_id i <> "N/A") && bool_decide (normalized_id e = "N/A")
  then set_normalized_id (normalized_id i) e else e.

Definition merge_values (e i : KGEntity) : KGEntity :=
  normalized_id_value (aliases_value (type_value e i) i) i.

(** Each update rewrites the object behind [existing] and nothing else. *)
Lemma prefer_specific_type_alter existing entity h :
  prefer_specific_type existing entity h =
  alter (fun e => type_value e (h !!! entity)) existing h.
Proof.
  unfold prefer_specific_type. apply map_eq; intros r.
  rewrite lookup_alter. case_decide as Hr.
  - subst r. rewrite lookup_total_alt with (i := existing).
    destruct (h !! existing) as [e|] eqn:He; cbn [default from_option id fmap option_fmap option_map].
    + unfold type_value. destruct (_ && _); [rewrite lookup_alter_eq, He|rewrite He]; done.
    + destruct (_ && _); [rewrite lookup_alter_eq, He|rewrite He]; done.
  - destruct (_ && _); [rewrite lookup_alter_ne by done|]; done.
Qed.

Lemma merge_aliases_alter existing entity h :
  merge_aliases existing entity h =
  alter (fun e => aliases_value e (h !!! entity)) existing h.
Proof.
  unfold merge_aliases. apply map_eq; intros r.
  rewrite lookup_alter. case_decide as Hr.
  - subst r. rewrite lookup_total_alt with (i := existing).
    destruct (h !! existing) as [e|] eqn:He; cbn [default from_option id fmap option_fmap option_map].
    + unfold aliases_value. destruct (aliases _); [rewrite He|rewrite lookup_alter_eq, He]; done.
    + destruct (aliases _); [rewrite He|rewrite lookup_alter_eq, He]; done.
  - destruct (aliases _); [|rewrite lookup_alter_ne by done]; done.
Qed.

Lemma prefer_normalized_id_alter existing entity h :
  prefer_normalized_id existing entity h =
  alter (fun e => normalized_id_value e (h !!! entity)) existing h.
Proof.
  unfold prefer_normalized_id. apply map_eq; intros r.
  rewrite lookup_alter. case_decide as Hr.
  - subst r. rewrite lookup_total_alt with (i := existing).
    destruct (h !! existing) as [e|] eqn:He; cbn [default from_option id fmap option_fmap option_map].
    + unfold normalized_id_value. destruct (_ && _); [rewrite lookup_alter_eq, He|rewrite He]; done.
    + destruct (_ && _); [rewrite lookup_alter_eq, He|rewrite He]; done.
  - destruct (_ && _); [rewrite lookup_alter_ne by done|]; done.
Qed.

Lemma type_value_name e i : name (type_value e i) = name e.
Proof. unfold type_value. by destruct (_ && _). Qed.
Lemma aliases_value_name e i : name (aliases_value e i) = name e.
Proof. unfold aliases_value. by destruct (aliases i). Qed.
Lemma normalized_id_value_name e i : name (normalized_id_value e i) = name e.
Proof. unfold normalized_id_value. by destruct (_ && _). Qed.

(** A merge is one in-place update of [existing] that keeps its name. *)
Lemma merge_into_alter (existing entity : ref) (h : gmap ref KGEntity) :
  exists g : KGEntity -> KGEntity,
    (forall x, name (g x) = name x) /\ merge_into existing entity h = alter g existing h.
Proof.
  unfold merge_into.
  rewrite prefer_normalized_id_alter, merge_aliases_alter, prefer_specific_type_alter.
  rewrite !alter_alter_eq. eexists. split; [|reflexivity].
  intros x. cbn. by rewrite normalized_id_value_name, aliases_value_name, type_value_name.
Qed.

Lemma merge_into_lookup_ne (existing entity r : ref) (h : gmap ref KGEntity) :
  existing <> r -> merge_into existing entity h !! r = h !! r.
Proof.
  intros Hne. destruct (merge_into_alter existing entity h) as (g & _ & ->).
  by apply lookup_alter_ne.
Qed.

Lemma merge_into_name (existing entity r : ref) (h : gmap ref KGEntity) :
  name (merge_into existing entity h !!! r) = name (h !!! r).
Proof.
  destruct (merge_into_alter existing entity h) as (g & Hg & ->).
  rewrite lookup_total_alter. case_decide as Hr; [subst r|done].
  rewrite lookup_total_alt. destruct (h !! existing); cbn; [apply Hg|done].
Qed.

(** The record left behind [existing], also when [entity] is the very
    same object. *)
Lemma merge_into_lookup (existing entity : ref) (h : gmap ref KGEntity) (e i : KGEntity) :
  h !! existing = Some e -> h !! entity = Some i ->
  merge_into existing entity h !! existing = Some (merge_values e i).
Proof.
  intros He Hi. unfold merge_into, merge_values.
  rewrite prefer_normalized_id_alter, merge_aliases_alter, prefer_specific_type_alter.
  rewrite !lookup_alter_eq, He. cbn [fmap option_fmap option_map].
  rewrite (lookup_total_correct h entity i Hi).
  destruct (decide (existing = entity)) as [->|Hne].
  - assert (e = i) as -> by congruence.
    assert (Ht : type_value i i = i).
    { unfold type_value. destruct (decide (entity_type i = "Unknown")) as [Hu|Hu].
      - by rewrite (bool_decide_eq_false_2 (entity_type i <> "Unknown")), andb_false_l by tauto.
      - by rewrite (bool_decide_eq_false_2 (entity_type i = "Unknown")), andb_false_r by done. }
    rewrite !lookup_total_alter_eq, !lookup_alter_eq, Hi. cbn [fmap option_fmap option_map default from_option id].
    rewrite Ht. f_equal.
    assert (Hn : forall x y, normalized_id x = normalized_id y ->
                             normalized_id_value x y = x).
    { intros x y Hxy. unfold normalized_id_value. rewrite Hxy.
      destruct (decide (normalized_id y = "N/A")) as [Hu|Hu].
      - by rewrite (bool_decide_eq_false_2 (normalized_id y <> "N/A")), andb_false_l by tauto.
      - by rewrite (bool_decide_eq_false_2 (normalized_id y = "N/A")), andb_false_r by done. }
    rewrite !Hn; [done| |done]. unfold aliases_value. by destruct (aliases i).
  - rewrite !lookup_total_alter_ne by done.
    by rewrite (lookup_total_correct h entity i Hi).
Qed.

(** *** The dict and the loop *)

Lemma dict_get_None key d : dict_get key d = None <-> key ∉ d.*1.
Proof.
  induction d as [|[k v] d IH]; cbn.
  - split; [|done]. intros _ Hin. by apply elem_of_nil in Hin.
  - case_decide as Hk.
    + split; [discriminate|]. intros Hn. exfalso. apply Hn. subst. apply list_elem_of_here.
    + rewrite IH, not_elem_of_cons. cbn. split; [intros Hn; split; [congruence|done]|tauto].
Qed.

Lemma dict_get_app key d d' :
  dict_get key (d ++ d') =
  match dict_get key d with Some v => Some v | None => dict_get key d' end.
Proof.
  induction d as [|[k v] d IH]; cbn; [done|]. by case_decide.
Qed.

Lemma entity_key_names h h' r :
  name (h !!! r) = name (h' !!! r) -> entity_key h r = entity_key h' r.
Proof. unfold entity_key. by intros ->. Qed.

Lemma dedup_step_name st entity r :
  name ((dedup_step st entity).1 !!! r) = name (st.1 !!! r).
Proof.
  unfold dedup_step. destruct (dict_get _ _); cbn [fst]; [apply merge_into_name|done].
Qed.

(** What the loop maintains: names are those of the initial store, the
    dict has no key twice, and each entry is filed under the key of its
    object. *)
Definition dict_ok (h0 : gmap ref KGEntity) (st : gmap ref KGEntity * list (string * ref)) : Prop :=
  (forall r, name (st.1 !!! r) = name (h0 !!! r)) /\
  NoDup st.2.*1 /\
  (forall k r, (k, r) ∈ st.2 -> k = entity_key h0 r).

Lemma dedup_step_ok h0 st entity :
  dict_ok h0 st -> dict_ok h0 (dedup_step st entity).
Proof.
  intros (Hn & Hd & Hk). split; [|split].
  - intros r. by rewrite dedup_step_name.
  - unfold dedup_step. destruct (dict_get _ _) eqn:Hg; cbn [snd]; [done|].
    rewrite fmap_app. apply NoDup_app. split; [done|]. split.
    + intros x Hx [->|Hx']%elem_of_cons; [|by apply elem_of_nil in Hx'].
      by apply dict_get_None in Hg.
    + apply NoDup_singleton.
  - unfold dedup_step. destruct (dict_get _ _) eqn:Hg; cbn [snd]; [done|].
    intros k r [Hin|Hin]%elem_of_app; [by apply Hk|].
    apply list_elem_of_singleton in Hin as [= -> ->]. by apply entity_key_names.
Qed.

Lemma dedup_loop_ok h0 entities st :
  dict_ok h0 st -> dict_ok h0 (fold_left dedup_step entities st).
Proof.
  revert st. induction entities as [|x xs IH]; intros st Hst; [done|].
  cbn [fold_left]. by apply IH, dedup_step_ok.
Qed.

(** Running the loop over the values of a well-formed dict rebuilds that
    dict and touches nothing. *)
Lemma dedup_replay h d acc :
  NoDup (acc.*1 ++ d.*1) ->
  (forall k r, (k, r) ∈ d -> k = entity_key h r) ->
  fold_left dedup_step d.*2 (h, acc) = (h, (acc ++ d)%list).
Proof.
  revert acc. induction d as [|[k r] d IH]; intros acc Hnd Hk; cbn [fmap list_fmap fold_left snd].
  - by rewrite app_nil_r.
  - assert (Hkey : entity_key h r = k) by (symmetry; apply Hk, list_elem_of_here).
    assert (Hnone : dict_get k acc = None).
    { apply dict_get_None. apply NoDup_app in Hnd as (_ & Hdisj & _).
      intros Hin. apply (Hdisj k Hin). cbn. apply list_elem_of_here. }
    unfold dedup_step at 2; cbn [fst snd]. rewrite Hkey, Hnone.
    rewrite IH.
    + by rewrite <- app_assoc.
    + rewrite fmap_app; cbn. rewrite <- app_assoc. exact Hnd.
    + intros k' r' Hin. apply Hk. by apply list_elem_of_further.
Qed.

(** The dict the loop builds depends on the names in the store only. *)
Lemma dedup_loop_names entities h h' d :
  (forall r, name (h !!! r) = name (h' !!! r)) ->
  (fold_left dedup_step entities (h, d)).2 = (fold_left dedup_step entities (h', d)).2.
Proof.
  revert h h' d. induction entities as [|x xs IH]; intros h h' d Hn; [done|].
  cbn [fold_left]. unfold dedup_step at 2 4; cbn [fst snd].
  rewrite (entity_key_names h h' x (Hn x)).
  destruct (dict_get _ d); apply IH; [|done].
  intros r. by rewrite !merge_into_name.
Qed.

Lemma set_to_list_singleton (a : string) : set_to_list [a] = [a].
Proof.
  pose proof (set_to_list_NoDup [a]) as Hnd.
  pose proof (set_to_list_elem [a]) as Hel.
  destruct (set_to_list [a]) as [|b l].
  - exfalso. apply (elem_of_nil a). apply Hel, list_elem_of_here.
  - assert (b = a) as ->.
    { apply list_elem_of_singleton. apply Hel, list_elem_of_here. }
    destruct l as [|c l]; [done|]. exfalso.
    assert (c = a) as ->.
    { apply list_elem_of_singleton. apply Hel. apply list_elem_of_further, list_elem_of_here. }
    apply NoDup_cons in Hnd as [Hnin _]. apply Hnin, list_elem_of_here.
Qed.

End Facts.
End EntityExtractionFacts.

(** *** Merging keeps the stronger value; deduplication is idempotent *)
Module EntityExtractionSpec.
Import PyStr EntityExtraction EntityExtractionFacts.

(** The two records of the TP53 scenario, behind references 1 and 2. *)
Definition tp53_store : gmap ref KGEntity :=
  {[ 1%positive := mkEntity "TP53" "Unknown" "TP53" "N/A" [];
     2%positive := mkEntity "tp53" "Gene" "tp53" "N/A" ["p53"] ]}.

(** An existing record whose alias list repeats an alias, and an
    incoming record without aliases. *)
Definition repeated_alias_store : gmap ref KGEntity :=
  {[ 1%positive := mkEntity "TP53" "Gene" "TP53" "N/A" ["p53"; "p53"];
     2%positive := mkEntity "tp53" "Gene" "tp53" "N/A" [] ]}.

(** C6, as the code has it: when a record comes in under a key that is
    already filed, the first record filed under that key is updated in
    place and nothing else changes.  Its name and id stay; its type
    becomes the incoming one only if it was "Unknown" and the incoming
    one is not; its ontology reference becomes the incoming one only if
    it was "N/A" and the incoming one is not; its aliases are, as a set,
    the union of both alias lists, without repetition whenever the
    incoming record brings at least one alias and left as they were when
    it brings none.  Merging {TP53, Unknown} with {tp53, Gene, [p53]}
    leaves the single record {TP53, Gene, [p53]}. *)
Theorem merge_keeps_stronger_fields `{SetOrder}
    (h : gmap ref KGEntity) (d : list (string * ref))
    (existing entity : ref) (e i : KGEntity) :
  dict_get (entity_key h entity) d = Some existing ->
  h !! existing = Some e -> h !! entity = Some i ->
  let st := dedup_step (h, d) entity in
  st.2 = d /\
  (forall r, r <> existing -> st.1 !! r = h !! r) /\
  (exists e', st.1 !! existing = Some e' /\
     entity_id e' = entity_id e /\ name e' = name e /\
     entity_type e' =
       (if decide (entity_type e = "Unknown" /\ entity_type i <> "Unknown")
        then entity_type i else entity_type e) /\
     normalized_id e' =
       (if decide (normalized_id e = "N/A" /\ normalized_id i <> "N/A")
        then normalized_id i else normalized_id e) /\
     (forall a, a ∈ aliases e' <-> a ∈ aliases e \/ a ∈ aliases i) /\
     (aliases i <> [] -> NoDup (aliases e')) /\
     (aliases i = [] -> aliases e' = aliases e)) /\
  _deduplicate_entities tp53_store [1%positive; 2%positive] =
    (<[ 1%positive := mkEntity "TP53" "Gene" "TP53" "N/A" ["p53"] ]> tp53_store,
     [1%positive]).
Proof.
  intros Hd He Hi st. subst st. unfold dedup_step; cbn [fst snd]. rewrite Hd. cbn [fst snd].
  split; [done|]. split; [|split].
  - intros r Hr. by apply merge_into_lookup_ne.
  - exists (merge_values e i). split; [by apply merge_into_lookup|].
    unfold merge_values, normalized_id_value, aliases_value, type_value.
    destruct e as [eid ety ena enid eal], i as [iid ity ina inid ial]; cbn.
    repeat split.
    + destruct ial; destruct (_ && _); destruct (_ && _); reflexivity.
    + destruct ial; destruct (_ && _); destruct (_ && _); reflexivity.
    + destruct ial; (destruct (bool_decide (inid <> "N/A" ) && _));
        repeat case_bool_decide; repeat case_decide; cbn; try reflexivity; tauto.
    + destruct ial; (destruct (bool_decide (ity <> "Unknown") && _) eqn:Hty); cbn;
        repeat case_bool_decide; repeat case_decide; cbn in *; try reflexivity;
        try discriminate; tauto.
    + destruct ial; destruct (bool_decide (ity <> "Unknown") && _);
        destruct (_ && _); cbn; rewrite ?set_to_list_elem, ?elem_of_app, ?elem_of_nil; tauto.
    + destruct ial; destruct (bool_decide (ity <> "Unknown") && _);
        destruct (_ && _); cbn; rewrite ?set_to_list_elem, ?elem_of_app, ?elem_of_nil; tauto.
    + intros Hne. destruct ial; [done|].
      destruct (bool_decide (ity <> "Unknown") && _);
        destruct (_ && _); cbn; apply set_to_list_NoDup.
    + intros ->. destruct (bool_decide (ity <> "Unknown") && _);
        destruct (_ && _); reflexivity.
  - unfold _deduplicate_entities, tp53_store. cbn [fold_left].
    unfold dedup_step at 2; cbn [fst snd]. vm_compute (entity_key _ 1%positive).
    cbn [dict_get app]. unfold dedup_step; cbn [fst snd].
    vm_compute (entity_key _ 2%positive). cbn [dict_get]. rewrite decide_True by done.
    cbn [fst snd fmap list_fmap]. f_equal.
    apply map_eq; intros r.
    destruct (decide (r = 1%positive)) as [->|Hr].
    + rewrite lookup_insert_eq.
      erewrite merge_into_lookup; [|reflexivity..].
      cbv -[set_to_list]. by rewrite set_to_list_singleton.
    + rewrite lookup_insert_ne by done. by apply merge_into_lookup_ne.
Qed.

Lemma merge_keeps_stronger_fields_witness :
  let h := tp53_store in
  let st := dedup_step (h, [("tp53", 1%positive)]) 2%positive in
  st.2 = [("tp53", 1%positive)] /\
  (forall r, r <> 1%positive -> st.1 !! r = h !! r) /\
  (exists e', st.1 !! 1%positive = Some e' /\
     entity_id e' = "TP53" /\ name e' = "TP53" /\
     entity_type e' =
       (if decide ("Unknown" = "Unknown" /\ "Gene" <> "Unknown") then "Gene" else "Unknown") /\
     normalized_id e' =
       (if decide ("N/A" = "N/A" /\ "N/A" <> "N/A") then "N/A" else "N/A") /\
     (forall a, a ∈ aliases e' <-> a ∈ [] \/ a ∈ ["p53"]) /\
     (["p53"] <> [] -> NoDup (aliases e')) /\
     (["p53"] = [] -> aliases e' = [])) /\
  _deduplicate_entities tp53_store [1%positive; 2%positive] =
    (<[ 1%positive := mkEntity "TP53" "Gene" "TP53" "N/A" ["p53"] ]> tp53_store,
     [1%positive]).
Proof.
  apply (merge_keeps_stronger_fields tp53_store [("tp53", 1%positive)]
           1%positive 2%positive
           (mkEntity "TP53" "Unknown" "TP53" "N/A" [])
           (mkEntity "tp53" "Gene" "tp53" "N/A" ["p53"])).
  - vm_compute. reflexivity.
  - vm_compute. reflexivity.
  - vm_compute. reflexivity.
Defined.

(** C6 as worded fails on "duplicates removed" when the incoming record
    has no alias: the merge then skips the alias update, and a
    repetition already present in the existing list stays. *)
Lemma merge_leaves_repeated_alias :
  let r := _deduplicate_entities repeated_alias_store [1%positive; 2%positive] in
  r.2 = [1%positive] /\
  r.1 !! 1%positive = Some (mkEntity "TP53" "Gene" "TP53" "N/A" ["p53"; "p53"]).
Proof. vm_compute. split; reflexivity. Qed.

(** C8: deduplication is idempotent.  Run on its own output (in the
    store it left), [_deduplicate_entities] returns the same references
    and changes no object, so the second result equals the first, object
    by object; and run once more on the original input it returns the
    same references again. *)
Theorem deduplicate_entities_idempotent `{SetOrder}
    (h : gmap ref KGEntity) (entities : list ref) :
  let r1 := _deduplicate_entities h entities in
  let r2 := _deduplicate_entities r1.1 r1.2 in
  r2.2 = r1.2 /\ r2.1 = r1.1 /\
  (fun l => r2.1 !!! l) <$> r2.2 = (fun l => r1.1 !!! l) <$> r1.2 /\
  (_deduplicate_entities r1.1 entities).2 = r1.2.
Proof.
  intros r1 r2.
  destruct entities as [|x xs].
  { subst r2 r1. cbn. done. }
  set (st := fold_left dedup_step (x :: xs) (h, [])).
  assert (Hr1 : r1 = (st.1, st.2.*2)) by reflexivity.
  assert (Hok : dict_ok h st).
  { apply dedup_loop_ok. split; [done|]. split; [constructor|].
    intros k r Hin. by apply elem_of_nil in Hin. }
  destruct Hok as (Hn & Hd & Hk).
  assert (Hreplay : fold_left dedup_step st.2.*2 (st.1, []) = (st.1, st.2)).
  { rewrite dedup_replay; [done|done|].
    intros k r Hin. rewrite (Hk k r Hin). symmetry. by apply entity_key_names. }
  assert (Hr2 : r2 = r1).
  { subst r2. rewrite Hr1; cbn [fst snd].
    unfold _deduplicate_entities at 1. destruct (st.2.*2) eqn:Hl; [done|].
    cbv zeta. rewrite Hreplay. cbn [fst snd]. by rewrite Hl. }
  rewrite Hr2. split; [done|]. split; [done|]. split; [done|].
  rewrite Hr1; cbn [fst snd]. unfold _deduplicate_entities; cbn [snd].
  f_equal. subst st. apply dedup_loop_names. intros r. apply Hn.
Qed.

End EntityExtractionSpec.

(** ** The run record and its JSON form, [karma/core/data_structures.py] *)
Module DataStructures.

Record DocumentMetadata := mkMetadata {
  title : string;
  authors : list string;
  journal : string;
  pub_date : string;
  doi : string;
  pmid : string;
  document_type : string
}.

Record ProcessingMetrics := mkMetrics {
  prompt_tokens : Z;
  completion_tokens : Z;
  processing_time : float;
  agent_times : list (string * float);
  error_count : Z
}.

#[local] Set Warnings "-register-all".

(** What an attribute can hold at run time: JSON-shaped data (dict keys
    are strings, in insertion order) and instances of the four
    dataclasses. *)
Inductive pyval :=
  | PyNone
  | PyBool (b : bool)
  | PyInt (z : Z)
  | PyFloat (f : float)
  | PyStr (s : string)
  | PyList (xs : list pyval)
  | PyDict (kvs : list (string * pyval))
  | PyTriple (t : KnowledgeTriple)
  | PyEntity (e : KGEntity)
  | PyMetadata (m : DocumentMetadata)
  | PyMetrics (m : ProcessingMetrics).

(** [IntermediateOutput]: the annotations of the dataclass are not
    enforced, and [load_from_file] assigns whatever the file holds, so
    each attribute is a Python value. *)
Record IntermediateOutput := mkOutput {
  raw_text : pyval;
  metadata : pyval;
  segments : pyval;
  relevant_segments : pyval;
  summaries : pyval;
  entities : pyval;
  relationships : pyval;
  aligned_entities : pyval;
  aligned_triples : pyval;
  final_triples : pyval;
  integrated_triples : pyval;
  metrics : pyval
}.

Definition ProcessingMetrics_new : ProcessingMetrics := mkMetrics 0 0 0%float [] 0.
Definition DocumentMetadata_new : DocumentMetadata :=
  mkMetadata "Unknown Title" [] "Unknown Journal" "N/A" "N/A" "N/A" "article".

(** [IntermediateOutput()] *)
Definition IntermediateOutput_new : IntermediateOutput :=
  mkOutput (PyStr "") PyNone (PyList []) (PyList []) (PyList []) (PyList []) (PyList [])
           (PyList []) (PyList []) (PyList []) (PyList []) (PyMetrics ProcessingMetrics_new).

(** *** [dataclasses.asdict] *)

Definition KnowledgeTriple_asdict (t : KnowledgeTriple) : list (string * pyval) :=
  [ ("head", PyStr (head t)); ("relation", PyStr (relation t)); ("tail", PyStr (tail t));
    ("confidence", PyFloat (confidence t)); ("source", PyStr (source t));
    ("relevance", PyFloat (relevance t)); ("clarity", PyFloat (clarity t)) ].

Definition KGEntity_asdict (e : KGEntity) : list (string * pyval) :=
  [ ("entity_id", PyStr (entity_id e)); ("entity_type", PyStr (entity_type e));
    ("name", PyStr (name e)); ("normalized_id", PyStr (normalized_id e));
    ("aliases", PyList (PyStr <$> aliases e)) ].

Definition DocumentMetadata_asdict (m : DocumentMetadata) : list (string * pyval) :=
  [ ("title", PyStr (title m)); ("authors", PyList (PyStr <$> authors m));
    ("journal", PyStr (journal m)); ("pub_date", PyStr (pub_date m));
    ("doi", PyStr (doi m)); ("pmid", PyStr (pmid m));
    ("document_type", PyStr (document_type m)) ].

Definition ProcessingMetrics_asdict (m : ProcessingMetrics) : list (string * pyval) :=
  [ ("prompt_tokens", PyInt (prompt_tokens m));
    ("completion_tokens", PyInt (completion_tokens m));
    ("processing_time", PyFloat (processing_time m));
    ("agent_times", PyDict ((fun kv => (kv.1, PyFloat kv.2)) <$> agent_times m));
    ("error_count", PyInt (error_count m)) ].

(** [_asdict_inner]: dataclass instances become dicts, lists and dicts
    are rebuilt element by element, everything else is copied. *)
Fixpoint asdict_inner (v : pyval) : pyval :=
  match v with
  | PyList xs => PyList (List.map asdict_inner xs)
  | PyDict kvs => PyDict (List.map (fun kv => let '(k, x) := kv in (k, asdict_inner x)) kvs)
  | PyTriple t => PyDict (KnowledgeTriple_asdict t)
  | PyEntity e => PyDict (KGEntity_asdict e)
  | PyMetadata m => PyDict (DocumentMetadata_asdict m)
  | PyMetrics m => PyDict (ProcessingMetrics_asdict m)
  | _ => v
  end.

(** [asdict(self).items()] for the run record. *)
Definition IntermediateOutput_asdict (r : IntermediateOutput) : list (string * pyval) :=
  [ ("raw_text", asdict_inner (raw_text r)); ("metadata", asdict_inner (metadata r));
    ("segments", asdict_inner (segments r));
    ("relevant_segments", asdict_inner (relevant_segments r));
    ("summaries", asdict_inner (summaries r)); ("entities", asdict_inner (entities r));
    ("relationships", asdict_inner (relationships r));
    ("aligned_entities", asdict_inner (aligned_entities r));
    ("aligned_triples", asdict_inner (aligned_triples r));
    ("final_triples", asdict_inner (final_triples r));
    ("integrated_triples", asdict_inner (integrated_triples r));
    ("metrics", asdict_inner (metrics r)) ].

(** *** [IntermediateOutput.to_dict] *)

(** [hasattr(x, 'to_dict')] and [x.to_dict()]; the latter raises on a
    value without the method. *)
Definition has_to_dict (v : pyval) : bool :=
  match v with
  | PyTriple _ | PyEntity _ | PyMetadata _ | PyMetrics _ => true
  | _ => false
  end.

Definition item_to_dict (v : pyval) : option pyval :=
  if has_to_dict v then Some (asdict_inner v) else None.

(** The body of the loop of [to_dict], for one [(key, value)]. *)
Definition to_dict_value (value : pyval) : option pyval :=
  match value with
  | PyList (first :: _ as items) =>
      if has_to_dict first then PyList <$> mapM item_to_dict items else Some value
  | _ => Some value
  end.

Definition to_dict (r : IntermediateOutput) : option pyval :=
  PyDict <$> mapM (fun kv => (fun v => (kv.1, v)) <$> to_dict_value kv.2)
                  (IntermediateOutput_asdict r).

(** *** [json.dump] followed by [json.load]

    JSON text carries null, booleans, numbers (integers and floats stay
    apart, and a float is printed so that it reads back as itself),
    strings, arrays and objects with string keys; [json.dump] raises on
    anything else.  Writing a value and reading it back therefore gives
    the value itself when it has no dataclass instance in it. *)
Fixpoint json_serializable (v : pyval) : bool :=
  match v with
  | PyList xs => forallb json_serializable xs
  | PyDict kvs => forallb (fun kv => let '(_, x) := kv in json_serializable x) kvs
  | PyTriple _ | PyEntity _ | PyMetadata _ | PyMetrics _ => false
  | _ => true
  end.

Definition json_dump_load (v : pyval) : option pyval :=
  if json_serializable v then Some v else None.

(** [save_to_file]: the content of the file, as [json.load] reads it. *)
Definition save_to_file (r : IntermediateOutput) : option pyval :=
  to_dict r ≫= json_dump_load.

(** *** The constructors called with a dict as keyword arguments

    A keyword that is not a field, or a missing field without default,
    raises [TypeError].  The records here are typed, so a value of
    another type than the annotated one is refused as well. *)

Fixpoint kw_get (key : string) (kvs : list (string * pyval)) : option pyval :=
  match kvs with
  | [] => None
  | (k, v) :: rest => if decide (k = key) then Some v else kw_get key rest
  end.

Definition kw_only (fields : list string) (kvs : list (string * pyval)) : bool :=
  forallb (fun kv => bool_decide (kv.1 ∈ fields)) kvs.

Definition as_str (v : pyval) : option string :=
  match v with PyStr s => Some s | _ => None end.
Definition as_float (v : pyval) : option float :=
  match v with PyFloat f => Some f | _ => None end.
Definition as_int (v : pyval) : option Z :=
  match v with PyInt z => Some z | _ => None end.
Definition as_str_list (v : pyval) : option (list string) :=
  match v with PyList xs => mapM as_str xs | _ => None end.
Definition as_float_dict (v : pyval) : option (list (string * float)) :=
  match v with
  | PyDict kvs => mapM (fun kv => (fun f => (kv.1, f)) <$> as_float kv.2) kvs
  | _ => None
  end.

(** A keyword argument with a default. *)
Definition kw_default {A} (dec : pyval -> option A) (key : string) (d : A)
    (kvs : list (string * pyval)) : option A :=
  match kw_get key kvs with
  | Some v => dec v
  | None => Some d
  end.

Definition KnowledgeTriple_from_dict (data : pyval) : option KnowledgeTriple :=
  match data with
  | PyDict kvs =>
      if kw_only ["head"; "relation"; "tail"; "confidence"; "source"; "relevance"; "clarity"] kvs
      then
        h ← kw_get "head" kvs ≫= as_str;
        r ← kw_get "relation" kvs ≫= as_str;
        t ← kw_get "tail" kvs ≫= as_str;
        c ← kw_default as_float "confidence" 0%float kvs;
        s ← kw_default as_str "source" "unknown" kvs;
        rl ← kw_default as_float "relevance" 0%float kvs;
        cl ← kw_default as_float "clarity" 0%float kvs;
        Some (mkTriple h r t c s rl cl)
      else None
  | _ => None
  end.

Definition KGEntity_from_dict (data : pyval) : option KGEntity :=
  match data with
  | PyDict kvs =>
      if kw_only ["entity_id"; "entity_type"; "name"; "normalized_id"; "aliases"] kvs
      then
        i ← kw_get "entity_id" kvs ≫= as_str;
        ty ← kw_default as_str "entity_type" "Unknown" kvs;
        n ← kw_default as_str "name" "" kvs;
        nid ← kw_default as_str "normalized_id" "N/A" kvs;
        al ← kw_default as_str_list "aliases" [] kvs;
        Some (mkEntity i ty n nid al)
      else None
  | _ => None
  end.

Definition DocumentMetadata_from_kwargs (data : pyval) : option DocumentMetadata :=
  match data with
  | PyDict kvs =>
      if kw_only ["title"; "authors"; "journal"; "pub_date"; "doi"; "pmid"; "document_type"] kvs
      then
        t ← kw_default as_str "title" "Unknown Title" kvs;
        a ← kw_default as_str_list "authors" [] kvs;
        j ← kw_default as_str "journal" "Unknown Journal" kvs;
        p ← kw_default as_str "pub_date" "N/A" kvs;
        d ← kw_default as_str "doi" "N/A" kvs;
        pm ← kw_default as_str "pmid" "N/A" kvs;
        dt ← kw_default as_str "document_type" "article" kvs;
        Some (mkMetadata t a j p d pm dt)
      else None
  | _ => None
  end.

Definition ProcessingMetrics_from_kwargs (data : pyval) : option ProcessingMetrics :=
  match data with
  | PyDict kvs =>
      if kw_only ["prompt_tokens"; "completion_tokens"; "processing_time";
                  "agent_times"; "error_count"] kvs
      then
        p ← kw_default as_int "prompt_tokens" 0%Z kvs;
        c ← kw_default as_int "completion_tokens" 0%Z kvs;
        t ← kw_default as_float "processing_time" 0%float kvs;
        a ← kw_default as_float_dict "agent_times" [] kvs;
        e ← kw_default as_int "error_count" 0%Z kvs;
        Some (mkMetrics p c t a e)
      else None
  | _ => None
  end.

(** *** [IntermediateOutput.load_from_file] *)

(** Python truth value of the data a JSON file can hold. *)
Definition truthy (v : pyval) : bool :=
  match v with
  | PyNone => false
  | PyBool b => b
  | PyInt z => negb (z =? 0)%Z
  | PyFloat f => negb (f =? 0)%float
  | PyStr s => negb (bool_decide (s = ""))
  | PyList xs => negb (bool_decide (xs = []))
  | PyDict kvs => negb (bool_decide (kvs = []))
  | _ => true
  end.

(** [[f(item) for item in value]] over a JSON array. *)
Definition comprehension {A} (f : pyval -> option A) (inj : A -> pyval) (value : pyval)
    : option pyval :=
  match value with
  | PyList items => (fun xs => PyList (inj <$> xs)) <$> mapM f items
  | _ => None
  end.

(** [setattr(instance, key, value)]; a key that is not a field adds an
    attribute that no field, and so no comparison, sees. *)
Definition setattr (r : IntermediateOutput) (key : string) (v : pyval) : IntermediateOutput :=
  if decide (key = "raw_text") then
    mkOutput v (metadata r) (segments r) (relevant_segments r) (summaries r) (entities r)
      (relationships r) (aligned_entities r) (aligned_triples r) (final_triples r)
      (integrated_triples r) (metrics r)
  else if decide (key = "metadata") then
    mkOutput (raw_text r) v (segments r) (relevant_segments r) (summaries r) (entities r)
      (relationships r) (aligned_entities r) (aligned_triples r) (final_triples r)
      (integrated_triples r) (metrics r)
  else if decide (key = "segments") then
    mkOutput (raw_text r) (metadata r) v (relevant_segments r) (summaries r) (entities r)
      (relationships r) (aligned_entities r) (aligned_triples r) (final_triples r)
      (integrated_triples r) (metrics r)
  else if decide (key = "relevant_segments") then
    mkOutput (raw_text r) (metadata r) (segments r) v (summaries r) (entities r)
      (relationships r) (aligned_entities r) (aligned_triples r) (final_triples r)
      (integrated_triples r) (metrics r)
  else if decide (key = "summaries") then
    mkOutput (raw_text r) (metadata r) (segments r) (relevant_segments r) v (entities r)
      (relationships r) (aligned_entities r) (aligned_triples r) (final_triples r)
      (integrated_triples r) (metrics r)
  else if decide (key = "entities") then
    mkOutput (raw_text r) (metadata r) (segments r) (relevant_segments r) (summaries r) v
      (relationships r) (aligned_entities r) (aligned_triples r) (final_triples r)
      (integrated_triples r) (metrics r)
  else if decide (key = "relationships") then
    mkOutput (raw_text r) (metadata r) (segments r) (relevant_segments r) (summaries r)
      (entities r) v (aligned_entities r) (aligned_triples r) (final_triples r)
      (integrated_triples r) (metrics r)
  else if decide (key = "aligned_entities") then
    mkOutput (raw_text r) (metadata r) (segments r) (relevant_segments r) (summaries r)
      (entities r) (relationships r) v (aligned_triples r) (final_triples r)
      (integrated_triples r) (metrics r)
  else if decide (key = "aligned_triples") then
    mkOutput (raw_text r) (metadata r) (segments r) (relevant_segments r) (summaries r)
      (entities r) (relationships r) (aligned_entities r) v (final_triples r)
      (integrated_triples r) (metrics r)
  else if decide (key = "final_triples") then
    mkOutput (raw_text r) (metadata r) (segments r) (relevant_segments r) (summaries r)
      (entities r) (relationships r) (aligned_entities r) (aligned_triples r) v
      (integrated_triples r) (metrics r)
  else if decide (key = "integrated_triples") then
    mkOutput (raw_text r) (metadata r) (segments r) (relevant_segments r) (summaries r)
      (entities r) (relationships r) (aligned_entities r) (aligned_triples r)
      (final_triples r) v (metrics r)
  else if decide (key = "metrics") then
    mkOutput (raw_text r) (metadata r) (segments r) (relevant_segments r) (summaries r)
      (entities r) (relationships r) (aligned_entities r) (aligned_triples r)
      (final_triples r) (integrated_triples r) v
  else r.

(** One iteration of the reconstruction loop. *)
Definition load_item (instance : IntermediateOutput) (key : string) (value : pyval)
    : option IntermediateOutput :=
  if bool_decide (key = "entities") && truthy value then
    setattr instance "entities" <$> comprehension KGEntity_from_dict PyEntity value
  else if bool_decide (key ∈ ["relationships"; "aligned_triples"; "final_triples";
                              "integrated_triples"]) && truthy value then
    setattr instance key <$> comprehension KnowledgeTriple_from_dict PyTriple value
  else if bool_decide (key = "metadata") && truthy value then
    (fun m => setattr instance "metadata" (PyMetadata m)) <$> DocumentMetadata_from_kwargs value
  else if bool_decide (key = "metrics") && truthy value then
    (fun m => setattr instance "metrics" (PyMetrics m)) <$> ProcessingMetrics_from_kwargs value
  else Some (setattr instance key value).

Fixpoint load_items (instance : IntermediateOutput) (items : list (string * pyval))
    : option IntermediateOutput :=
  match items with
  | [] => Some instance
  | (key, value) :: rest => load_item instance key value ≫= fun i => load_items i rest
  end.

(** [load_from_file], from the content [json.load] returns. *)
Definition load_from_file (data : pyval) : option IntermediateOutput :=
  match data with
  | PyDict items => load_items IntermediateOutput_new items
  | _ => None
  end.

End DataStructures.

(** *** Writing a run record and reading it back *)
Module DataStructuresSpec.
Import DataStructures.

Definition aspirin : KGEntity :=
  mkEntity "Aspirin" "Drug" "Aspirin" "MESH:D001241" ["acetylsalicylic acid"].

Definition aspirin_treats : KnowledgeTriple :=
  mkTriple "Aspirin" "treats" "headache" 0.9 "relationship_extraction" 0.7 0.8.

(** A run record whose only non-default attribute is [aligned_entities]. *)
Definition record_aligned : IntermediateOutput :=
  setattr IntermediateOutput_new "aligned_entities" (PyList [PyEntity aspirin]).

(** The same entity and a triple in every stage list that
    [load_from_file] rebuilds. *)
Definition record_rebuilt : IntermediateOutput :=
  mkOutput (PyStr "Aspirin treats headache.") (PyMetadata DocumentMetadata_new)
    (PyList [PyDict [("text", PyStr "Aspirin treats headache."); ("score", PyFloat 0.9)]])
    (PyList []) (PyList [PyStr "Aspirin treats headache."])
    (PyList [PyEntity aspirin]) (PyList [PyTriple aspirin_treats])
    (PyList []) (PyList [PyTriple aspirin_treats]) (PyList [PyTriple aspirin_treats])
    (PyList [PyTriple aspirin_treats])
    (PyMetrics (mkMetrics 120 45 1.5 [("reader", 1.5%float)] 0)).

(** C7 fails on the code: a run record with a non-empty
    [aligned_entities] list is written without error, and reading the
    file back succeeds, but the list comes back as a list of plain
    dicts, not of entities, so the record read is not the record
    written.  The branch of [load_from_file] that rebuilds [entities]
    has no counterpart for [aligned_entities]: the same entity under
    [entities], and triples under the four triple lists, do come
    back. *)
Theorem load_from_file_aligned_entities_not_rebuilt :
  (exists file r',
      save_to_file record_aligned = Some file /\
      load_from_file file = Some r' /\
      aligned_entities record_aligned = PyList [PyEntity aspirin] /\
      aligned_entities r' = PyList [PyDict (KGEntity_asdict aspirin)] /\
      r' <> record_aligned) /\
  save_to_file record_rebuilt ≫= load_from_file = Some record_rebuilt.
Proof.
  split.
  - eexists _, _. split; [vm_compute; reflexivity|].
    split; [vm_compute; reflexivity|].
    split; [reflexivity|]. split; [reflexivity|].
    intros Heq. apply (f_equal aligned_entities) in Heq. vm_compute in Heq. discriminate.
  - vm_compute. reflexivity.
Qed.

End DataStructuresSpec.

(** ** The order of binary64 numbers

    [<], [<=] on floats, NaN and infinities included: the comparison of
    [SpecFloat] is the lexicographic comparison of a key. *)
Module FloatOrder.
Import Lia.
#[local] Open Scope Z_scope.

(** Sign class first, then exponent and mantissa (negated for negative
    numbers); NaN has no key. *)
Definition key (x : spec_float) : option (Z * Z * Z) :=
  match x with
  | S754_nan => None
  | S754_zero _ => Some (0, 0, 0)
  | S754_infinity s => Some (if s then -2 else 2, 0, 0)
  | S754_finite s m e => Some (if s then (-1, - e, - Zpos m) else (1, e, Zpos m))
  end.

Definition lex_lt (a b : Z * Z * Z) : Prop :=
  a.1.1 < b.1.1 \/ (a.1.1 = b.1.1 /\ (a.1.2 < b.1.2 \/ (a.1.2 = b.1.2 /\ a.2 < b.2))).

Definition lex_cmp (a b : Z * Z * Z) : comparison :=
  match a.1.1 ?= b.1.1 with
  | Eq => match a.1.2 ?= b.1.2 with
          | Eq => a.2 ?= b.2
          | c => c
          end
  | c => c
  end.

Lemma lex_cmp_spec (a b : Z * Z * Z) :
  match lex_cmp a b with
  | Lt => lex_lt a b
  | Eq => a = b
  | Gt => lex_lt b a
  end.
Proof.
  destruct a as [[a1 a2] a3], b as [[b1 b2] b3]. unfold lex_cmp, lex_lt; cbn [fst snd].
  destruct (Z.compare_spec a1 b1); [|lia|lia].
  destruct (Z.compare_spec a2 b2); [|lia|lia].
  destruct (Z.compare_spec a3 b3); [congruence|lia|lia].
Qed.

Lemma SFcompare_key (x y : spec_float) :
  SFcompare x y =
  match key x, key y with
  | Some a, Some b => Some (lex_cmp a b)
  | _, _ => None
  end.
Proof.
  destruct x as [sx|sx| |sx mx ex], y as [sy|sy| |sy my ey]; cbn [SFcompare key];
    try reflexivity;
    try (destruct sx; reflexivity); try (destruct sy; reflexivity);
    try (destruct sx, sy; reflexivity).
  destruct sx, sy; unfold lex_cmp; cbn [fst snd]; try reflexivity.
  rewrite !Z.compare_opp, (Z.compare_antisym ex ey).
  destruct (ex ?= ey); cbn [CompOpp]; try reflexivity.
  rewrite Pos.compare_cont_spec.
    change (Z.pos my ?= Z.pos mx) with (my ?= mx)%positive.
    rewrite (Pos.compare_antisym mx my).
    destruct (mx ?= my)%positive; reflexivity.
Qed.

Lemma leb_key (x y : float) :
  (x <=? y)%float = true <->
  exists a b, key (Prim2SF x) = Some a /\ key (Prim2SF y) = Some b /\ ~ lex_lt b a.
Proof.
  rewrite leb_spec. unfold SFleb. rewrite SFcompare_key.
  destruct (key (Prim2SF x)) as [a|], (key (Prim2SF y)) as [b|];
    try (split; [discriminate|intros (? & ? & ? & ? & ?); discriminate]).
  pose proof (lex_cmp_spec a b) as Hs.
  assert (Hirr : forall c, ~ lex_lt c c) by (intros c; unfold lex_lt; lia).
  assert (Hasym : lex_lt a b -> ~ lex_lt b a) by (unfold lex_lt; lia).
  split.
  - intros Hc. exists a, b. repeat split.
    destruct (lex_cmp a b); [subst; apply Hirr|now apply Hasym|discriminate].
  - intros (a' & b' & [= <-] & [= <-] & Hn).
    destruct (lex_cmp a b); [reflexivity|reflexivity|contradiction].
Qed.

Lemma ltb_key (x y : float) :
  (x <? y)%float = true <->
  exists a b, key (Prim2SF x) = Some a /\ key (Prim2SF y) = Some b /\ lex_lt a b.
Proof.
  rewrite ltb_spec. unfold SFltb. rewrite SFcompare_key.
  destruct (key (Prim2SF x)) as [a|], (key (Prim2SF y)) as [b|];
    try (split; [discriminate|intros (? & ? & ? & ? & ?); discriminate]).
  pose proof (lex_cmp_spec a b) as Hs.
  assert (Hirr : forall c, ~ lex_lt c c) by (intros c; unfold lex_lt; lia).
  assert (Hasym : lex_lt b a -> ~ lex_lt a b) by (unfold lex_lt; lia).
  split.
  - intros Hc. exists a, b. repeat split.
    destruct (lex_cmp a b); [discriminate|assumption|discriminate].
  - intros (a' & b' & [= <-] & [= <-] & Hn).
    destruct (lex_cmp a b); [subst; now apply Hirr in Hn|reflexivity|now apply Hasym in Hs].
Qed.

Lemma lex_total (a b : Z * Z * Z) : lex_lt a b \/ a = b \/ lex_lt b a.
Proof.
  pose proof (lex_cmp_spec a b). destruct (lex_cmp a b); tauto.
Qed.

Lemma lex_lt_trans (a b c : Z * Z * Z) : lex_lt a b -> lex_lt b c -> lex_lt a c.
Proof. unfold lex_lt. lia. Qed.

Lemma lex_lt_irrefl (a : Z * Z * Z) : ~ lex_lt a a.
Proof. unfold lex_lt. lia. Qed.

(** [<=] on floats is transitive. *)
Lemma leb_trans (x y z : float) :
  (x <=? y)%float = true -> (y <=? z)%float = true -> (x <=? z)%float = true.
Proof.
  rewrite !leb_key. intros (a & b & Ha & Hb & Hab) (b' & c & Hb' & Hc & Hbc).
  rewrite Hb in Hb'. injection Hb' as <-. exists a, c. repeat split; try assumption.
  intros Hca.
  destruct (lex_total a b) as [H|[H|H]]; [|subst|contradiction].
  - apply Hbc. now apply (lex_lt_trans c a b).
  - contradiction.
Qed.

Lemma ltb_irrefl (x : float) : (x <? x)%float = false.
Proof.
  destruct (x <? x)%float eqn:H; [|reflexivity].
  apply ltb_key in H as (a & b & Ha & Hb & Hlt). rewrite Ha in Hb. injection Hb as <-.
  now apply lex_lt_irrefl in Hlt.
Qed.

(** If [c] beats [a], and [b] does not beat [a], then [b] does not beat
    [c]; NaN beats nothing. *)
Lemma ltb_false_upgrade (a b c : float) :
  (a <? c)%float = true -> (a <? b)%float = false -> (c <? b)%float = false.
Proof.
  intros Hac Hab. destruct (c <? b)%float eqn:Hcb; [|reflexivity].
  apply ltb_key in Hac as (ka & kc & Ha & Hc & Hlt1).
  apply ltb_key in Hcb as (kc' & kb & Hc' & Hb & Hlt2).
  rewrite Hc in Hc'. injection Hc' as <-.
  assert (Habt : (a <? b)%float = true).
  { apply ltb_key. exists ka, kb. repeat split; try assumption.
    now apply (lex_lt_trans ka kc kb). }
  congruence.
Qed.

End FloatOrder.

(** ** Python builtins used by the agents *)
Module PyBuiltins.

(** [sub in s] on strings. *)
Fixpoint contains (sub s : string) : bool :=
  String.prefix sub s ||
  match s with
  | EmptyString => false
  | String _ r => contains sub r
  end.

(** [max(a, b)] and [min(a, b)] on two floats: the first argument,
    unless the second is greater (smaller). *)
Definition py_max (a b : float) : float := if (a <? b)%float then b else a.
Definition py_min (a b : float) : float := if (b <? a)%float then b else a.

End PyBuiltins.

(** ** More on the quality gate, [karma/agents/evaluator/agent.py] *)
Module EvaluatorGate.
Import Evaluator EvaluatorFacts.

Lemma filter_filter_same {A} (f : A -> bool) (l : list A) :
  List.filter f (List.filter f l) = List.filter f l.
Proof.
  induction l as [|x xs IH]; [reflexivity|]. cbn [List.filter].
  destruct (f x) eqn:Hx; [cbn [List.filter]; rewrite Hx, IH; reflexivity|exact IH].
Qed.

Lemma filter_sublist_imp {A} (f g : A -> bool) (l : list A) :
  (forall x, f x = true -> g x = true) -> sublist (List.filter f l) (List.filter g l).
Proof.
  intros Himp. induction l as [|x xs IH]; [constructor|]. cbn [List.filter].
  destruct (f x) eqn:Hx.
  - rewrite (Himp x Hx). by constructor.
  - destruct (g x); [by constructor|exact IH].
Qed.

(** The store after the gate has run over a list whose elements are all
    candidates of an earlier run: the earlier result. *)
Lemma gate_store_again (cands sub : list ref) (h : gmap ref KnowledgeTriple) :
  (forall l, l ∈ sub -> l ∈ cands) ->
  gate_store sub (gate_store cands h) = gate_store cands h.
Proof.
  intros Hsub. apply map_eq; intros j.
  destruct (decide (j ∈ sub)) as [Hj|Hj].
  - rewrite (gate_store_in sub _ j Hj), (gate_store_in cands h j (Hsub j Hj)).
    apply normalized_fmap_idem.
  - by apply gate_store_notin.
Qed.

Lemma finalize_triples_eq (thr : float) (h : gmap ref KnowledgeTriple) (cands : list ref) :
  finalize_triples thr h cands =
  (gate_store cands h,
   (List.filter (fun l => (thr <=? _aggregate_scores (gate_store cands h !!! l))%float) cands,
    0%Z, 0%Z, 0%float)).
Proof.
  unfold finalize_triples. by rewrite finalize_fold_store, finalize_fold_list.
Qed.

(** X1: the gate is idempotent.  Running [finalize_triples] again, on
    the list it returned and the objects as it left them, returns the
    same list and changes no object. *)
Theorem finalize_triples_idempotent
    (thr : float) (h : gmap ref KnowledgeTriple) (cands : list ref) :
  let r := finalize_triples thr h cands in
  finalize_triples thr r.1 r.2.1.1.1 = r.
Proof.
  cbn zeta. rewrite (finalize_triples_eq thr h cands). cbn [fst snd].
  rewrite finalize_triples_eq.
  rewrite gate_store_again, filter_filter_same; [reflexivity|].
  intros l Hin. by apply elem_of_bool_filter in Hin as [? _].
Qed.

(** X2: raising the threshold only removes triples.  With the same
    candidates and objects, the list admitted at the higher threshold is
    a sub-list of the list admitted at the lower one, and the objects are
    left in the same state whatever the threshold. *)
Theorem finalize_triples_threshold_monotone
    (thr1 thr2 : float) (h : gmap ref KnowledgeTriple) (cands : list ref) :
  (thr1 <=? thr2)%float = true ->
  sublist (finalize_triples thr2 h cands).2.1.1.1 (finalize_triples thr1 h cands).2.1.1.1 /\
  (finalize_triples thr2 h cands).1 = (finalize_triples thr1 h cands).1.
Proof.
  intros Hle. unfold finalize_triples; cbn [fst snd].
  rewrite !finalize_fold_store, !finalize_fold_list. cbn [app]. split; [|reflexivity].
  apply filter_sublist_imp. intros l H2. by apply (FloatOrder.leb_trans _ thr2).
Qed.

Definition strong_triple : KnowledgeTriple :=
  mkTriple "aspirin" "treats" "headache" 0.9 "unknown" 0.9 0.9.
Definition fair_triple : KnowledgeTriple :=
  mkTriple "aspirin" "inhibits" "cox-1" 0.7 "unknown" 0.7 0.7.

Lemma finalize_triples_threshold_monotone_witness :
  let h : gmap ref KnowledgeTriple := {[ 1%positive := strong_triple; 2%positive := fair_triple ]} in
  sublist (finalize_triples 0.8 h [1%positive; 2%positive]).2.1.1.1
          (finalize_triples 0.6 h [1%positive; 2%positive]).2.1.1.1 /\
  (finalize_triples 0.8 h [1%positive; 2%positive]).1
    = (finalize_triples 0.6 h [1%positive; 2%positive]).1.
Proof.
  apply (finalize_triples_threshold_monotone 0.6 0.8). reflexivity.
Defined.

(** X3: no candidate leaves the gate with a sub-score that is <= 0:
    whatever the threshold, and whether the triple is admitted or not,
    the object behind each candidate reference ends with confidence,
    clarity and relevance that all fail the test [<= 0]. *)
Theorem finalize_triples_no_unset_score
    (thr : float) (h : gmap ref KnowledgeTriple) (cands : list ref) (l : ref) :
  l ∈ cands -> is_Some (h !! l) ->
  exists t', (finalize_triples thr h cands).1 !! l = Some t' /\
    (confidence t' <=? 0)%float = false /\
    (clarity t' <=? 0)%float = false /\
    (relevance t' <=? 0)%float = false.
Proof.
  intros Hin [t Ht]. exists (normalized t). split.
  - unfold finalize_triples; cbn [fst]. rewrite finalize_fold_store.
    by rewrite (gate_store_in cands h l Hin), Ht.
  - destruct t as [hd r tl c s rl cl]. unfold normalized; cbn.
    destruct (c <=? 0)%float eqn:Hc; cbn; destruct (cl <=? 0)%float eqn:Hcl; cbn;
      destruct (rl <=? 0)%float eqn:Hrl; cbn; repeat split; assumption || reflexivity.
Qed.

Definition unscored_triple : KnowledgeTriple := KnowledgeTriple_new "aspirin" "treats" "headache".

Lemma finalize_triples_no_unset_score_witness :
  exists t', (finalize_triples 0.6 {[ 1%positive := unscored_triple ]} [1%positive]).1 !! 1%positive
             = Some t' /\
    (confidence t' <=? 0)%float = false /\
    (clarity t' <=? 0)%float = false /\
    (relevance t' <=? 0)%float = false.
Proof.
  apply (finalize_triples_no_unset_score 0.6 {[ 1%positive := unscored_triple ]}
           [1%positive] 1%positive).
  - apply list_elem_of_here.
  - exists unscored_triple. apply lookup_singleton_eq.
Defined.

End EvaluatorGate.

(** ** More on the conflict resolver, [karma/agents/conflict_resolution/agent.py] *)
Module ConflictResolutionOrder.
Import PyStr ConflictResolution ConflictResolutionFacts.

(** The labels that occur in [contradiction_pairs]. *)
Definition conflict_labels : list string :=
  [ "treats"; "causes"; "inhibits"; "activates";
    "increases"; "decreases"; "upregulates"; "downregulates" ].

Lemma contradiction_pairs_elem (a b : string) :
  (a, b) ∈ contradiction_pairs <->
  (a = "treats" /\ b = "causes") \/ (a = "inhibits" /\ b = "activates") \/
  (a = "increases" /\ b = "decreases") \/ (a = "upregulates" /\ b = "downregulates").
Proof.
  unfold contradiction_pairs. rewrite !elem_of_union, !elem_of_singleton.
  split.
  - intros [[[H|H]|H]|H]; injection H as -> ->; tauto.
  - intros [[-> ->]|[[-> ->]|[[-> ->]|[-> ->]]]]; tauto.
Qed.

Lemma contradiction_pairs_labels (a b : string) :
  (a, b) ∈ contradiction_pairs -> a ∈ conflict_labels /\ b ∈ conflict_labels /\ a <> b.
Proof.
  rewrite contradiction_pairs_elem. unfold conflict_labels.
  intros [[-> ->]|[[-> ->]|[[-> ->]|[-> ->]]]]; (split; [|split]); try discriminate;
    rewrite !elem_of_cons; tauto.
Qed.

Lemma contradicts_labels (e n : KnowledgeTriple) :
  contradicts e n = true ->
  relation e ∈ conflict_labels /\ relation n ∈ conflict_labels /\ relation e <> relation n.
Proof.
  unfold contradicts. cbn [fst snd]. rewrite !andb_true_iff, orb_true_iff, !bool_decide_eq_true.
  intros [_ [H|H]]; apply contradiction_pairs_labels in H; intuition congruence.
Qed.

Lemma filter_all {A} (f : A -> bool) (l : list A) :
  (forall x, x ∈ l -> f x = true) -> List.filter f l = l.
Proof.
  induction l as [|x xs IH]; intros H; [reflexivity|]. cbn [List.filter].
  rewrite (H x) by apply list_elem_of_here. f_equal. apply IH.
  intros y Hy. apply H. by apply list_elem_of_further.
Qed.

(** X4: the contradiction test is symmetric and irreflexive.  Which of
    the two triples plays the accepted one does not matter, a triple never
    contradicts itself, and two triples that contradict each other carry
    two different labels out of the eight of the table. *)
Theorem contradicts_symmetric_irreflexive :
  (forall a b, contradicts a b = contradicts b a) /\
  (forall t, contradicts t t = false) /\
  (forall a b, contradicts a b = true ->
     lower (head a) = lower (head b) /\ lower (tail a) = lower (tail b) /\
     relation a ∈ conflict_labels /\ relation b ∈ conflict_labels /\ relation a <> relation b).
Proof.
  split; [|split].
  - intros a b. unfold contradicts. cbn [fst snd].
    rewrite (bool_decide_ext (lower (head a) = lower (head b)) (lower (head b) = lower (head a)))
      by (split; congruence).
    rewrite (bool_decide_ext (lower (tail a) = lower (tail b)) (lower (tail b) = lower (tail a)))
      by (split; congruence).
    f_equal. apply orb_comm.
  - intros t. destruct (contradicts t t) eqn:H; [|reflexivity].
    apply contradicts_labels in H as (_ & _ & Hne). congruence.
  - intros a b H. pose proof (contradicts_labels a b H) as (Ha & Hb & Hne).
    unfold contradicts in H. rewrite !andb_true_iff, !bool_decide_eq_true in H.
    tauto.
Qed.

(** X5: resolving again changes nothing, and without accepted triples
    nothing is dropped.  The resolver applied to its own output, against
    the same accepted triples, returns that output; against an empty
    accepted list it returns the new triples as they are; and from an
    empty list of new triples it returns the empty list. *)
Theorem resolve_conflicts_idempotent (news existing : list KnowledgeTriple) :
  process (process news existing) existing = process news existing /\
  process news [] = news /\
  process [] existing = [].
Proof.
  rewrite !process_filter. split; [|split].
  - apply filter_all. intros x Hx. by apply elem_of_bool_filter in Hx as [_ ?].
  - by apply filter_all.
  - reflexivity.
Qed.

(** X6: a new triple whose label is none of the eight labels of the
    table conflicts with nothing and is always kept, whatever has been
    accepted before and whatever its confidence. *)
Theorem resolve_conflicts_keeps_other_labels
    (news existing : list KnowledgeTriple) (n : KnowledgeTriple) :
  relation n ∉ conflict_labels -> n ∈ news ->
  _find_contradiction n existing = None /\ n ∈ process news existing.
Proof.
  intros Hrel Hin.
  assert (Hnone : _find_contradiction n existing = None).
  { apply find_contradiction_None. intros e _.
    destruct (contradicts e n) eqn:H; [|reflexivity].
    apply contradicts_labels in H as (_ & Hn & _). contradiction. }
  split; [exact Hnone|].
  rewrite process_filter. apply elem_of_bool_filter. split; [exact Hin|].
  unfold keeps. by rewrite Hnone.
Qed.

Definition accepted_binding : KnowledgeTriple :=
  mkTriple "aspirin" "treats" "headache" 0.9 "unknown" 0.7 0.8.
Definition proposed_binding : KnowledgeTriple :=
  mkTriple "aspirin" "binds" "headache" 0.1 "unknown" 0.5 0.5.

Lemma resolve_conflicts_keeps_other_labels_witness :
  _find_contradiction proposed_binding [accepted_binding] = None /\
  proposed_binding ∈ process [proposed_binding] [accepted_binding].
Proof.
  apply (resolve_conflicts_keeps_other_labels [proposed_binding] [accepted_binding]
           proposed_binding).
  - unfold conflict_labels. rewrite !elem_of_cons, elem_of_nil. cbn.
    intros H. repeat (destruct H as [H|H]; [discriminate H|]). exact H.
  - apply list_elem_of_here.
Defined.

End ConflictResolutionOrder.

(** ** Loops that update the objects of a list in place *)
Module StoreLoop.
Section Loop.
Context {A : Type} `{Inhabited A}.

(** [for o in objs: o.f = g(o)], the update written as [upd]. *)
Definition for_each (upd : A -> A) (objs : list ref) (h : gmap ref A) : gmap ref A :=
  fold_left (fun h l => alter upd l h) objs h.

(** [if b(o): o.f = v] is one update of the object. *)
Lemma guarded_update (b : A -> bool) (f : A -> A) (l : ref) (h : gmap ref A) :
  (if b (h !!! l) then alter f l h else h) = alter (fun t => if b t then f t else t) l h.
Proof.
  apply map_eq; intros j. destruct (decide (l = j)) as [Heq|Hne].
  - subst j. rewrite lookup_alter_eq, lookup_total_alt.
    destruct (h !! l) as [t|] eqn:Hl; cbn [default from_option id fmap option_fmap option_map].
    + destruct (b t); [rewrite lookup_alter_eq, Hl|rewrite Hl]; reflexivity.
    + destruct (b inhabitant); [rewrite lookup_alter_eq, Hl|rewrite Hl]; reflexivity.
  - rewrite lookup_alter_ne by done.
    destruct (b (h !!! l)); [rewrite lookup_alter_ne by done|]; reflexivity.
Qed.

Lemma for_each_notin upd objs h j :
  j ∉ objs -> for_each upd objs h !! j = h !! j.
Proof.
  revert h. induction objs as [|l ls IH]; intros h Hj; [reflexivity|].
  apply not_elem_of_cons in Hj as [Hne Hj]. cbn [for_each fold_left].
  unfold for_each in IH. rewrite IH by done. by apply lookup_alter_ne.
Qed.

Lemma for_each_fixed upd objs h j :
  upd <$> h !! j = h !! j -> for_each upd objs h !! j = h !! j.
Proof.
  revert h. induction objs as [|l ls IH]; intros h Hfix; [reflexivity|].
  cbn [for_each fold_left]. unfold for_each in IH.
  destruct (decide (l = j)) as [->|Hne].
  - rewrite IH; rewrite lookup_alter_eq; [done|]. by rewrite Hfix.
  - rewrite IH; rewrite lookup_alter_ne by done; done.
Qed.

(** With an update that is idempotent, an object listed once or several
    times is updated once. *)
Lemma for_each_in upd objs h j :
  (forall a, upd (upd a) = upd a) ->
  j ∈ objs -> for_each upd objs h !! j = upd <$> h !! j.
Proof.
  intros Hidem. revert h. induction objs as [|l ls IH]; intros h Hj; [by apply elem_of_nil in Hj|].
  cbn [for_each fold_left]. unfold for_each in IH.
  destruct (decide (l = j)) as [->|Hne].
  - pose proof (for_each_fixed upd ls (alter upd j h) j) as Hf. unfold for_each in Hf.
    rewrite Hf; rewrite lookup_alter_eq; [done|].
    destruct (h !! j); cbn; [by rewrite Hidem|done].
  - apply elem_of_cons in Hj as [Hj|Hj]; [congruence|].
    rewrite IH by done. by rewrite lookup_alter_ne.
Qed.

Lemma for_each_again upd objs h :
  (forall a, upd (upd a) = upd a) ->
  for_each upd objs (for_each upd objs h) = for_each upd objs h.
Proof.
  intros Hidem. apply map_eq; intros j. destruct (decide (j ∈ objs)) as [Hj|Hj].
  - rewrite !(for_each_in upd objs _ j Hidem Hj).
    destruct (h !! j); cbn; [by rewrite Hidem|done].
  - by rewrite !for_each_notin.
Qed.

End Loop.
End StoreLoop.

(** ** Schema alignment, [karma/agents/schema_alignment/agent.py]

    Entities and triples are objects that the aligner updates in place;
    the lists it returns are the lists it was given.  Names are read as
    in [PyStr]: [isupper] and [len] see the ASCII letters and the bytes
    of a name. *)
Module SchemaAligner.
Import PyStr PyBuiltins SchemaAlignment StoreLoop.

Definition is_upper_ascii (c : ascii) : bool :=
  let n := nat_of_ascii c in (65 <=? n)%nat && (n <=? 90)%nat.
Definition is_lower_ascii (c : ascii) : bool :=
  let n := nat_of_ascii c in (97 <=? n)%nat && (n <=? 122)%nat.

(** [str.isupper]: no lower-case letter, and at least one upper-case
    letter. *)
Definition isupper (s : string) : bool :=
  let cs := list_ascii_of_string s in
  forallb (fun c => negb (is_lower_ascii c)) cs && existsb is_upper_ascii cs.

Definition _classify_entity_type (entity_name : string) : string :=
  let name_lower := lower entity_name in
  if existsb (fun suffix => contains suffix name_lower)
       ["mycin"; "cillin"; "statin"; "inhibitor"] then "Drug"
  else if isupper entity_name && (String.length entity_name <=? 10)%nat then "Gene"
  else if existsb (fun suffix => contains suffix name_lower)
       ["ase"; "receptor"; "protein"] then "Protein"
  else if existsb (fun keyword => contains keyword name_lower)
       ["cancer"; "disease"; "syndrome"; "disorder"] then "Disease"
  else "Chemical".

(** The loop body of [align_entities]. *)
Definition align_entity (h : gmap ref KGEntity) (l : ref) : gmap ref KGEntity :=
  if bool_decide (entity_type (h !!! l) = "Unknown")
  then alter (fun e => set_entity_type (_classify_entity_type (name (h !!! l))) e) l h
  else h.

Definition align_entities (h : gmap ref KGEntity) (entities : list ref)
    : gmap ref KGEntity * (list ref * Z * Z * float) :=
  (fold_left align_entity entities h, (entities, 0%Z, 0%Z, 0%float)).

(** The loop body of [align_relationships]. *)
Definition align_relationship (h : gmap ref KnowledgeTriple) (l : ref) : gmap ref KnowledgeTriple :=
  alter (fun t => set_relation (_normalize_relation (relation (h !!! l))) t) l h.

Definition align_relationships (h : gmap ref KnowledgeTriple) (triples : list ref)
    : gmap ref KnowledgeTriple * list ref :=
  (fold_left align_relationship triples h, triples).

(** [process]: the two stores afterwards, and the pair of lists. *)
Definition process (he : gmap ref KGEntity) (ht : gmap ref KnowledgeTriple)
    (entities relationships : list ref)
    : gmap ref KGEntity * gmap ref KnowledgeTriple * (list ref * list ref) :=
  let re := align_entities he entities in
  let aligned_entities := re.2.1.1.1 in
  let rt := align_relationships ht relationships in
  let aligned_relationships := rt.2 in
  (re.1, rt.1, (aligned_entities, aligned_relationships)).

(** What the loops do to one object. *)
Definition classified (e : KGEntity) : KGEntity :=
  if bool_decide (entity_type e = "Unknown")
  then set_entity_type (_classify_entity_type (name e)) e else e.

Definition relabelled (t : KnowledgeTriple) : KnowledgeTriple :=
  set_relation (_normalize_relation (relation t)) t.

End SchemaAligner.

Module SchemaAlignerFacts.
Import PyStr SchemaAlignment SchemaAlignmentSpec StoreLoop SchemaAligner.

Lemma lower_ascii_idem (c : ascii) : lower_ascii (lower_ascii c) = lower_ascii c.
Proof. destruct c as [[] [] [] [] [] [] [] []]; reflexivity. Qed.

Lemma lower_idem (s : string) : lower (lower s) = lower s.
Proof. induction s as [|c r IH]; cbn; [reflexivity|]. by rewrite lower_ascii_idem, IH. Qed.

(** A label either has no table entry and comes back lower-cased, or
    becomes one of the six canonical labels of the table. *)
Lemma normalize_relation_cases (label : string) :
  (synonyms !! lower label = None /\ _normalize_relation label = lower label) \/
  _normalize_relation label ∈
    ["inhibits"; "treats"; "causes"; "activates"; "associated_with"; "interacts_with"].
Proof.
  unfold _normalize_relation. rewrite synonyms_lookup.
  repeat (case_decide; [right; cbn; rewrite !elem_of_cons; tauto|]).
  left. split; reflexivity.
Qed.

Lemma normalize_relation_idem (label : string) :
  _normalize_relation (_normalize_relation label) = _normalize_relation label.
Proof.
  destruct (normalize_relation_cases label) as [[Hn ->]|Hc].
  - unfold _normalize_relation. by rewrite lower_idem, Hn.
  - rewrite !elem_of_cons, elem_of_nil in Hc.
    destruct Hc as [->|[->|[->|[->|[->|[->|[]]]]]]]; reflexivity.
Qed.

Lemma align_entity_alter (h : gmap ref KGEntity) (l : ref) :
  align_entity h l = alter classified l h.
Proof.
  unfold align_entity.
  transitivity (if bool_decide (entity_type (h !!! l) = "Unknown")
                then alter (fun e => set_entity_type (_classify_entity_type (name e)) e) l h
                else h).
  - destruct (bool_decide _); [|reflexivity].
    apply map_eq; intros j. destruct (decide (l = j)) as [<-|Hne].
    + rewrite !lookup_alter_eq, lookup_total_alt. by destruct (h !! l).
    + by rewrite !lookup_alter_ne.
  - exact (guarded_update (fun e => bool_decide (entity_type e = "Unknown"))
             (fun e => set_entity_type (_classify_entity_type (name e)) e) l h).
Qed.

Lemma align_relationship_alter (h : gmap ref KnowledgeTriple) (l : ref) :
  align_relationship h l = alter relabelled l h.
Proof.
  unfold align_relationship. apply map_eq; intros j. destruct (decide (l = j)) as [<-|Hne].
  - rewrite !lookup_alter_eq, lookup_total_alt. by destruct (h !! l).
  - by rewrite !lookup_alter_ne.
Qed.

Lemma align_entities_store h entities :
  (align_entities h entities).1 = for_each classified entities h.
Proof.
  unfold align_entities, for_each; cbn [fst]. revert h.
  induction entities as [|l ls IH]; intros h; [reflexivity|].
  cbn [fold_left]. by rewrite IH, align_entity_alter.
Qed.

Lemma align_relationships_store h triples :
  (align_relationships h triples).1 = for_each relabelled triples h.
Proof.
  unfold align_relationships, for_each; cbn [fst]. revert h.
  induction triples as [|l ls IH]; intros h; [reflexivity|].
  cbn [fold_left]. by rewrite IH, align_relationship_alter.
Qed.

Lemma classify_known (n : string) :
  _classify_entity_type n ∈ ["Drug"; "Gene"; "Protein"; "Disease"; "Chemical"].
Proof.
  unfold _classify_entity_type. cbn zeta.
  repeat (match goal with |- context [if ?b then _ else _] => destruct b end);
    rewrite !elem_of_cons; tauto.
Qed.

Lemma classify_not_unknown (n : string) : _classify_entity_type n <> "Unknown".
Proof.
  pose proof (classify_known n) as H. rewrite !elem_of_cons, elem_of_nil in H.
  intros Heq. rewrite Heq in H. intuition discriminate.
Qed.

Lemma classified_type (e : KGEntity) : entity_type (classified e) <> "Unknown".
Proof.
  unfold classified. case_bool_decide as Hu; [|exact Hu].
  apply classify_not_unknown.
Qed.

Lemma classified_idem (e : KGEntity) : classified (classified e) = classified e.
Proof.
  unfold classified at 1. rewrite bool_decide_eq_false_2; [reflexivity|apply classified_type].
Qed.

Lemma relabelled_idem (t : KnowledgeTriple) : relabelled (relabelled t) = relabelled t.
Proof. unfold relabelled. destruct t; cbn. by rewrite normalize_relation_idem. Qed.

End SchemaAlignerFacts.

(** *** What alignment does to labels, triples and entities *)
Module SchemaAlignerSpec.
Import PyStr SchemaAlignment StoreLoop SchemaAligner SchemaAlignerFacts.
Import ConflictResolution ConflictResolutionOrder.

(** X7: normalising a label twice is normalising it once, and a
    normalised label has no upper-case ASCII letter left. *)
Theorem normalize_relation_idempotent (label : string) :
  _normalize_relation (_normalize_relation label) = _normalize_relation label /\
  lower (_normalize_relation label) = _normalize_relation label.
Proof.
  split; [apply normalize_relation_idem|].
  destruct (normalize_relation_cases label) as [[_ ->]|Hc]; [apply lower_idem|].
  rewrite !elem_of_cons, elem_of_nil in Hc.
  destruct Hc as [->|[->|[->|[->|[->|[->|[]]]]]]]; reflexivity.
Qed.

(** X8: [align_relationships] rewrites the label of every listed triple
    object, in place, to the normalised form of the label it had, also
    when the list names the same object more than once; head, tail,
    scores and source stay; objects not listed are untouched; the list
    returned is the list given. *)
Theorem align_relationships_relabels
    (h : gmap ref KnowledgeTriple) (triples : list ref) (l : ref) (t : KnowledgeTriple) :
  l ∈ triples -> h !! l = Some t ->
  let r := align_relationships h triples in
  r.1 !! l = Some (mkTriple (head t) (_normalize_relation (relation t)) (tail t)
                            (confidence t) (source t) (relevance t) (clarity t)) /\
  r.2 = triples /\
  (forall j, j ∉ triples -> r.1 !! j = h !! j).
Proof.
  intros Hin Hl r. subst r. rewrite align_relationships_store.
  split; [|split].
  - by rewrite (for_each_in relabelled triples h l relabelled_idem Hin), Hl.
  - reflexivity.
  - intros j Hj. by apply for_each_notin.
Qed.

Definition treated_triple : KnowledgeTriple :=
  mkTriple "Aspirin" "Treated" "Headache" 0.9 "doc1" 0.7 0.8.

Lemma align_relationships_relabels_witness :
  let r := align_relationships {[ 1%positive := treated_triple ]} [1%positive; 1%positive] in
  r.1 !! 1%positive = Some (mkTriple "Aspirin" (_normalize_relation "Treated") "Headache"
                                     0.9 "doc1" 0.7 0.8) /\
  r.2 = [1%positive; 1%positive] /\
  (forall j, j ∉ [1%positive; 1%positive] ->
             r.1 !! j = ({[ 1%positive := treated_triple ]} : gmap ref KnowledgeTriple) !! j).
Proof.
  apply (align_relationships_relabels {[ 1%positive := treated_triple ]}
           [1%positive; 1%positive] 1%positive treated_triple).
  - apply list_elem_of_here.
  - apply lookup_singleton_eq.
Defined.

Lemma conflict_labels_fixed (r : string) :
  r ∈ conflict_labels -> _normalize_relation r = r.
Proof.
  unfold conflict_labels. rewrite !elem_of_cons, elem_of_nil.
  intros [->|[->|[->|[->|[->|[->|[->|[->|[]]]]]]]]]; reflexivity.
Qed.

(** X9: alignment leaves every contradiction in place.  Two listed
    triples that the conflict resolver's test finds contradictory are
    both left exactly as they were by [align_relationships], so the test
    still finds them contradictory afterwards. *)
Theorem align_relationships_keeps_contradictions
    (h : gmap ref KnowledgeTriple) (triples : list ref) (a b : ref) (ta tb : KnowledgeTriple) :
  a ∈ triples -> b ∈ triples -> h !! a = Some ta -> h !! b = Some tb ->
  contradicts ta tb = true ->
  let r := align_relationships h triples in
  r.1 !! a = Some ta /\ r.1 !! b = Some tb /\
  contradicts (r.1 !!! a) (r.1 !!! b) = true.
Proof.
  intros Ha Hb Hta Htb Hc r. subst r. rewrite align_relationships_store.
  pose proof (contradicts_labels ta tb Hc) as (Hla & Hlb & _).
  assert (Hfa : relabelled ta = ta).
  { unfold relabelled. rewrite (conflict_labels_fixed _ Hla). by destruct ta. }
  assert (Hfb : relabelled tb = tb).
  { unfold relabelled. rewrite (conflict_labels_fixed _ Hlb). by destruct tb. }
  assert (Ha' : for_each relabelled triples h !! a = Some ta).
  { by rewrite (for_each_in relabelled triples h a relabelled_idem Ha), Hta; cbn; rewrite Hfa. }
  assert (Hb' : for_each relabelled triples h !! b = Some tb).
  { by rewrite (for_each_in relabelled triples h b relabelled_idem Hb), Htb; cbn; rewrite Hfb. }
  split; [exact Ha'|split; [exact Hb'|]].
  by rewrite (lookup_total_correct _ _ _ Ha'), (lookup_total_correct _ _ _ Hb').
Qed.

Definition aspirin_treats_headache : KnowledgeTriple :=
  mkTriple "Aspirin" "treats" "headache" 0.9 "doc1" 0.7 0.8.
Definition aspirin_causes_headache : KnowledgeTriple :=
  mkTriple "aspirin" "causes" "Headache" 0.4 "doc2" 0.5 0.5.
Definition conflicting_store : gmap ref KnowledgeTriple :=
  {[ 1%positive := aspirin_treats_headache; 2%positive := aspirin_causes_headache ]}.

Lemma align_relationships_keeps_contradictions_witness :
  let r := align_relationships conflicting_store [1%positive; 2%positive] in
  r.1 !! 1%positive = Some aspirin_treats_headache /\
  r.1 !! 2%positive = Some aspirin_causes_headache /\
  contradicts (r.1 !!! 1%positive) (r.1 !!! 2%positive) = true.
Proof.
  apply (align_relationships_keeps_contradictions conflicting_store [1%positive; 2%positive]
           1%positive 2%positive aspirin_treats_headache aspirin_causes_headache).
  - apply list_elem_of_here.
  - apply list_elem_of_further, list_elem_of_here.
  - reflexivity.
  - reflexivity.
  - vm_compute. reflexivity.
Defined.

(** X10: after [align_entities] no listed entity is of type "Unknown".
    An entity that came in as "Unknown" has been given one of the five
    types Drug, Gene, Protein, Disease, Chemical, computed from its name;
    an entity that came in with another type is left exactly as it was;
    in both cases only the type can change.  Entities not listed are
    untouched and the list returned is the list given. *)
Theorem align_entities_classifies_unknown
    (h : gmap ref KGEntity) (entities : list ref) (l : ref) (e : KGEntity) :
  l ∈ entities -> h !! l = Some e ->
  let r := align_entities h entities in
  (exists ty, r.1 !! l = Some (mkEntity (entity_id e) ty (name e) (normalized_id e) (aliases e)) /\
     ty <> "Unknown" /\
     (entity_type e <> "Unknown" -> ty = entity_type e) /\
     (entity_type e = "Unknown" ->
        ty = _classify_entity_type (name e) /\
        ty ∈ ["Drug"; "Gene"; "Protein"; "Disease"; "Chemical"])) /\
  r.2 = (entities, 0%Z, 0%Z, 0%float) /\
  (forall j, j ∉ entities -> r.1 !! j = h !! j).
Proof.
  intros Hin Hl r. subst r. rewrite align_entities_store.
  split; [|split].
  - exists (entity_type (classified e)).
    rewrite (for_each_in classified entities h l classified_idem Hin), Hl.
    split; [|split; [apply classified_type|split]].
    + cbn. f_equal. unfold classified. destruct e; by case_bool_decide.
    + intros Hne. unfold classified. by rewrite bool_decide_eq_false_2.
    + intros Heq. unfold classified. rewrite bool_decide_eq_true_2 by done.
      split; [reflexivity|apply classify_known].
  - reflexivity.
  - intros j Hj. by apply for_each_notin.
Qed.

Definition untyped_brca1 : KGEntity := mkEntity "BRCA1" "Unknown" "BRCA1" "N/A" [].

Lemma align_entities_classifies_unknown_witness :
  let r := align_entities {[ 1%positive := untyped_brca1 ]} [1%positive] in
  (exists ty, r.1 !! 1%positive = Some (mkEntity "BRCA1" ty "BRCA1" "N/A" []) /\
     ty <> "Unknown" /\
     ("Unknown" <> "Unknown" -> ty = "Unknown") /\
     ("Unknown" = "Unknown" ->
        ty = _classify_entity_type "BRCA1" /\
        ty ∈ ["Drug"; "Gene"; "Protein"; "Disease"; "Chemical"])) /\
  r.2 = ([1%positive], 0%Z, 0%Z, 0%float) /\
  (forall j, j ∉ [1%positive] ->
             r.1 !! j = ({[ 1%positive := untyped_brca1 ]} : gmap ref KGEntity) !! j).
Proof.
  apply (align_entities_classifies_unknown {[ 1%positive := untyped_brca1 ]}
           [1%positive] 1%positive untyped_brca1).
  - apply list_elem_of_here.
  - apply lookup_singleton_eq.
Defined.

(** X11: aligning is idempotent.  [process] run again on the lists it
    returned and the objects as it left them returns the same lists and
    changes no entity and no triple. *)
Theorem align_process_idempotent
    (he : gmap ref KGEntity) (ht : gmap ref KnowledgeTriple) (entities relationships : list ref) :
  let r := SchemaAligner.process he ht entities relationships in
  SchemaAligner.process r.1.1 r.1.2 r.2.1 r.2.2 = r.
Proof.
  cbn zeta. unfold SchemaAligner.process. cbn [fst snd].
  rewrite !align_entities_store, !align_relationships_store.
  unfold align_entities, align_relationships. cbn [fst snd].
  rewrite (for_each_again classified entities he classified_idem).
  rewrite (for_each_again relabelled relationships ht relabelled_idem).
  reflexivity.
Qed.

End SchemaAlignerSpec.

(** ** More on entity deduplication, [karma/agents/entity_extraction/agent.py] *)
Module EntityDedupInvariants.
Import PyStr EntityExtraction EntityExtractionFacts.

Section Invariants.
Context `{SetOrder}.








End Invariants.



End EntityDedupInvariants.

(** ** Relationship extraction, [karma/agents/relationship_extraction/agent.py]

    [_deduplicate_relationships] reads triples and files them in a dict;
    it assigns to no attribute, so triples are passed by value. *)
Module RelationshipExtraction.
Import PyStr.

(** The f-string [head.lower()__relation.lower()__tail.lower()]. *)
Definition rel_key (rel : KnowledgeTriple) : string :=
  lower (head rel) ++ "__" ++ lower (relation rel) ++ "__" ++ lower (tail rel).

(** The dict [unique_rels], in insertion order. *)
Fixpoint rels_get (key : string) (d : list (string * KnowledgeTriple)) : option KnowledgeTriple :=
  match d with
  | [] => None
  | (k, v) :: rest => if decide (k = key) then Some v else rels_get key rest
  end.

(** [unique_rels[key] = rel]: a key already present keeps its place. *)
Fixpoint rels_set (key : string) (rel : KnowledgeTriple) (d : list (string * KnowledgeTriple))
    : list (string * KnowledgeTriple) :=
  match d with
  | [] => [(key, rel)]
  | (k, v) :: rest =>
      if decide (k = key) then (k, rel) :: rest else (k, v) :: rels_set key rel rest
  end.

(** One iteration of the loop. *)
Definition dedup_rel_step (unique_rels : list (string * KnowledgeTriple)) (rel : KnowledgeTriple)
    : list (string * KnowledgeTriple) :=
  let key := rel_key rel in
  match rels_get key unique_rels with
  | None => rels_set key rel unique_rels
  | Some existing =>
      if (confidence existing <? confidence rel)%float
      then rels_set key rel unique_rels
      else unique_rels
  end.

Definition _deduplicate_relationships (relationships : list KnowledgeTriple)
    : list KnowledgeTriple :=
  match relationships with
  | [] => []
  | _ :: _ => (fold_left dedup_rel_step relationships []).*2
  end.

End RelationshipExtraction.

Module RelationshipExtractionFacts.
Import PyStr RelationshipExtraction.

Lemma rels_get_None key d : rels_get key d = None <-> key ∉ d.*1.
Proof.
  induction d as [|[k v] d IH]; cbn.
  - split; [|done]. intros _ Hin. by apply elem_of_nil in Hin.
  - case_decide as Hk.
    + split; [discriminate|]. intros Hn. exfalso. apply Hn. subst. apply list_elem_of_here.
    + rewrite IH, not_elem_of_cons. cbn. split; [intros Hn; split; [congruence|done]|tauto].
Qed.

Lemma rels_get_Some key d v : rels_get key d = Some v -> (key, v) ∈ d.
Proof.
  induction d as [|[k w] d IH]; cbn; [discriminate|].
  case_decide as Hk.
  - intros [= ->]. subst k. apply list_elem_of_here.
  - intros Hg. by apply list_elem_of_further, IH.
Qed.

Lemma rels_set_fresh key rel d :
  rels_get key d = None -> rels_set key rel d = (d ++ [(key, rel)])%list.
Proof.
  induction d as [|[k v] d IH]; cbn; [done|].
  case_decide; [discriminate|]. intros Hg. by rewrite IH.
Qed.

(** Overwriting the entry of a key that is present: the keys and their
    order stay, the key now holds [rel], the other entries are as before. *)
Lemma rels_set_present key rel d :
  is_Some (rels_get key d) ->
  (rels_set key rel d).*1 = d.*1 /\
  (key, rel) ∈ rels_set key rel d /\
  (forall k r, (k, r) ∈ rels_set key rel d -> k <> key -> (k, r) ∈ d).
Proof.
  induction d as [|[k v] d IH]; cbn; [by intros [? ?]|].
  case_decide as Hk.
  - intros _. subst k. split; [done|]. split; [apply list_elem_of_here|].
    intros k r [Hin|Hin]%elem_of_cons Hne; [congruence|by apply list_elem_of_further].
  - intros Hg. destruct (IH Hg) as (Hkeys & Hin & Hrest). split; [|split].
    + cbn. by rewrite Hkeys.
    + by apply list_elem_of_further.
    + intros k' r [Heq|Hin']%elem_of_cons Hne.
      * rewrite Heq. apply list_elem_of_here.
      * by apply list_elem_of_further, Hrest.
Qed.

Lemma dict_functional (d : list (string * KnowledgeTriple)) k r r' :
  NoDup d.*1 -> (k, r) ∈ d -> (k, r') ∈ d -> r = r'.
Proof.
  induction d as [|[k0 v0] d IH]; cbn; intros Hnd Hr Hr'; [by apply elem_of_nil in Hr|].
  apply NoDup_cons in Hnd as [Hnin Hnd].
  assert (Hkey : forall v, (k0, v) ∈ d -> False).
  { intros v Hv. apply Hnin. apply list_elem_of_fmap. by exists (k0, v). }
  apply elem_of_cons in Hr as [Hr|Hr]; apply elem_of_cons in Hr' as [Hr'|Hr'].
  - congruence.
  - injection Hr as -> ->. by destruct (Hkey r').
  - injection Hr' as -> ->. by destruct (Hkey r).
  - by apply IH.
Qed.

(** What the loop maintains once the triples [seen] have been processed:
    no key is filed twice; each entry is a triple of [seen] under its own
    key; every key met is filed; and no triple met under a key has a
    confidence greater than the one filed. *)
Definition rels_inv (seen : list KnowledgeTriple) (d : list (string * KnowledgeTriple)) : Prop :=
  NoDup d.*1 /\
  (forall k r, (k, r) ∈ d -> k = rel_key r /\ r ∈ seen) /\
  (forall t, t ∈ seen -> rel_key t ∈ d.*1) /\
  (forall k r t, (k, r) ∈ d -> t ∈ seen -> rel_key t = k ->
                 (confidence r <? confidence t)%float = false).

Lemma dedup_rel_step_inv seen d rel :
  rels_inv seen d -> rels_inv (seen ++ [rel])%list (dedup_rel_step d rel).
Proof.
  intros (Hnd & Hent & Hcov & Hmax). unfold dedup_rel_step. cbn zeta.
  destruct (rels_get (rel_key rel) d) as [existing|] eqn:Hg.
  - assert (Hex : (rel_key rel, existing) ∈ d) by by apply rels_get_Some.
    assert (Hkin : rel_key rel ∈ d.*1).
    { apply list_elem_of_fmap. by exists (rel_key rel, existing). }
    destruct (confidence existing <? confidence rel)%float eqn:Hlt.
    + destruct (rels_set_present (rel_key rel) rel d) as (Hkeys & Hin & Hrest); [by eexists|].
      assert (Hnd' : NoDup (rels_set (rel_key rel) rel d).*1) by by rewrite Hkeys.
      split; [exact Hnd'|split; [|split]].
      * intros k r Hkr. destruct (decide (k = rel_key rel)) as [->|Hne].
        -- assert (r = rel) as -> by exact (dict_functional _ _ _ _ Hnd' Hkr Hin).
           split; [done|]. apply elem_of_app. right. apply list_elem_of_here.
        -- destruct (Hent k r (Hrest k r Hkr Hne)) as [-> Hs]. split; [done|].
           apply elem_of_app. by left.
      * intros t [Ht|Ht]%elem_of_app; rewrite Hkeys; [by apply Hcov|].
        by apply list_elem_of_singleton in Ht as ->.
      * intros k r t Hkr Ht Hkt. destruct (decide (k = rel_key rel)) as [->|Hne].
        -- assert (r = rel) as -> by exact (dict_functional _ _ _ _ Hnd' Hkr Hin).
           apply elem_of_app in Ht as [Ht|Ht].
           ++ apply (FloatOrder.ltb_false_upgrade (confidence existing)); [exact Hlt|].
              by apply (Hmax (rel_key rel) existing t).
           ++ apply list_elem_of_singleton in Ht as ->. apply FloatOrder.ltb_irrefl.
        -- apply elem_of_app in Ht as [Ht|Ht].
           ++ apply (Hmax k r t); [by apply Hrest|done..].
           ++ apply list_elem_of_singleton in Ht as ->. congruence.
    + split; [exact Hnd|split; [|split]].
      * intros k r Hkr. destruct (Hent k r Hkr) as [-> Hs]. split; [done|].
        apply elem_of_app. by left.
      * intros t [Ht|Ht]%elem_of_app; [by apply Hcov|].
        by apply list_elem_of_singleton in Ht as ->.
      * intros k r t Hkr [Ht|Ht]%elem_of_app Hkt; [by apply (Hmax k r t)|].
        apply list_elem_of_singleton in Ht as ->. subst k.
        by rewrite (dict_functional _ _ _ _ Hnd Hkr Hex).
  - rewrite (rels_set_fresh _ _ _ Hg).
    assert (Hfresh : rel_key rel ∉ d.*1) by by apply rels_get_None.
    split; [|split; [|split]].
    + rewrite fmap_app. apply NoDup_app. split; [done|]. split; [|apply NoDup_singleton].
      intros x Hx Hx'. apply list_elem_of_singleton in Hx'. cbn in Hx'. congruence.
    + intros k r [Hkr|Hkr]%elem_of_app.
      * destruct (Hent k r Hkr) as [-> Hs]. split; [done|]. apply elem_of_app. by left.
      * apply list_elem_of_singleton in Hkr. injection Hkr as -> ->. split; [done|].
        apply elem_of_app. right. apply list_elem_of_here.
    + intros t Ht. rewrite fmap_app. apply elem_of_app.
      apply elem_of_app in Ht as [Ht|Ht]; [left; by apply Hcov|].
      apply list_elem_of_singleton in Ht as ->. right. apply list_elem_of_here.
    + intros k r t [Hkr|Hkr]%elem_of_app [Ht|Ht]%elem_of_app Hkt.
      * by apply (Hmax k r t).
      * apply list_elem_of_singleton in Ht as ->. exfalso. apply Hfresh.
        apply list_elem_of_fmap. exists (k, r). by split.
      * apply list_elem_of_singleton in Hkr. injection Hkr as -> ->.
        exfalso. apply Hfresh. rewrite <- Hkt. by apply Hcov.
      * apply list_elem_of_singleton in Hkr. injection Hkr as -> ->.
        apply list_elem_of_singleton in Ht as ->. apply FloatOrder.ltb_irrefl.
Qed.

Lemma dedup_rel_loop_inv rels seen d :
  rels_inv seen d -> rels_inv (seen ++ rels)%list (fold_left dedup_rel_step rels d).
Proof.
  revert seen d. induction rels as [|x xs IH]; intros seen d Hd; cbn [fold_left].
  - by rewrite app_nil_r.
  - replace (seen ++ x :: xs)%list with ((seen ++ [x]) ++ xs)%list by by rewrite <- app_assoc.
    by apply IH, dedup_rel_step_inv.
Qed.

Lemma rels_inv_init : rels_inv [] [].
Proof.
  split; [constructor|]. split; [|split].
  - intros k r Hin. by apply elem_of_nil in Hin.
  - intros t Hin. by apply elem_of_nil in Hin.
  - intros k r t Hin. by apply elem_of_nil in Hin.
Qed.

Lemma deduplicate_relationships_inv (rels : list KnowledgeTriple) :
  exists d, _deduplicate_relationships rels = d.*2 /\ rels_inv rels d.
Proof.
  destruct rels as [|x xs].
  - exists []. split; [reflexivity|apply rels_inv_init].
  - exists (fold_left dedup_rel_step (x :: xs) []). split; [reflexivity|].
    apply (dedup_rel_loop_inv (x :: xs) [] []), rels_inv_init.
Qed.

(** Filing triples whose keys are all different and all new appends
    them, one entry each. *)
Lemma dedup_rel_replay (l : list KnowledgeTriple) (acc : list (string * KnowledgeTriple)) :
  NoDup (acc.*1 ++ (rel_key <$> l)) ->
  fold_left dedup_rel_step l acc = (acc ++ ((fun r => (rel_key r, r)) <$> l))%list.
Proof.
  revert acc. induction l as [|r l IH]; intros acc Hnd; cbn [fmap list_fmap fold_left].
  - by rewrite app_nil_r.
  - assert (Hnone : rels_get (rel_key r) acc = None).
    { apply rels_get_None. apply NoDup_app in Hnd as (_ & Hdisj & _).
      intros Hin. apply (Hdisj _ Hin). cbn. apply list_elem_of_here. }
    unfold dedup_rel_step at 2. cbn zeta. rewrite Hnone, (rels_set_fresh _ _ _ Hnone).
    rewrite IH.
    + by rewrite <- app_assoc.
    + rewrite fmap_app; cbn. rewrite <- app_assoc. exact Hnd.
Qed.

Lemma dict_entries (d : list (string * KnowledgeTriple)) :
  (forall k r, (k, r) ∈ d -> k = rel_key r) ->
  d = (fun r => (rel_key r, r)) <$> d.*2.
Proof.
  induction d as [|[k r] d IH]; intros Hk; [reflexivity|]. cbn. f_equal.
  - f_equal. apply Hk, list_elem_of_here.
  - apply IH. intros k' r' Hin. by apply Hk, list_elem_of_further.
Qed.

End RelationshipExtractionFacts.

(** *** One relationship per key, the most confident one *)
Module RelationshipExtractionSpec.
Import PyStr RelationshipExtraction RelationshipExtractionFacts.

(** X14: [_deduplicate_relationships] returns one triple per key
    (lower-cased head, relation and tail), and the most confident one.
    The triples returned are input triples with pairwise different keys;
    every input triple has a returned triple with its key, and the
    comparison [>] used by the code finds no input triple of that key
    more confident than the returned one. *)
Theorem deduplicate_relationships_keeps_best (rels : list KnowledgeTriple) :
  let out := _deduplicate_relationships rels in
  NoDup (rel_key <$> out) /\
  (forall r, r ∈ out -> r ∈ rels) /\
  (forall t, t ∈ rels ->
     exists r, r ∈ out /\ rel_key r = rel_key t /\
               (confidence r <? confidence t)%float = false).
Proof.
  intros out. subst out.
  destruct (deduplicate_relationships_inv rels) as (d & -> & Hnd & Hent & Hcov & Hmax).
  assert (Hd : d = (fun r => (rel_key r, r)) <$> d.*2).
  { apply dict_entries. intros k r Hin. by apply Hent. }
  assert (Hkeys : d.*1 = rel_key <$> d.*2).
  { rewrite Hd at 1. rewrite <- list_fmap_compose. reflexivity. }
  split; [by rewrite <- Hkeys|split].
  - intros r Hr. apply list_elem_of_fmap in Hr as ([k r'] & -> & Hin). by apply (Hent k r').
  - intros t Ht. specialize (Hcov t Ht).
    apply list_elem_of_fmap in Hcov as ([k r] & Hk & Hin). cbn in Hk.
    exists r. destruct (Hent k r Hin) as [Hkr _]. split; [|split].
    + apply list_elem_of_fmap. by exists (k, r).
    + congruence.
    + by apply (Hmax k r t).
Qed.

(** X15: deduplicating relationships is idempotent, and on a list whose
    keys are already pairwise different it returns the list as it is. *)
Theorem deduplicate_relationships_idempotent (rels : list KnowledgeTriple) :
  _deduplicate_relationships (_deduplicate_relationships rels) = _deduplicate_relationships rels /\
  (NoDup (rel_key <$> rels) -> _deduplicate_relationships rels = rels).
Proof.
  assert (Hfix : forall l, NoDup (rel_key <$> l) -> _deduplicate_relationships l = l).
  { intros l Hl. destruct l as [|x xs]; [reflexivity|].
    unfold _deduplicate_relationships. rewrite dedup_rel_replay by exact Hl.
    cbn [app]. rewrite <- list_fmap_compose. apply list_fmap_id. }
  split; [|apply Hfix].
  apply Hfix.
  destruct (deduplicate_relationships_inv rels) as (d & -> & Hnd & Hent & _).
  assert (Hd : d = (fun r => (rel_key r, r)) <$> d.*2).
  { apply dict_entries. intros k r Hin. by apply Hent. }
  rewrite Hd in Hnd. rewrite <- list_fmap_compose in Hnd. exact Hnd.
Qed.

End RelationshipExtractionSpec.

(** *** The clarity and relevance estimates *)
Module RelationshipScores.
Import PyStr PyBuiltins.

Definition _estimate_clarity (head relation tail : string) : float :=
  let clarity := 0.5%float in
  let specific_relations := ["treats"; "inhibits"; "activates"; "causes"; "regulates"] in
  let clarity :=
    if bool_decide (lower relation ∈ specific_relations) then (clarity + 0.2)%float
    else clarity in
  let generic_terms := ["protein"; "gene"; "drug"; "disease"; "chemical"] in
  let clarity :=
    if bool_decide (lower head ∉ generic_terms) then (clarity + 0.1)%float else clarity in
  let clarity :=
    if bool_decide (lower tail ∉ generic_terms) then (clarity + 0.1)%float else clarity in
  let clarity :=
    if bool_decide (lower relation ∈ ["associated_with"; "interacts_with"])
    then (clarity - 0.1)%float else clarity in
  py_min 1.0 (py_max 0.1 clarity).

Definition _estimate_relevance (head relation tail : string) : float :=
  let relevance := 0.5%float in
  let therapeutic_relations := ["treats"; "prevents"; "causes"; "inhibits"; "activates"] in
  let relevance :=
    if bool_decide (lower relation ∈ therapeutic_relations) then (relevance + 0.2)%float
    else relevance in
  let disease_keywords := ["cancer"; "disease"; "disorder"; "syndrome"; "infection"] in
  let relevance :=
    if existsb (fun keyword => contains keyword (lower head) || contains keyword (lower tail))
         disease_keywords
    then (relevance + 0.1)%float else relevance in
  let drug_keywords :=
    ["drug"; "medication"; "inhibitor"; "agonist"; "antagonist"; "therapy"] in
  let relevance :=
    if existsb (fun keyword => contains keyword (lower head) || contains keyword (lower tail))
         drug_keywords
    then (relevance + 0.1)%float else relevance in
  py_min 1.0 (py_max 0.1 relevance).

(** The triple built by [_extract_relationships_from_text] from the
    stripped head and tail, the label and the confidence of one answer. *)
Definition extracted_triple (head relation tail : string) (confidence : float) : KnowledgeTriple :=
  mkTriple head (strip relation) tail confidence "relationship_extraction"
           (_estimate_relevance head relation tail) (_estimate_clarity head relation tail).

Lemma clarity_range (head relation tail : string) :
  let c := _estimate_clarity head relation tail in
  (0.4 <=? c)%float = true /\ (c <=? 0.9)%float = true /\ (c <=? 0)%float = false.
Proof.
  unfold _estimate_clarity. cbn zeta.
  destruct (bool_decide (lower relation ∈ _));
    destruct (bool_decide (lower head ∉ _));
    destruct (bool_decide (lower tail ∉ _));
    destruct (bool_decide (lower relation ∈ _));
    vm_compute; repeat split.
Qed.

Lemma relevance_range (head relation tail : string) :
  let r := _estimate_relevance head relation tail in
  (0.5 <=? r)%float = true /\ (r <=? 0.9)%float = true /\ (r <=? 0)%float = false.
Proof.
  unfold _estimate_relevance. cbn zeta.
  destruct (bool_decide (lower relation ∈ _));
    destruct (existsb _ ["cancer"; "disease"; "disorder"; "syndrome"; "infection"]);
    destruct (existsb _ _);
    vm_compute; repeat split.
Qed.

(** X16: the clarity estimate lies between 0.4 and 0.9 for every triple,
    so the clamp to [0.1, 1.0] at the end of [_estimate_clarity] never
    changes it, and it is never <= 0. *)
Theorem estimate_clarity_bounds (head relation tail : string) :
  let c := _estimate_clarity head relation tail in
  (0.4 <=? c)%float = true /\ (c <=? 0.9)%float = true /\ (c <=? 0)%float = false.
Proof. apply clarity_range. Qed.

(** X17: the relevance estimate lies between 0.5 and 0.9 for every
    triple, so the clamp at the end of [_estimate_relevance] never changes
    it, and it is never <= 0. *)
Theorem estimate_relevance_bounds (head relation tail : string) :
  let r := _estimate_relevance head relation tail in
  (0.5 <=? r)%float = true /\ (r <=? 0.9)%float = true /\ (r <=? 0)%float = false.
Proof. apply relevance_range. Qed.

(** X27: the quality gate never overwrites the estimates of the
    extractor.  A candidate built by the relationship extractor leaves
    [finalize_triples] with the clarity and the relevance the extractor
    gave it, and, when its confidence is not <= 0, exactly as it came
    in: the default 0.5 can only ever replace its confidence. *)
Theorem gate_keeps_estimates
    (thr : float) (h : gmap ref KnowledgeTriple) (cands : list ref) (l : ref)
    (hd rel tl : string) (conf : float) :
  l ∈ cands -> h !! l = Some (extracted_triple hd rel tl conf) ->
  let r := Evaluator.finalize_triples thr h cands in
  r.1 !! l = Some (extracted_triple hd rel tl
                     (if (conf <=? 0)%float then 0.5%float else conf)) /\
  ((conf <=? 0)%float = false -> r.1 !! l = Some (extracted_triple hd rel tl conf)).
Proof.
  intros Hin Hl r. subst r.
  assert (Hst : (Evaluator.finalize_triples thr h cands).1 !! l
                = Some (Evaluator.normalized (extracted_triple hd rel tl conf))).
  { unfold Evaluator.finalize_triples; cbn [fst].
    by rewrite EvaluatorFacts.finalize_fold_store, (EvaluatorFacts.gate_store_in cands h l Hin), Hl. }
  assert (Hn : Evaluator.normalized (extracted_triple hd rel tl conf)
               = extracted_triple hd rel tl (if (conf <=? 0)%float then 0.5%float else conf)).
  { destruct (clarity_range hd rel tl) as (_ & _ & Hc).
    destruct (relevance_range hd rel tl) as (_ & _ & Hr). cbn zeta in Hc, Hr.
    unfold Evaluator.normalized, extracted_triple.
    cbn [confidence clarity relevance].
    destruct (conf <=? 0)%float eqn:Hconf;
      cbn [confidence clarity relevance set_confidence set_clarity set_relevance
           head relation tail source];
      rewrite Hc;
      cbn [confidence clarity relevance set_confidence set_clarity set_relevance
           head relation tail source];
      rewrite Hr; reflexivity. }
  rewrite Hst, Hn. split; [reflexivity|]. intros ->. reflexivity.
Qed.

Definition extracted_store : gmap ref KnowledgeTriple :=
  {[ 1%positive := extracted_triple "aspirin" "treats" "headache" 0.9 ]}.

Lemma gate_keeps_estimates_witness :
  let r := Evaluator.finalize_triples 0.6 extracted_store [1%positive] in
  r.1 !! 1%positive
    = Some (extracted_triple "aspirin" "treats" "headache"
              (if (0.9 <=? 0)%float then 0.5%float else 0.9%float)) /\
  ((0.9 <=? 0)%float = false ->
   r.1 !! 1%positive = Some (extracted_triple "aspirin" "treats" "headache" 0.9)).
Proof.
  apply (gate_keeps_estimates 0.6 extracted_store [1%positive] 1%positive
           "aspirin" "treats" "headache" 0.9).
  - apply list_elem_of_here.
  - apply lookup_singleton_eq.
Defined.

End RelationshipScores.

(** ** Dicts of triples and entities, [karma/core/data_structures.py] *)
Module DictRoundTrip.
Import DataStructures.

Lemma mapM_as_str (xs : list string) : mapM as_str (PyStr <$> xs) = Some xs.
Proof. induction xs as [|x xs IH]; [reflexivity|]. cbn. by rewrite IH. Qed.

Lemma mapM_as_float_dict (kvs : list (string * float)) :
  mapM (fun kv : string * pyval => (fun f => (kv.1, f)) <$> as_float kv.2)
       ((fun kv : string * float => (kv.1, PyFloat kv.2)) <$> kvs) = Some kvs.
Proof. induction kvs as [|[k f] kvs IH]; [reflexivity|]. cbn. by rewrite IH. Qed.

Lemma KnowledgeTriple_round_trip (t : KnowledgeTriple) :
  KnowledgeTriple_from_dict (PyDict (KnowledgeTriple_asdict t)) = Some t.
Proof. by destruct t. Qed.

Lemma KGEntity_round_trip (e : KGEntity) :
  KGEntity_from_dict (PyDict (KGEntity_asdict e)) = Some e.
Proof.
  destruct e as [i ty n nid al]. unfold KGEntity_from_dict, KGEntity_asdict.
  pose proof (mapM_as_str al) as Hm.
  vm_compute. vm_compute in Hm. by rewrite Hm.
Qed.

Lemma kw_only_elem fields kvs k v :
  kw_only fields kvs = true -> (k, v) ∈ kvs -> k ∈ fields.
Proof.
  unfold kw_only. rewrite forallb_forall. intros Hall Hin.
  apply list_elem_of_In in Hin. specialize (Hall _ Hin). by apply bool_decide_eq_true in Hall.
Qed.

(** X18: a triple or an entity written as a dict and built again from
    that dict is the triple or entity itself: [from_dict(x.to_dict())]
    succeeds and gives [x] back, in every field. *)
Theorem from_dict_to_dict :
  (forall t : KnowledgeTriple,
      KnowledgeTriple_from_dict (asdict_inner (PyTriple t)) = Some t) /\
  (forall e : KGEntity,
      KGEntity_from_dict (asdict_inner (PyEntity e)) = Some e).
Proof.
  split; [intros t; apply KnowledgeTriple_round_trip|intros e; apply KGEntity_round_trip].
Qed.

(** X19: the errors and defaults of [KnowledgeTriple.from_dict].  A dict
    with a key that is no field of the dataclass is refused, a dict
    without head, relation or tail is refused, and a dict with just these
    three gives the triple with the dataclass defaults: confidence,
    relevance and clarity 0.0 and source "unknown". *)
Theorem triple_from_dict_errors_and_defaults :
  (forall kvs k v,
      (k, v) ∈ kvs ->
      k ∉ ["head"; "relation"; "tail"; "confidence"; "source"; "relevance"; "clarity"] ->
      KnowledgeTriple_from_dict (PyDict kvs) = None) /\
  (forall kvs,
      kw_get "head" kvs = None \/ kw_get "relation" kvs = None \/ kw_get "tail" kvs = None ->
      KnowledgeTriple_from_dict (PyDict kvs) = None) /\
  (forall h r t,
      KnowledgeTriple_from_dict
        (PyDict [("head", PyStr h); ("relation", PyStr r); ("tail", PyStr t)])
      = Some (mkTriple h r t 0 "unknown" 0 0)).
Proof.
  split; [|split].
  - intros kvs k v Hin Hk. unfold KnowledgeTriple_from_dict.
    destruct (kw_only _ kvs) eqn:Hall; [|reflexivity].
    destruct Hk. by apply (kw_only_elem _ kvs k v).
  - intros kvs Hmiss. unfold KnowledgeTriple_from_dict.
    destruct (kw_only _ kvs); [|reflexivity].
    destruct Hmiss as [->|[Hm|Hm]]; [reflexivity| |].
    + destruct (kw_get "head" kvs ≫= as_str); cbn; [|reflexivity]. by rewrite Hm.
    + destruct (kw_get "head" kvs ≫= as_str); cbn; [|reflexivity].
      destruct (kw_get "relation" kvs ≫= as_str); cbn; [|reflexivity]. by rewrite Hm.
  - intros h r t. reflexivity.
Qed.

End DictRoundTrip.

(** ** Saving and loading a run record, [karma/core/data_structures.py] *)
Module RunRecordFacts.
Import DataStructures DictRoundTrip.

(** [asdict] leaves no dataclass instance behind. *)
Lemma asdict_inner_serializable : forall v, json_serializable (asdict_inner v) = true.
Proof.
  fix IH 1. intros [ | b | z | f | s | xs | kvs | t | e | m | m]; try reflexivity.
  - cbn [asdict_inner json_serializable].
    induction xs as [|x xs IHxs]; [reflexivity|]. cbn. by rewrite (IH x), IHxs.
  - cbn [asdict_inner json_serializable].
    induction kvs as [|[k x] kvs IHkvs]; [reflexivity|]. cbn. by rewrite (IH x), IHkvs.
  - cbn. induction (aliases e) as [|a al IHal]; [reflexivity|]. cbn in *. exact IHal.
  - cbn. induction (authors m) as [|a al IHal]; [reflexivity|]. cbn in *. exact IHal.
  - cbn. induction (agent_times m) as [|a al IHal]; [reflexivity|]. cbn in *. exact IHal.
Qed.

(** [asdict] copies a value that holds no dataclass instance. *)
Lemma asdict_inner_plain : forall v, json_serializable v = true -> asdict_inner v = v.
Proof.
  fix IH 1. intros [ | b | z | f | s | xs | kvs | t | e | m | m]; try reflexivity; try discriminate.
  - cbn [asdict_inner json_serializable]. intros H. f_equal.
    induction xs as [|x xs IHxs]; [reflexivity|]. cbn in *.
    apply andb_true_iff in H as [Hx Hxs]. by rewrite (IH x Hx), (IHxs Hxs).
  - cbn [asdict_inner json_serializable]. intros H. f_equal.
    induction kvs as [|[k x] kvs IHkvs]; [reflexivity|]. cbn in *.
    apply andb_true_iff in H as [Hx Hxs]. by rewrite (IH x Hx), (IHkvs Hxs).
Qed.

Lemma has_to_dict_asdict (v : pyval) : has_to_dict (asdict_inner v) = false.
Proof. by destruct v. Qed.

Lemma to_dict_value_asdict (v : pyval) : to_dict_value (asdict_inner v) = Some (asdict_inner v).
Proof.
  destruct v as [ | | | | |xs| | | | | ]; try reflexivity.
  destruct xs as [|x xs]; [reflexivity|]. cbn [asdict_inner List.map to_dict_value].
  by rewrite has_to_dict_asdict.
Qed.

Lemma to_dict_asdict (r : IntermediateOutput) :
  to_dict r = Some (PyDict (IntermediateOutput_asdict r)).
Proof.
  unfold to_dict, IntermediateOutput_asdict. cbn [mapM fst snd].
  rewrite !to_dict_value_asdict. reflexivity.
Qed.

Lemma save_to_file_asdict (r : IntermediateOutput) :
  save_to_file r = Some (PyDict (IntermediateOutput_asdict r)).
Proof.
  unfold save_to_file. rewrite to_dict_asdict. cbn [mbind option_bind].
  unfold json_dump_load. cbn [json_serializable IntermediateOutput_asdict forallb].
  by rewrite !asdict_inner_serializable.
Qed.

End RunRecordFacts.

Module RunRecordLoad.
Import DataStructures DictRoundTrip RunRecordFacts.

(** The attributes as the pipeline fills them: text and segment data
    without dataclass instances, lists of entities, lists of triples, a
    metadata object or [None], a metrics object. *)
Definition plain (v : pyval) : Prop := json_serializable v = true.
Definition entity_list (v : pyval) : Prop := exists es, v = PyList (PyEntity <$> es).
Definition triple_list (v : pyval) : Prop := exists ts, v = PyList (PyTriple <$> ts).

Record well_typed (r : IntermediateOutput) : Prop := {
  wt_raw_text : plain (raw_text r);
  wt_metadata : metadata r = PyNone \/ exists m, metadata r = PyMetadata m;
  wt_segments : plain (segments r);
  wt_relevant_segments : plain (relevant_segments r);
  wt_summaries : plain (summaries r);
  wt_entities : entity_list (entities r);
  wt_relationships : triple_list (relationships r);
  wt_aligned_triples : triple_list (aligned_triples r);
  wt_final_triples : triple_list (final_triples r);
  wt_integrated_triples : triple_list (integrated_triples r);
  wt_metrics : exists m, metrics r = PyMetrics m
}.

Lemma asdict_entities (es : list KGEntity) :
  asdict_inner (PyList (PyEntity <$> es)) = PyList ((fun e => PyDict (KGEntity_asdict e)) <$> es).
Proof. cbn [asdict_inner]. f_equal. induction es as [|e es IH]; [reflexivity|]. cbn. by rewrite IH. Qed.

Lemma asdict_triples (ts : list KnowledgeTriple) :
  asdict_inner (PyList (PyTriple <$> ts)) =
  PyList ((fun t => PyDict (KnowledgeTriple_asdict t)) <$> ts).
Proof. cbn [asdict_inner]. f_equal. induction ts as [|t ts IH]; [reflexivity|]. cbn. by rewrite IH. Qed.

Lemma mapM_entities (es : list KGEntity) :
  mapM KGEntity_from_dict ((fun e => PyDict (KGEntity_asdict e)) <$> es) = Some es.
Proof.
  induction es as [|e es IH]; [reflexivity|].
  cbn [fmap list_fmap mapM]. rewrite KGEntity_round_trip. cbn [mbind option_bind].
  rewrite IH. reflexivity.
Qed.

Lemma mapM_triples (ts : list KnowledgeTriple) :
  mapM KnowledgeTriple_from_dict ((fun t => PyDict (KnowledgeTriple_asdict t)) <$> ts) = Some ts.
Proof.
  induction ts as [|t ts IH]; [reflexivity|].
  cbn [fmap list_fmap mapM]. rewrite KnowledgeTriple_round_trip. cbn [mbind option_bind].
  rewrite IH. reflexivity.
Qed.

Lemma DocumentMetadata_round_trip (m : DocumentMetadata) :
  DocumentMetadata_from_kwargs (PyDict (DocumentMetadata_asdict m)) = Some m.
Proof.
  destruct m as [t a j p d pm dt]. pose proof (mapM_as_str a) as Hm.
  vm_compute. vm_compute in Hm. by rewrite Hm.
Qed.

Lemma ProcessingMetrics_round_trip (m : ProcessingMetrics) :
  ProcessingMetrics_from_kwargs (PyDict (ProcessingMetrics_asdict m)) = Some m.
Proof.
  destruct m as [p c t a e]. pose proof (mapM_as_float_dict a) as Hm.
  vm_compute. vm_compute in Hm. by rewrite Hm.
Qed.

(** A key that [load_from_file] does not treat specially is assigned as
    the file has it. *)
Lemma load_item_other (i : IntermediateOutput) (key : string) (v : pyval) :
  key ∉ ["entities"; "relationships"; "aligned_triples"; "final_triples";
         "integrated_triples"; "metadata"; "metrics"] ->
  load_item i key v = Some (setattr i key v).
Proof.
  intros Hk. unfold load_item. rewrite !not_elem_of_cons in Hk.
  destruct Hk as (H1 & H2 & H3 & H4 & H5 & H6 & H7 & _).
  rewrite (bool_decide_eq_false_2 (key = "entities")) by done.
  rewrite (bool_decide_eq_false_2 (key ∈ _)) by (rewrite !elem_of_cons, elem_of_nil; tauto).
  rewrite (bool_decide_eq_false_2 (key = "metadata")) by done.
  rewrite (bool_decide_eq_false_2 (key = "metrics")) by done.
  reflexivity.
Qed.

Lemma load_item_entities (i : IntermediateOutput) (es : list KGEntity) :
  load_item i "entities" (PyList ((fun e => PyDict (KGEntity_asdict e)) <$> es))
  = Some (setattr i "entities" (PyList (PyEntity <$> es))).
Proof.
  destruct es as [|e es]; [reflexivity|].
  unfold load_item. rewrite bool_decide_eq_true_2 by done.
  cbn [truthy fmap list_fmap andb negb]. rewrite bool_decide_eq_false_2 by done. cbn [negb].
  unfold comprehension. change (PyDict (KGEntity_asdict e) :: _)
    with ((fun e => PyDict (KGEntity_asdict e)) <$> (e :: es)).
  by rewrite mapM_entities.
Qed.

Lemma load_item_triples (i : IntermediateOutput) (key : string) (ts : list KnowledgeTriple) :
  key ∈ ["relationships"; "aligned_triples"; "final_triples"; "integrated_triples"] ->
  load_item i key (PyList ((fun t => PyDict (KnowledgeTriple_asdict t)) <$> ts))
  = Some (setattr i key (PyList (PyTriple <$> ts))).
Proof.
  intros Hk.
  assert (Hne : key <> "entities").
  { rewrite !elem_of_cons, elem_of_nil in Hk. intros ->. intuition discriminate. }
  destruct ts as [|t ts].
  - rewrite !elem_of_cons, elem_of_nil in Hk.
    destruct Hk as [->|[->|[->|[->|[]]]]]; reflexivity.
  - unfold load_item. rewrite (bool_decide_eq_false_2 (key = "entities")) by done.
    rewrite (bool_decide_eq_true_2 (key ∈ _)) by done.
    cbn [truthy fmap list_fmap andb negb]. rewrite bool_decide_eq_false_2 by done. cbn [negb].
    unfold comprehension. change (PyDict (KnowledgeTriple_asdict t) :: _)
      with ((fun t => PyDict (KnowledgeTriple_asdict t)) <$> (t :: ts)).
    by rewrite mapM_triples.
Qed.

Lemma load_item_metadata (i : IntermediateOutput) (m : DocumentMetadata) :
  load_item i "metadata" (PyDict (DocumentMetadata_asdict m))
  = Some (setattr i "metadata" (PyMetadata m)).
Proof.
  unfold load_item.
  rewrite (bool_decide_eq_false_2 ("metadata" = "entities")) by done.
  rewrite (bool_decide_eq_false_2 ("metadata" ∈ _))
    by (rewrite !elem_of_cons, elem_of_nil; intuition discriminate).
  rewrite (bool_decide_eq_true_2 ("metadata" = "metadata")) by done.
  cbn [andb truthy DocumentMetadata_asdict negb]. rewrite bool_decide_eq_false_2 by done.
  cbn [negb]. change (PyDict _) with (PyDict (DocumentMetadata_asdict m)).
  by rewrite DocumentMetadata_round_trip.
Qed.

Lemma load_item_metrics (i : IntermediateOutput) (m : ProcessingMetrics) :
  load_item i "metrics" (PyDict (ProcessingMetrics_asdict m))
  = Some (setattr i "metrics" (PyMetrics m)).
Proof.
  unfold load_item.
  rewrite (bool_decide_eq_false_2 ("metrics" = "entities")) by done.
  rewrite (bool_decide_eq_false_2 ("metrics" ∈ _))
    by (rewrite !elem_of_cons, elem_of_nil; intuition discriminate).
  rewrite (bool_decide_eq_false_2 ("metrics" = "metadata")) by done.
  rewrite (bool_decide_eq_true_2 ("metrics" = "metrics")) by done.
  cbn [andb truthy ProcessingMetrics_asdict negb]. rewrite bool_decide_eq_false_2 by done.
  cbn [negb]. change (PyDict _) with (PyDict (ProcessingMetrics_asdict m)).
  by rewrite ProcessingMetrics_round_trip.
Qed.

End RunRecordLoad.

(** *** A run record written and read back *)
Module RunRecordSpec.
Import DataStructures DictRoundTrip RunRecordFacts RunRecordLoad.

(** X20: [to_dict] returns what [dataclasses.asdict] returns, for every
    run record.  The loop that calls [to_dict()] on the items of a list
    never finds an item with that method, since [asdict] has already
    turned every dataclass instance into a dict; so [to_dict] never
    raises, the result holds no dataclass instance, and [save_to_file]
    writes exactly that dict. *)
Theorem to_dict_is_asdict (r : IntermediateOutput) :
  to_dict r = Some (PyDict (IntermediateOutput_asdict r)) /\
  json_serializable (PyDict (IntermediateOutput_asdict r)) = true /\
  save_to_file r = Some (PyDict (IntermediateOutput_asdict r)).
Proof.
  split; [apply to_dict_asdict|]. split; [|apply save_to_file_asdict].
  pose proof (save_to_file_asdict r) as Hs. unfold save_to_file in Hs.
  rewrite to_dict_asdict in Hs. cbn [mbind option_bind] in Hs. unfold json_dump_load in Hs.
  by destruct (json_serializable _).
Qed.

Ltac other_key :=
  rewrite load_item_other
    by (rewrite !not_elem_of_cons; repeat split; try discriminate; apply not_elem_of_nil);
  cbn [mbind option_bind].

(** X21: a run record whose [aligned_entities] holds no entity object is
    read back as it was written.  When the entity list holds entities,
    the four triple lists hold triples, the metadata is a metadata object
    or [None], the metrics a metrics object, and the text, segment and
    summary attributes (and [aligned_entities]) hold plain JSON data,
    then [load_from_file] applied to what [save_to_file] wrote returns
    the record itself. *)
Theorem save_load_round_trip (r : IntermediateOutput) :
  well_typed r -> plain (aligned_entities r) ->
  save_to_file r ≫= load_from_file = Some r.
Proof.
  intros [Hraw Hmeta Hseg Hrel Hsum (es & Hes) (ts1 & Hts1) (ts2 & Hts2) (ts3 & Hts3)
            (ts4 & Hts4) (mt & Hmt)] Hal.
  rewrite save_to_file_asdict. cbn [mbind option_bind].
  destruct r as [raw meta seg rel sums ents rels al at_ ft it mtr]. cbn in *. subst.
  unfold load_from_file, IntermediateOutput_asdict.
  cbn [raw_text metadata segments relevant_segments summaries entities relationships
       aligned_entities aligned_triples final_triples integrated_triples metrics].
  rewrite (asdict_inner_plain raw Hraw), (asdict_inner_plain seg Hseg),
    (asdict_inner_plain rel Hrel), (asdict_inner_plain sums Hsum), (asdict_inner_plain al Hal).
  rewrite asdict_entities, !asdict_triples.
  cbn [load_items].
  other_key.
  assert (Hmd : forall i, load_item i "metadata" (asdict_inner meta) = Some (setattr i "metadata" meta)).
  { intros i. destruct Hmeta as [->|(m & ->)]; [reflexivity|apply load_item_metadata]. }
  rewrite Hmd. cbn [mbind option_bind].
  other_key. other_key. other_key.
  rewrite load_item_entities. cbn [mbind option_bind].
  rewrite load_item_triples by (rewrite !elem_of_cons; tauto). cbn [mbind option_bind].
  other_key.
  rewrite load_item_triples by (rewrite !elem_of_cons; tauto). cbn [mbind option_bind].
  rewrite load_item_triples by (rewrite !elem_of_cons; tauto). cbn [mbind option_bind].
  rewrite load_item_triples by (rewrite !elem_of_cons; tauto). cbn [mbind option_bind].
  change (asdict_inner (PyMetrics mt)) with (PyDict (ProcessingMetrics_asdict mt)).
  rewrite load_item_metrics. cbn [mbind option_bind].
  reflexivity.
Qed.

Definition ibuprofen : KGEntity :=
  mkEntity "Ibuprofen" "Drug" "Ibuprofen" "MESH:D007052" ["advil"].
Definition ibuprofen_treats : KnowledgeTriple :=
  mkTriple "Ibuprofen" "treats" "fever" 0.8 "relationship_extraction" 0.7 0.8.

(** A record as the pipeline leaves it before schema alignment. *)
Definition unaligned_record : IntermediateOutput :=
  mkOutput (PyStr "Ibuprofen treats fever.") (PyMetadata DocumentMetadata_new)
    (PyList [PyDict [("text", PyStr "Ibuprofen treats fever."); ("score", PyFloat 0.9)]])
    (PyList []) (PyList [PyStr "Ibuprofen treats fever."])
    (PyList [PyEntity ibuprofen]) (PyList [PyTriple ibuprofen_treats])
    (PyList []) (PyList []) (PyList []) (PyList [])
    (PyMetrics (mkMetrics 100 40 1.5 [("reader", 1.5%float)] 0)).

Lemma save_load_round_trip_witness :
  save_to_file unaligned_record ≫= load_from_file = Some unaligned_record.
Proof.
  apply (save_load_round_trip unaligned_record).
  - constructor.
    + reflexivity.
    + right. by exists DocumentMetadata_new.
    + reflexivity.
    + reflexivity.
    + reflexivity.
    + by exists [ibuprofen].
    + by exists [ibuprofen_treats].
    + by exists [].
    + by exists [].
    + by exists [].
    + by exists (mkMetrics 100 40 1.5 [("reader", 1.5%float)] 0).
  - reflexivity.
Defined.

End RunRecordSpec.

(** ** The knowledge graph, [karma/core/data_structures.py] *)
Module Graph.
Import DataStructures.

(** [KnowledgeGraph]: a set of entity names, the triples in the order
    they were added, and free-form metadata. *)
Record KnowledgeGraph := mkGraph {
  entities : gset string;
  triples : list KnowledgeTriple;
  metadata : pyval
}.

(** [KnowledgeGraph()] *)
Definition KnowledgeGraph_new : KnowledgeGraph := mkGraph ∅ [] (PyDict []).

(** What Python leaves open: the order in which [list(a_set)] lists a
    set, and the rounding of the builtin [sum] over floats, which depends
    on the interpreter version. *)
Class Runtime := {
  set_items : gset string -> list string;
  set_items_elem : forall s x, x ∈ set_items s <-> x ∈ s;
  float_sum : list float -> float
}.

(** [add_entity], given a name or an entity. *)
Definition add_entity (entity : string + KGEntity) (kg : KnowledgeGraph) : KnowledgeGraph :=
  match entity with
  | inr e => mkGraph (entities kg ∪ {[ name e ]}) (triples kg) (metadata kg)
  | inl s => mkGraph (entities kg ∪ {[ s ]}) (triples kg) (metadata kg)
  end.

Definition add_triple (triple : KnowledgeTriple) (kg : KnowledgeGraph) : KnowledgeGraph :=
  mkGraph (entities kg ∪ {[ head triple ]} ∪ {[ tail triple ]})
          (triples kg ++ [triple])%list (metadata kg).

(** The dict [relation_counts], in insertion order. *)
Fixpoint counts_get (key : string) (d : list (string * Z)) : option Z :=
  match d with
  | [] => None
  | (k, v) :: rest => if decide (k = key) then Some v else counts_get key rest
  end.

Fixpoint counts_set (key : string) (n : Z) (d : list (string * Z)) : list (string * Z) :=
  match d with
  | [] => [(key, n)]
  | (k, v) :: rest =>
      if decide (k = key) then (k, n) :: rest else (k, v) :: counts_set key n rest
  end.

(** [relation_counts[r] = relation_counts.get(r, 0) + 1] *)
Definition count_relation (relation_counts : list (string * Z)) (triple : KnowledgeTriple)
    : list (string * Z) :=
  counts_set (relation triple)
             (default 0%Z (counts_get (relation triple) relation_counts) + 1)%Z
             relation_counts.

Record Statistics := mkStatistics {
  entity_count : Z;
  triple_count : Z;
  unique_relations : Z;
  relation_distribution : list (string * Z);
  avg_confidence : pyval
}.

Section WithRuntime.
Context `{Runtime}.

(** [len(xs)] as the float the division converts it to. *)
Definition float_of_len {A} (xs : list A) : float :=
  PrimFloat.of_uint63 (Uint63.of_Z (Z.of_nat (length xs))).

Definition get_statistics (kg : KnowledgeGraph) : Statistics :=
  let relation_counts := fold_left count_relation (triples kg) [] in
  mkStatistics
    (Z.of_nat (size (entities kg)))
    (Z.of_nat (length (triples kg)))
    (Z.of_nat (length relation_counts))
    relation_counts
    (match triples kg with
     | [] => PyInt 0
     | _ :: _ => PyFloat (float_sum (confidence <$> triples kg) / float_of_len (triples kg))
     end).

Definition Statistics_to_dict (s : Statistics) : pyval :=
  PyDict [ ("entity_count", PyInt (entity_count s));
           ("triple_count", PyInt (triple_count s));
           ("unique_relations", PyInt (unique_relations s));
           ("relation_distribution",
              PyDict ((fun kv => (kv.1, PyInt kv.2)) <$> relation_distribution s));
           ("avg_confidence", avg_confidence s) ].

Definition to_dict (kg : KnowledgeGraph) : pyval :=
  PyDict [ ("entities", PyList (PyStr <$> set_items (entities kg)));
           ("triples", PyList ((fun t => PyDict (KnowledgeTriple_asdict t)) <$> triples kg));
           ("metadata", metadata kg);
           ("statistics", Statistics_to_dict (get_statistics kg)) ].

(** [save_to_file]: the content of the file, as [json.load] reads it. *)
Definition save_to_file (kg : KnowledgeGraph) : option pyval :=
  json_dump_load (to_dict kg).

End WithRuntime.

(** Iterating over a value read from JSON: the items of a list, the
    keys of a dict, the characters of a string; anything else is not
    iterable. *)
Definition py_iter (v : pyval) : option (list pyval) :=
  match v with
  | PyList items => Some items
  | PyDict kvs => Some (PyStr <$> kvs.*1)
  | PyStr s => Some ((fun c => PyStr (String c EmptyString)) <$> list_ascii_of_string s)
  | _ => None
  end.

(** [load_from_file], from the content [json.load] returns.  The graph
    here holds names only, so an entry of ['entities'] that is not a
    string is refused. *)
Definition load_from_file (data : pyval) : option KnowledgeGraph :=
  match data with
  | PyDict kvs =>
      names ← py_iter (default (PyList []) (kw_get "entities" kvs)) ≫= mapM as_str;
      ts ← py_iter (default (PyList []) (kw_get "triples" kvs))
             ≫= mapM KnowledgeTriple_from_dict;
      Some (mkGraph (list_to_set names) ts (default (PyDict []) (kw_get "metadata" kvs)))
  | _ => None
  end.

(** One possible runtime: sets listed in the order of [elements], sums
    taken from left to right. *)
#[export] Instance plain_runtime : Runtime := {|
  set_items := elements;
  set_items_elem := fun s x => elem_of_elements s x;
  float_sum := fun xs => fold_left PrimFloat.add xs 0%float
|}.

End Graph.

Module GraphFacts.
Import DataStructures DictRoundTrip Graph.
Import Lia.

(** [closed]: the head and the tail of every triple are entities of the
    graph. *)
Definition closed (kg : KnowledgeGraph) : Prop :=
  forall t, t ∈ triples kg -> head t ∈ entities kg /\ tail t ∈ entities kg.

Lemma closed_new : closed KnowledgeGraph_new.
Proof. intros t Ht. by apply elem_of_nil in Ht. Qed.

Lemma closed_add_entity e kg : closed kg -> closed (add_entity e kg).
Proof.
  intros Hcl t Ht. destruct e as [s|e]; cbn in *; destruct (Hcl t Ht) as [Hh Htl];
    split; apply elem_of_union; by left.
Qed.

Lemma closed_add_triple x kg : closed kg -> closed (add_triple x kg).
Proof.
  intros Hcl t Ht. cbn in *. apply elem_of_app in Ht as [Ht|Ht].
  - destruct (Hcl t Ht) as [Hh Htl]. rewrite !elem_of_union. tauto.
  - apply list_elem_of_singleton in Ht as ->. rewrite !elem_of_union, !elem_of_singleton. tauto.
Qed.

(** The number of triples of [ts] labelled [r]. *)
Definition occurrences (r : string) (ts : list KnowledgeTriple) : Z :=
  Z.of_nat (length (List.filter (fun t => bool_decide (relation t = r)) ts)).

Definition total (d : list (string * Z)) : Z := foldr (fun kv acc => (kv.2 + acc)%Z) 0%Z d.

Lemma occurrences_app r ts x :
  occurrences r (ts ++ [x]) =
  (occurrences r ts + if bool_decide (relation x = r) then 1 else 0)%Z.
Proof.
  unfold occurrences. rewrite List.filter_app, length_app. cbn [List.filter].
  destruct (bool_decide _); cbn [length]; lia.
Qed.

Lemma occurrences_pos r ts : (0 < occurrences r ts)%Z <-> r ∈ relation <$> ts.
Proof.
  unfold occurrences. induction ts as [|t ts IH]; cbn [List.filter fmap list_fmap length].
  - split; [lia|]. intros Hin. by apply elem_of_nil in Hin.
  - rewrite elem_of_cons. case_bool_decide as Hr; cbn [length].
    + split; [by left|lia].
    + rewrite IH. split; [by right|]. intros [Heq|Hin]; [congruence|done].
Qed.

Lemma counts_get_None key d : counts_get key d = None <-> key ∉ d.*1.
Proof.
  induction d as [|[k v] d IH]; cbn.
  - split; [|done]. intros _ Hin. by apply elem_of_nil in Hin.
  - case_decide as Hk.
    + split; [discriminate|]. intros Hn. exfalso. apply Hn. subst. apply list_elem_of_here.
    + rewrite IH, not_elem_of_cons. cbn. split; [intros Hn; split; [congruence|done]|tauto].
Qed.

Lemma counts_get_Some key d v : NoDup d.*1 -> counts_get key d = Some v <-> (key, v) ∈ d.
Proof.
  induction d as [|[k w] d IH]; cbn; intros Hnd.
  - split; [discriminate|]. intros Hin. by apply elem_of_nil in Hin.
  - apply NoDup_cons in Hnd as [Hnin Hnd]. rewrite elem_of_cons. case_decide as Hk.
    + subst k. split; [intros [= ->]; by left|].
      intros [[= ->]|Hin]; [done|]. exfalso. apply Hnin.
      apply list_elem_of_fmap. by exists (key, v).
    + rewrite (IH Hnd). split; [by right|]. intros [[= -> ->]|Hin]; [done|done].
Qed.

Lemma counts_set_fresh key n d :
  counts_get key d = None -> counts_set key n d = (d ++ [(key, n)])%list.
Proof.
  induction d as [|[k v] d IH]; cbn; [done|].
  case_decide; [discriminate|]. intros Hg. by rewrite IH.
Qed.

Lemma total_app d d' : total (d ++ d') = (total d + total d')%Z.
Proof. unfold total. induction d as [|[k v] d IH]; cbn [foldr app snd] in *; lia. Qed.

(** Overwriting the count of a key that is present. *)
Lemma counts_set_present key n v d :
  NoDup d.*1 -> counts_get key d = Some v ->
  (counts_set key n d).*1 = d.*1 /\
  total (counts_set key n d) = (total d - v + n)%Z /\
  (forall k m, (k, m) ∈ counts_set key n d <->
               (k = key /\ m = n) \/ (k <> key /\ (k, m) ∈ d)).
Proof.
  induction d as [|[k w] d IH]; cbn; [discriminate|]. intros Hnd.
  apply NoDup_cons in Hnd as [Hnin Hnd].
  case_decide as Hk.
  - intros [= ->]. subst k. split; [done|]. split; [unfold total; cbn [foldr snd]; lia|].
    intros k m. rewrite !elem_of_cons. split.
    + intros [[= -> ->]|Hin]; [by left|]. right.
      assert (k <> key).
      { intros ->. apply Hnin. apply list_elem_of_fmap. by exists (key, m). }
      split; [done|by right].
    + intros [[-> ->]|[Hne [[= -> ->]|Hin]]]; [by left|done|by right].
  - intros Hg. destruct (IH Hnd Hg) as (Hkeys & Htot & Hel). split; [|split].
    + cbn. by rewrite Hkeys.
    + unfold total in *. cbn [foldr snd]. lia.
    + intros k' m. rewrite !elem_of_cons, Hel. split.
      * intros [[= -> ->]|[?|[? ?]]]; [right; split; [done|by left]|by left|].
        right. split; [done|by right].
      * intros [?|[Hne [[= -> ->]|Hin]]]; [right; by left|by left|]. right. by right.
Qed.

(** What the counting loop maintains once the triples [seen] have been
    counted. *)
Definition counts_inv (seen : list KnowledgeTriple) (d : list (string * Z)) : Prop :=
  NoDup d.*1 /\
  (forall k m, (k, m) ∈ d <-> m = occurrences k seen /\ (0 < m)%Z) /\
  total d = Z.of_nat (length seen).

Lemma count_relation_inv seen d x :
  counts_inv seen d -> counts_inv (seen ++ [x])%list (count_relation d x).
Proof.
  intros (Hnd & Hel & Htot). unfold count_relation.
  assert (Hlen : Z.of_nat (length (seen ++ [x])) = (Z.of_nat (length seen) + 1)%Z)
    by (rewrite length_app; cbn; lia).
  destruct (counts_get (relation x) d) as [v|] eqn:Hg; cbn [default from_option id].
  - assert (Hv : v = occurrences (relation x) seen /\ (0 < v)%Z).
    { apply Hel. by apply counts_get_Some. }
    destruct (counts_set_present (relation x) (v + 1) v d Hnd Hg) as (Hkeys & Htot' & Hel').
    split; [by rewrite Hkeys|]. split; [|lia].
    intros k m. rewrite Hel', occurrences_app, Hel.
    case_bool_decide as Hk.
    + subst k. split; [intros [[_ ->]|[? _]]; [lia|done]|]. intros [-> _]. left. split; [done|lia].
    + split; [intros [[-> _]|[_ [-> ?]]]; [done|split; lia]|].
      intros [-> ?]. right. split; [congruence|split; lia].
  - rewrite (counts_set_fresh _ _ _ Hg).
    assert (Hzero : occurrences (relation x) seen = 0%Z).
    { unfold occurrences in *.
      destruct (decide (0 < occurrences (relation x) seen)%Z) as [Hpos|Hn];
        [|unfold occurrences in Hn; lia].
      exfalso. apply counts_get_None in Hg. apply Hg.
      apply list_elem_of_fmap. exists (relation x, occurrences (relation x) seen).
      split; [done|]. apply Hel. split; [done|exact Hpos]. }
    split; [|split].
    + rewrite fmap_app. apply NoDup_app. split; [done|]. split; [|apply NoDup_singleton].
      intros k Hk Hk'. apply list_elem_of_singleton in Hk'. cbn in Hk'. subst k.
      by apply counts_get_None in Hg.
    + intros k m. rewrite elem_of_app, list_elem_of_singleton, occurrences_app, Hel.
      case_bool_decide as Hk.
      * subst k. rewrite Hzero. split; [intros [[-> ?]|[= ->]]; [lia|split; lia]|].
        intros [-> _]. right. reflexivity.
      * split; [intros [[-> ?]|[= -> ->]]; [split; lia|done]|].
        intros [-> ?]. left. split; lia.
    + rewrite total_app. unfold total at 2. cbn [foldr snd]. lia.
Qed.

Lemma counts_loop_inv ts seen d :
  counts_inv seen d -> counts_inv (seen ++ ts)%list (fold_left count_relation ts d).
Proof.
  revert seen d. induction ts as [|x xs IH]; intros seen d Hd; cbn [fold_left].
  - by rewrite app_nil_r.
  - replace (seen ++ x :: xs)%list with ((seen ++ [x]) ++ xs)%list by by rewrite <- app_assoc.
    by apply IH, count_relation_inv.
Qed.

Lemma counts_inv_init : counts_inv [] [].
Proof.
  split; [constructor|]. split; [|reflexivity].
  intros k m. split; [intros Hin; by apply elem_of_nil in Hin|].
  intros [-> Hpos]. unfold occurrences in Hpos. cbn in Hpos. lia.
Qed.

Lemma triple_dicts_serializable (ts : list KnowledgeTriple) :
  forallb json_serializable ((fun t => PyDict (KnowledgeTriple_asdict t)) <$> ts) = true.
Proof. induction ts as [|t ts IH]; [reflexivity|]. cbn in *. exact IH. Qed.

Lemma strs_serializable (xs : list string) : forallb json_serializable (PyStr <$> xs) = true.
Proof. induction xs as [|x xs IH]; [reflexivity|]. cbn in *. exact IH. Qed.

Lemma counts_serializable (d : list (string * Z)) :
  forallb (fun kv : string * pyval => let '(_, x) := kv in json_serializable x)
          ((fun kv : string * Z => (kv.1, PyInt kv.2)) <$> d) = true.
Proof. induction d as [|[k v] d IH]; [reflexivity|]. cbn in *. exact IH. Qed.

End GraphFacts.

(** *** Building, measuring, saving and loading a graph *)
Module GraphSpec.
Import DataStructures DictRoundTrip Graph GraphFacts.
Import Lia.

(** A client's calls on a graph, in order. *)
Inductive addition :=
  | AddEntity (entity : string + KGEntity)
  | AddTriple (triple : KnowledgeTriple).

Definition apply_addition (kg : KnowledgeGraph) (a : addition) : KnowledgeGraph :=
  match a with
  | AddEntity entity => add_entity entity kg
  | AddTriple triple => add_triple triple kg
  end.

Definition added_triples (calls : list addition) : list KnowledgeTriple :=
  omap (fun a => match a with AddTriple t => Some t | AddEntity _ => None end) calls.

(** X22: a graph built from [KnowledgeGraph()] by calls of [add_entity]
    and [add_triple] has the head and the tail of every triple among its
    entities, and holds exactly the triples added, in the order of the
    calls; neither call removes an entity. *)
Theorem graph_additions_closed (calls : list addition) :
  let kg := fold_left apply_addition calls KnowledgeGraph_new in
  (forall t, t ∈ triples kg -> head t ∈ entities kg /\ tail t ∈ entities kg) /\
  triples kg = added_triples calls /\
  (forall kg0 a, entities kg0 ⊆ entities (apply_addition kg0 a)).
Proof.
  cbn zeta.
  assert (Hgen : forall kg0, closed kg0 ->
            closed (fold_left apply_addition calls kg0) /\
            triples (fold_left apply_addition calls kg0)
              = (triples kg0 ++ added_triples calls)%list).
  { induction calls as [|a calls IH]; intros kg0 Hcl; cbn [fold_left].
    - split; [done|]. by rewrite app_nil_r.
    - destruct a as [e|t]; cbn [apply_addition].
      + destruct (IH (add_entity e kg0)) as [H1 H2]; [by apply closed_add_entity|].
        split; [done|]. rewrite H2. by destruct e.
      + destruct (IH (add_triple t kg0)) as [H1 H2]; [by apply closed_add_triple|].
        split; [done|]. rewrite H2. cbn. by rewrite <- app_assoc. }
  destruct (Hgen KnowledgeGraph_new closed_new) as [H1 H2].
  split; [exact H1|split; [exact H2|]].
  intros kg0 [[s|e]|t] x Hx; cbn; rewrite !elem_of_union; tauto.
Qed.

(** X23: the statistics count the triples by label.  In the result of
    [get_statistics], the relation distribution has one entry for each
    label that occurs, holding the number of triples with that label; the
    counts add up to the triple count; the number of unique relations is
    the number of different labels; and an empty graph gives all counts 0
    and the average confidence 0 without dividing. *)
Theorem get_statistics_counts `{Runtime} (kg : KnowledgeGraph) :
  let s := get_statistics kg in
  NoDup (relation_distribution s).*1 /\
  (forall r n, (r, n) ∈ relation_distribution s <->
               n = occurrences r (triples kg) /\ (0 < n)%Z) /\
  total (relation_distribution s) = triple_count s /\
  unique_relations s = Z.of_nat (length (remove_dups (relation <$> triples kg))) /\
  triple_count s = Z.of_nat (length (triples kg)) /\
  entity_count s = Z.of_nat (size (entities kg)) /\
  get_statistics KnowledgeGraph_new = mkStatistics 0 0 0 [] (PyInt 0).
Proof.
  cbn zeta. unfold get_statistics.
  cbn [relation_distribution triple_count unique_relations entity_count].
  destruct (counts_loop_inv (triples kg) [] [] counts_inv_init) as (Hnd & Hel & Htot).
  cbn [app] in *. set (d := fold_left count_relation (triples kg) []) in *.
  split; [exact Hnd|]. split; [exact Hel|]. split; [exact Htot|].
  split; [|split; [reflexivity|split; reflexivity]].
  f_equal. rewrite <- (length_fmap fst d). apply Permutation_length.
  apply NoDup_Permutation; [exact Hnd|apply NoDup_remove_dups|].
  intros r. rewrite elem_of_remove_dups, <- occurrences_pos. split.
  - intros Hin. apply list_elem_of_fmap in Hin as ([k m] & -> & Hkm).
    apply Hel in Hkm as [-> Hpos]. exact Hpos.
  - intros Hpos. apply list_elem_of_fmap. exists (r, occurrences r (triples kg)).
    split; [reflexivity|]. by apply Hel.
Qed.

(** X24: a graph saved and loaded is the graph itself.  When the
    metadata holds plain JSON data, [load_from_file] applied to what
    [save_to_file] wrote gives back the same set of entities, the same
    triples in the same order and the same metadata, however the set was
    listed in the file; the statistics written are not read. *)
Theorem graph_save_load_round_trip `{Runtime} (kg : KnowledgeGraph) :
  json_serializable (metadata kg) = true ->
  save_to_file kg ≫= load_from_file = Some kg.
Proof.
  intros Hmeta. unfold save_to_file, json_dump_load.
  assert (Hser : json_serializable (to_dict kg) = true).
  { unfold to_dict. cbn [json_serializable forallb Statistics_to_dict].
    rewrite strs_serializable, triple_dicts_serializable, Hmeta, counts_serializable.
    unfold get_statistics. cbn [avg_confidence]. by destruct (triples kg). }
  rewrite Hser. cbn [mbind option_bind]. unfold to_dict, load_from_file.
  change (kw_get "entities" _) with (Some (PyList (PyStr <$> set_items (entities kg)))).
  change (kw_get "triples" _)
    with (Some (PyList ((fun t => PyDict (KnowledgeTriple_asdict t)) <$> triples kg))).
  change (kw_get "metadata" _) with (Some (metadata kg)).
  cbn [default from_option id py_iter mbind option_bind].
  rewrite mapM_as_str, RunRecordLoad.mapM_triples. cbn [mbind option_bind].
  destruct kg as [es ts md]. cbn [entities triples metadata]. f_equal. f_equal.
  apply set_eq. intros x. by rewrite elem_of_list_to_set, set_items_elem.
Qed.

Definition small_graph : KnowledgeGraph :=
  add_triple (mkTriple "aspirin" "treats" "headache" 0.9 "doc1" 0.7 0.8)
    (add_entity (inl "ibuprofen") KnowledgeGraph_new).

Lemma graph_save_load_round_trip_witness :
  save_to_file small_graph ≫= load_from_file = Some small_graph.
Proof.
  apply (graph_save_load_round_trip small_graph). reflexivity.
Defined.

End GraphSpec.

(** ** The reader's default scores, [karma/agents/reader/agent.py] *)
Module Reader.
Import PyBuiltins.

(** A segment as [_split_into_segments] builds it. *)
Record Segment := mkSegment {
  text : string;
  score : float;
  section : string;
  position : Z;
  word_count : Z
}.

Definition section_scores : gmap string float :=
  list_to_map
    [ ("results", 0.8%float); ("discussion", 0.7%float); ("abstract", 0.6%float);
      ("introduction", 0.5%float); ("content", 0.5%float); ("methods", 0.3%float);
      ("references", 0.1%float); ("acknowledgments", 0.1%float); ("funding", 0.1%float);
      ("supplementary", 0.2%float); ("header", 0.2%float); ("figure_caption", 0.4%float) ].

Definition _get_default_score (segment : Segment) : float :=
  let section_type := section segment in
  let word_count := word_count segment in
  let base_score := default 0.5%float (section_scores !! section_type) in
  let base_score :=
    if (word_count <? 10)%Z then (base_score * 0.5)%float
    else if (100 <? word_count)%Z then (base_score * 1.1)%float
    else base_score in
  py_min 1.0 (py_max 0.0 base_score).

(** The filter at the end of [process]. *)
Definition relevant_segments (relevance_threshold : float) (scored_segments : list Segment)
    : list Segment :=
  List.filter (fun seg => (relevance_threshold <=? score seg)%float) scored_segments.

Lemma section_scores_lookup (k : string) :
  section_scores !! k =
    if decide (k = "results") then Some 0.8%float
    else if decide (k = "discussion") then Some 0.7%float
    else if decide (k = "abstract") then Some 0.6%float
    else if decide (k = "introduction") then Some 0.5%float
    else if decide (k = "content") then Some 0.5%float
    else if decide (k = "methods") then Some 0.3%float
    else if decide (k = "references") then Some 0.1%float
    else if decide (k = "acknowledgments") then Some 0.1%float
    else if decide (k = "funding") then Some 0.1%float
    else if decide (k = "supplementary") then Some 0.2%float
    else if decide (k = "header") then Some 0.2%float
    else if decide (k = "figure_caption") then Some 0.4%float
    else None.
Proof.
  unfold section_scores. cbn [list_to_map foldr fst snd uncurry].
  repeat (rewrite lookup_insert; case_decide; [subst k; reflexivity|];
          rewrite decide_False by congruence).
  apply lookup_empty.
Qed.

(** X25: the default score of a segment lies between 0.05 and 0.89
    whatever its section and length, so the clamp to [0, 1] at the end of
    [_get_default_score] never changes it; and a segment of the sections
    references, acknowledgments or funding scores below 0.2, the default
    relevance threshold, at every length. *)
Theorem get_default_score_bounds (segment : Segment) :
  let s := _get_default_score segment in
  (0.05 <=? s)%float = true /\ (s <=? 0.89)%float = true /\
  (section segment ∈ ["references"; "acknowledgments"; "funding"] ->
   (0.2 <=? s)%float = false /\ relevant_segments 0.2 [mkSegment (text segment) s
       (section segment) (position segment) (word_count segment)] = []).
Proof.
  destruct segment as [tx sc sec pos wc]. unfold _get_default_score. cbn zeta.
  cbn [section word_count text position]. rewrite section_scores_lookup.
  unfold relevant_segments. cbn [List.filter score].
  repeat (case_decide;
    [subst sec; destruct (wc <? 10)%Z, (100 <? wc)%Z;
       (split; [vm_compute; reflexivity|split; [vm_compute; reflexivity|]]);
       intros Hs;
       first [ solve [split; vm_compute; reflexivity]
             | exfalso; rewrite !elem_of_cons, elem_of_nil in Hs; intuition discriminate ]|]).
  cbn [default from_option id].
  destruct (wc <? 10)%Z, (100 <? wc)%Z;
    (split; [vm_compute; reflexivity|split; [vm_compute; reflexivity|]]);
    intros Hs; exfalso; rewrite !elem_of_cons, elem_of_nil in Hs; intuition congruence.
Qed.

End Reader.

(** *** Scoring in batches *)
Module ReaderBatches.
Import PyBuiltins Reader.
Import Lia.

(** [segment['score'] = s] *)
Definition set_score (s : float) (segment : Segment) : Segment :=
  mkSegment (text segment) s (section segment) (position segment) (word_count segment).

(** [range(0, stop, step)] *)
Definition range_step (stop step : nat) : list nat :=
  (fun k => k * step) <$> seq 0 ((stop + step - 1) / step).

Section Scoring.
(** The two calls whose result the text and the model decide. *)
Variable _split_into_segments : string -> list Segment.
Variable _batch_score_relevance : list Segment -> list float.

(** The inner loop of [_score_segments_batch], over one batch. *)
Definition score_batch (batch : list Segment) : list Segment :=
  let scores := _batch_score_relevance batch in
  imap (fun j segment =>
          match scores !! j with
          | Some s => set_score s segment
          | None => set_score (_get_default_score segment) segment
          end) batch.

Definition _score_segments_batch (segments : list Segment) : list Segment :=
  let batch_size := 5 in
  flat_map (fun i => score_batch (take batch_size (drop i segments)))
           (range_step (length segments) batch_size).

Definition process (content : string) (relevance_threshold : float)
    : list Segment * list Segment :=
  let segments := _split_into_segments content in
  let scored_segments := _score_segments_batch segments in
  (scored_segments, relevant_segments relevance_threshold scored_segments).

(** A segment without its score. *)
Definition unscored (segment : Segment) : string * string * Z * Z :=
  (text segment, section segment, position segment, word_count segment).

Lemma imap_unscored (f : nat -> Segment -> Segment) (l : list Segment) :
  (forall j x, unscored (f j x) = unscored x) -> unscored <$> imap f l = unscored <$> l.
Proof.
  revert f. induction l as [|x xs IH]; intros f Hf; [reflexivity|].
  cbn [imap fmap list_fmap]. rewrite Hf. f_equal. apply IH. intros j y. apply Hf.
Qed.

Lemma score_batch_unscored (batch : list Segment) :
  unscored <$> score_batch batch = unscored <$> batch.
Proof.
  unfold score_batch. apply imap_unscored. intros j x.
  by destruct (_batch_score_relevance batch !! j).
Qed.

Lemma batches_cover {A} (l : list A) (k : nat) :
  flat_map (fun i => take 5 (drop i l)) ((fun k => k * 5) <$> seq 0 k) = take (k * 5) l.
Proof.
  induction k as [|k IH]; [reflexivity|].
  rewrite seq_S, fmap_app, flat_map_app, IH. cbn [fmap list_fmap flat_map plus].
  rewrite app_nil_r, take_take_drop. f_equal. lia.
Qed.

Lemma score_segments_unscored (segments : list Segment) :
  unscored <$> _score_segments_batch segments = unscored <$> segments.
Proof.
  unfold _score_segments_batch, range_step. cbn zeta.
  set (k := (length segments + 5 - 1) / 5).
  transitivity (unscored <$> flat_map (fun i => take 5 (drop i segments))
                                      ((fun k => k * 5) <$> seq 0 k)).
  - generalize ((fun k => k * 5) <$> seq 0 k). intros starts.
    induction starts as [|i starts IH]; [reflexivity|].
    cbn [flat_map]. by rewrite !fmap_app, IH, score_batch_unscored.
  - rewrite batches_cover, take_ge; [reflexivity|].
    subst k. pose proof (Nat.div_mod_eq (length segments + 5 - 1) 5).
    pose proof (Nat.mod_upper_bound (length segments + 5 - 1) 5). lia.
Qed.

End Scoring.

(** X26: scoring keeps every segment, in order, and changes only
    scores; filtering keeps exactly the segments that reach the
    threshold.  Whatever the segmentation and whatever scores the model
    returns for a batch (too few, too many, none), the first list
    returned by [process] is the list of segments with text, section,
    position and word count untouched, and the second is the sub-list of
    the first made of the segments whose score is >= the threshold. *)
Theorem process_keeps_segments
    (_split_into_segments : string -> list Segment)
    (_batch_score_relevance : list Segment -> list float)
    (content : string) (relevance_threshold : float) :
  let r := process _split_into_segments _batch_score_relevance content relevance_threshold in
  unscored <$> r.1 = unscored <$> _split_into_segments content /\
  length r.1 = length (_split_into_segments content) /\
  sublist r.2 r.1 /\
  (forall seg, seg ∈ r.2 <-> seg ∈ r.1 /\ (relevance_threshold <=? score seg)%float = true).
Proof.
  cbn zeta. unfold process. cbn [fst snd].
  pose proof (score_segments_unscored _batch_score_relevance (_split_into_segments content)) as Hu.
  split; [exact Hu|]. split; [|split].
  - apply (f_equal length) in Hu. by rewrite !length_fmap in Hu.
  - apply sublist_bool_filter.
  - intros seg. unfold relevant_segments. by rewrite elem_of_bool_filter.
Qed.

End ReaderBatches.
